(** * AgentDiplomacy: the match engine and the reputation ledger

    A shallow embedding of [src/engine/GameState.js] and
    [src/engine/ReputationEngine.js], and the properties of the
    specification that are proved about them.

    Conventions of the embedding.

    - Numbers.  A JavaScript number is modelled by [JsNum]: an exact
      rational, or one of [NaN], [+Infinity], [-Infinity].  The rounding
      that IEEE-754 doubles apply after every operation is not modelled:
      products such as [x * 0.7] are taken exactly, as the specification
      writes them.  Fields that the engine only ever assigns integers
      (turn counters, resources, list lengths, deal counters, the trust
      score) are [Z] or [nat].
    - [Map].  A JavaScript [Map] iterates in insertion order and the
      engine depends on that order, so the maps of [GameState] are
      association lists ([OMap]) whose [set] updates in place or appends.
      The maps of [ReputationEngine] are read by key, and iterated only
      to answer a yes-or-no question, so they are [gmap]s; the member
      [Set] of an alliance is iterated in insertion order and is a list
      without duplicates.
    - Effects.  Every method takes the state and returns the new state
      next to its result; a [throw] is the [Throw] outcome, returned with
      the state as it was when the exception left the method.
      [emit] appends to the event log of the state.  [Date.now()] (read
      once per call) and the outputs of [Math.random()] are arguments. *)

From Stdlib Require Import ZArith QArith Qround Lqa Lia.
From Stdlib Require Import String Ascii List Permutation.
From stdpp Require Import base tactics option list gmap strings pretty.

Local Open Scope Z_scope.
Local Open Scope string_scope.
Local Open Scope list_scope.

(** ** JavaScript numbers *)

Module JsNum.

Inductive t : Type :=
  | Fin (q : Q)
  | NaN
  | PosInf
  | NegInf.

Definition ofZ (z : Z) : t := Fin (inject_Z z).
Definition ofNat (n : nat) : t := ofZ (Z.of_nat n).

Definition Qltb (x y : Q) : bool := negb (Qle_bool y x).

  (** [a < b] *)
Definition lt (a b : t) : bool :=
    match a, b with
    | NaN, _ | _, NaN => false
    | Fin x, Fin y => Qltb x y
    | NegInf, NegInf => false
    | NegInf, _ => true
    | _, NegInf => false
    | PosInf, _ => false
    | Fin _, PosInf => true
    end.

  (** [a > b] *)
Definition gt (a b : t) : bool := lt b a.

  (** [a <= b] *)
Definition le (a b : t) : bool :=
    match a, b with
    | NaN, _ | _, NaN => false
    | Fin x, Fin y => Qle_bool x y
    | NegInf, _ => true
    | _, PosInf => true
    | PosInf, _ => false
    | Fin _, NegInf => false
    end.

  (** [a >= b] *)
Definition ge (a b : t) : bool := le b a.

Definition neg (a : t) : t :=
    match a with
    | Fin x => Fin (- x)
    | NaN => NaN
    | PosInf => NegInf
    | NegInf => PosInf
    end.

  (** [a + b] *)
Definition add (a b : t) : t :=
    match a, b with
    | NaN, _ | _, NaN => NaN
    | Fin x, Fin y => Fin (x + y)
    | PosInf, NegInf | NegInf, PosInf => NaN
    | PosInf, _ | _, PosInf => PosInf
    | NegInf, _ | _, NegInf => NegInf
    end.

  (** [a - b] *)
Definition sub (a b : t) : t := add a (neg b).

  (** The sign an infinity takes when multiplied by the finite [x]. *)
Definition scaleInf (positive : bool) (x : Q) : t :=
    match (x ?= 0)%Q with
    | Eq => NaN
    | Gt => if positive then PosInf else NegInf
    | Lt => if positive then NegInf else PosInf
    end.

  (** [a * b] *)
Definition mul (a b : t) : t :=
    match a, b with
    | NaN, _ | _, NaN => NaN
    | Fin x, Fin y => Fin (x * y)
    | PosInf, Fin y => scaleInf true y
    | NegInf, Fin y => scaleInf false y
    | Fin x, PosInf => scaleInf true x
    | Fin x, NegInf => scaleInf false x
    | PosInf, PosInf | NegInf, NegInf => PosInf
    | PosInf, NegInf | NegInf, PosInf => NegInf
    end.

  (** [Math.floor(a)] *)
Definition floor (a : t) : t :=
    match a with
    | Fin x => Fin (inject_Z (Qfloor x))
    | other => other
    end.

  (** [Math.max(a, b)] *)
Definition max (a b : t) : t :=
    match a, b with
    | NaN, _ | _, NaN => NaN
    | _, _ => if lt a b then b else a
    end.

  (** A number is falsy when it is zero or [NaN]. *)
Definition truthy (a : t) : bool :=
    match a with
    | Fin x => negb (Qeq_bool x 0)
    | NaN => false
    | _ => true
    end.

  (** [SameValueZero] on numbers, the equality of [Map] keys and of
      [Array.prototype.includes]. *)
Definition same (a b : t) : bool :=
    match a, b with
    | Fin x, Fin y => Qeq_bool x y
    | NaN, NaN | PosInf, PosInf | NegInf, NegInf => true
    | _, _ => false
    end.


End JsNum.

Abbreviation num := JsNum.t.

Arguments JsNum.lt : simpl never.
Arguments JsNum.gt : simpl never.
Arguments JsNum.le : simpl never.
Arguments JsNum.ge : simpl never.
Arguments JsNum.add : simpl never.
Arguments JsNum.sub : simpl never.
Arguments JsNum.mul : simpl never.
Arguments JsNum.max : simpl never.
Arguments JsNum.ofZ : simpl never.

(** ** JavaScript values, as far as the engine looks at them *)

Inductive JsVal : Type :=
| JsUndefined
| JsNull
| JsBool (b : bool)
| JsNumber (n : num)
| JsString (s : string)
| JsObject (ref : nat).   (* some object, known by its identity only *)

(** [!!v] *)
Definition truthy (v : JsVal) : bool :=
  match v with
  | JsUndefined | JsNull => false
  | JsBool b => b
  | JsNumber n => JsNum.truthy n
  | JsString s => negb (bool_decide (s = ""))
  | JsObject _ => true
  end.

(** [SameValueZero]. *)
Definition sameValueZero (a b : JsVal) : bool :=
  match a, b with
  | JsUndefined, JsUndefined | JsNull, JsNull => true
  | JsBool x, JsBool y => bool_decide (x = y)
  | JsNumber x, JsNumber y => JsNum.same x y
  | JsString x, JsString y => bool_decide (x = y)
  | JsObject x, JsObject y => bool_decide (x = y)
  | _, _ => false
  end.

(** The output of one call of [Math.random()]: a number in [[0, 1)],
    here [draw_num / (draw_num + draw_gap + 1)]. *)
Record RandomDraw : Type := mkDraw { draw_num : nat; draw_gap : nat }.

Definition drawQ (r : RandomDraw) : Q :=
  Z.of_nat (draw_num r) # Pos.of_succ_nat (draw_num r + draw_gap r).

Definition drawNum (r : RandomDraw) : num := JsNum.Fin (drawQ r).

(** ** Insertion-ordered maps: the JavaScript [Map] *)

Module OMap.
Section Ops.
Context {K V : Type} (same : K → K → bool).

    (** [m.get(k)] *)
Fixpoint get (k : K) (m : list (K * V)) : option V :=
      match m with
      | [] => None
      | (k', v) :: rest => if same k' k then Some v else get k rest
      end.

    (** [m.has(k)] *)
Definition has (k : K) (m : list (K * V)) : bool :=
      match get k m with Some _ => true | None => false end.

    (** [m.set(k, v)]: an existing key keeps its place. *)
Fixpoint set (k : K) (v : V) (m : list (K * V)) : list (K * V) :=
      match m with
      | [] => [(k, v)]
      | (k', v') :: rest =>
          if same k' k then (k', v) :: rest else (k', v') :: set k v rest
      end.

    (** [m.delete(k)] *)
Fixpoint delete (k : K) (m : list (K * V)) : list (K * V) :=
      match m with
      | [] => []
      | (k', v') :: rest =>
          if same k' k then rest else (k', v') :: delete k rest
      end.

Definition keys (m : list (K * V)) : list K := map fst m.
Definition values (m : list (K * V)) : list V := map snd m.
Definition size (m : list (K * V)) : nat := length m.
End Ops.
End OMap.

Definition sameString (a b : string) : bool := bool_decide (a = b).

(** Maps keyed by strings (agent ids, territory ids). *)
Abbreviation smap V := (list (string * V)).
Abbreviation sget := (OMap.get sameString).
Abbreviation shas := (OMap.has sameString).
Abbreviation sset := (OMap.set sameString).
Abbreviation sdelete := (OMap.delete sameString).

(** More of [Math] and of the arithmetic operators. *)
Module JsMath.
Import JsNum.

  (** [Math.round(a)]: the nearest integer, halves rounded up. *)
Definition round (a : num) : num :=
    match a with
    | Fin x => Fin (inject_Z (Qfloor (x + (1 # 2))))
    | other => other
    end.

  (** [a / b]; the sign of a zero is not tracked, so [x / 0] takes the
      sign of [x]. *)
Definition div (a b : num) : num :=
    match a, b with
    | NaN, _ | _, NaN => NaN
    | Fin x, Fin y =>
        if Qeq_bool y 0 then
          match (x ?= 0)%Q with Eq => NaN | Gt => PosInf | Lt => NegInf end
        else Fin (x / y)
    | Fin _, _ => Fin 0
    | PosInf, Fin y => if Qle_bool 0 y then PosInf else NegInf
    | NegInf, Fin y => if Qle_bool 0 y then NegInf else PosInf
    | _, _ => NaN
    end.
End JsMath.

(** [Array.prototype.sort(cmp)]: the sort is stable, and [x] goes behind
    [y] only when [cmp x y] is positive.  [cmp] answers with a number. *)
Section Sort.
Context {A : Type} (cmp : A → A → num).

Fixpoint sortInsert (x : A) (l : list A) : list A :=
    match l with
    | [] => [x]
    | y :: rest =>
        if JsNum.gt (cmp x y) (JsNum.ofZ 0) then y :: sortInsert x rest
        else x :: y :: rest
    end.

Definition Array_sort (l : list A) : list A := foldr sortInsert [] l.
End Sort.

(** ** Outcomes: a method returns or throws *)

Inductive JsError : Type :=
| Error (message : string)
| TypeError (message : string).

Inductive Outcome (A : Type) : Type :=
| Return (a : A)
| Throw (e : JsError).
Arguments Return {A} a.
Arguments Throw {A} e.

(** The specification's name for the error of an operation attempted
    outside its phase; [commitMove] throws it as a plain [Error]. *)
Definition PhaseViolationError : JsError := Error "Not in commit phase".

(** ** The records of [GameState] *)

Module Territory.
Record t : Type := mk {
    id : string;
    name : string;
    region : string;
    owner : option string;      (* [null] is [None] *)
    armies : num;
    resources : Z;
    neighbors : list string;
    continent : string
  }.

Definition setOwner (o : option string) (x : t) : t :=
    mk (id x) (name x) (region x) o (armies x) (resources x)
       (neighbors x) (continent x).
Definition setArmies (a : num) (x : t) : t :=
    mk (id x) (name x) (region x) (owner x) a (resources x)
       (neighbors x) (continent x).
End Territory.

Module Agent.
Record t : Type := mk {
    id : string;
    name : string;
    color : string;
    personality : option string;   (* [personality?.type] *)
    territories : list string;
    armies : num;
    resources : Z;
    eliminated : bool;
    joinTime : Z
  }.

Definition setTerritories (l : list string) (x : t) : t :=
    mk (id x) (name x) (color x) (personality x) l (armies x)
       (resources x) (eliminated x) (joinTime x).
Definition setArmies (a : num) (x : t) : t :=
    mk (id x) (name x) (color x) (personality x) (territories x) a
       (resources x) (eliminated x) (joinTime x).
Definition setResources (r : Z) (x : t) : t :=
    mk (id x) (name x) (color x) (personality x) (territories x)
       (armies x) r (eliminated x) (joinTime x).
End Agent.

Module Continent.
Record t : Type := mk {
    name : string;
    bonus : Z;
    territories : list string
  }.
End Continent.

(** A move as it arrives: the four properties the engine reads.  Other
    properties an agent attaches ([note], [distributions]) are carried
    nowhere by the engine and are left out. *)
Module Move.
Record t : Type := mk {
    type : JsVal;
    from : JsVal;
    to : JsVal;
    armies : JsVal
  }.
End Move.

(** The [move] argument of [commitMove] and [validateMove]: an object, or
    anything that is not one ([null], [undefined], a primitive). *)
Inductive MoveArg : Type :=
| NotAnObject
| MoveObject (m : Move.t).

Module Commitment.
Record t : Type := mk {
    agentId : string;
    move : Move.t;
    signature : string;
    timestamp : Z;
    hash : string
  }.
End Commitment.

Module Revealed.
Record t : Type := mk {
    commitment : Commitment.t;      (* [...commitment] *)
    revealedAt : Z
  }.
Definition agentId (r : t) : string := Commitment.agentId (commitment r).
Definition move (r : t) : Move.t := Commitment.move (commitment r).
End Revealed.

Module BattleResult.
Record t : Type := mk {
    territory : string;
    defender : option string;
    attackers : list string;
    winner : option string;
    remainingArmies : num;
    attackRoll : num;
    defenseRoll : num
  }.
End BattleResult.

Module Conversation.
Record t : Type := mk {
    id : string;
    agentId : string;
    message : string;
    type : string;
    turn : Z;
    phase : string;
    timestamp : Z
  }.
End Conversation.

Inductive WinType : Type := elimination | domination | turns.

Record WinResult : Type := mkWin { win_type : WinType; win_winner : string }.

(** What [emit] sends out. *)
Inductive Event : Type :=
| agentJoined (agentId : string)
| agentLeft (agentId : string)
| territoriesDistributed
| phaseChange (from to : string) (turn : Z)
| moveCommitted (agentId hash : string)
| allMovesCommitted
| movesRevealed (moves : list Revealed.t)
| battlesResolved (results : list BattleResult.t)
| turnEnd (turn : Z)
| conversation (entry : Conversation.t).

Record HistoryEntry : Type := mkHistory {
  h_turn : Z;
  h_phase : string;
  h_timestamp : Z
}.

Record PhaseDuration : Type := mkDuration {
  negotiation : Z;
  commit : Z;
  resolve : Z
}.

(** The fields of a [GameState] instance.  [alliances] is never read or
    written by the class and is left out; [continents] is [None] until
    [initializeMap] has run. *)
Module State.
Record t : Type := mk {
    gameId : string;
    phase : string;
    turn : Z;
    maxTurns : Z;
    agents : smap Agent.t;
    territories : smap Territory.t;
    continents : option (smap Continent.t);
    conversations : list Conversation.t;
    moves : smap Commitment.t;
    revealedMoves : smap Revealed.t;
    history : list HistoryEntry;
    createdAt : Z;
    lastActivity : Z;
    winner : option string;
    phaseStartTime : option Z;
    phaseDuration : PhaseDuration;
    events : list Event
  }.

Definition setAgents (a : smap Agent.t) (s : t) : t :=
    mk (gameId s) (phase s) (turn s) (maxTurns s) a (territories s)
       (continents s) (conversations s) (moves s) (revealedMoves s)
       (history s) (createdAt s) (lastActivity s) (winner s)
       (phaseStartTime s) (phaseDuration s) (events s).
Definition setTerritories (x : smap Territory.t) (s : t) : t :=
    mk (gameId s) (phase s) (turn s) (maxTurns s) (agents s) x
       (continents s) (conversations s) (moves s) (revealedMoves s)
       (history s) (createdAt s) (lastActivity s) (winner s)
       (phaseStartTime s) (phaseDuration s) (events s).
Definition setMoves (m : smap Commitment.t) (s : t) : t :=
    mk (gameId s) (phase s) (turn s) (maxTurns s) (agents s) (territories s)
       (continents s) (conversations s) m (revealedMoves s)
       (history s) (createdAt s) (lastActivity s) (winner s)
       (phaseStartTime s) (phaseDuration s) (events s).
Definition setRevealedMoves (m : smap Revealed.t) (s : t) : t :=
    mk (gameId s) (phase s) (turn s) (maxTurns s) (agents s) (territories s)
       (continents s) (conversations s) (moves s) m
       (history s) (createdAt s) (lastActivity s) (winner s)
       (phaseStartTime s) (phaseDuration s) (events s).
Definition setWinner (w : option string) (s : t) : t :=
    mk (gameId s) (phase s) (turn s) (maxTurns s) (agents s) (territories s)
       (continents s) (conversations s) (moves s) (revealedMoves s)
       (history s) (createdAt s) (lastActivity s) w
       (phaseStartTime s) (phaseDuration s) (events s).
Definition setTurn (n : Z) (s : t) : t :=
    mk (gameId s) (phase s) n (maxTurns s) (agents s) (territories s)
       (continents s) (conversations s) (moves s) (revealedMoves s)
       (history s) (createdAt s) (lastActivity s) (winner s)
       (phaseStartTime s) (phaseDuration s) (events s).
Definition setLastActivity (n : Z) (s : t) : t :=
    mk (gameId s) (phase s) (turn s) (maxTurns s) (agents s) (territories s)
       (continents s) (conversations s) (moves s) (revealedMoves s)
       (history s) (createdAt s) n (winner s)
       (phaseStartTime s) (phaseDuration s) (events s).
  (** [this.emit(e)], with no listener modelled. *)
Definition emit (e : Event) (s : t) : t :=
    mk (gameId s) (phase s) (turn s) (maxTurns s) (agents s) (territories s)
       (continents s) (conversations s) (moves s) (revealedMoves s)
       (history s) (createdAt s) (lastActivity s) (winner s)
       (phaseStartTime s) (phaseDuration s) (events s ++ [e]).
End State.

(** ** The methods of [GameState] *)

Module GameState.

Record AgentInfo : Type := mkInfo {
    info_id : string;
    info_name : string;
    info_color : string;
    info_personality : option string
  }.

Record Attacker : Type := mkAttacker {
    att_agentId : string;
    att_from : JsVal;
    att_armies : num
  }.

  (** An entry of the local [battles] map; its [defender] and [supports]
      properties are never read. *)
Record Battle : Type := mkBattle { attackers : list Attacker }.

  (** [v === str] for a string literal [str]. *)
Definition isString (str : string) (v : JsVal) : bool :=
    match v with JsString s => bool_decide (s = str) | _ => false end.

  (** [['attack', 'defend', 'support', 'move', 'none'].includes(v)] *)
Definition isMoveKind (v : JsVal) : bool :=
    existsb (sameValueZero v)
      [JsString "attack"; JsString "defend"; JsString "support";
       JsString "move"; JsString "none"].

  (** [this.territories.has(v)] and [this.territories.get(v)] for an
      arbitrary value: the keys are strings. *)
Definition hasTerritory (v : JsVal) (ts : smap Territory.t) : bool :=
    match v with JsString s => shas s ts | _ => false end.

Definition getTerritory (v : JsVal) (ts : smap Territory.t)
    : option (string * Territory.t) :=
    match v with
    | JsString s => match sget s ts with Some t => Some (s, t) | None => None end
    | _ => None
    end.

  (** [move.armies || 1], read as a number.  [validateMove] lets through
      [undefined] and numbers only, and nothing else reaches the stored
      moves; on those this is exact.  (A string or an object would make
      the later [+=] a concatenation; it is read as 1 here.) *)
Definition orOne (v : JsVal) : num :=
    match v with
    | JsNumber n => if JsNum.truthy n then n else JsNum.ofZ 1
    | _ => JsNum.ofZ 1
    end.

  (** [x || 0] on what [attackerForces[id]] holds. *)
Definition orZero (o : option num) : num :=
    match o with
    | Some x => if JsNum.truthy x then x else JsNum.ofZ 0
    | None => JsNum.ofZ 0
    end.

Definition getActiveAgents (s : State.t) : list Agent.t :=
    List.filter (λ a, negb (Agent.eliminated a)) (OMap.values (State.agents s)).

Definition addAgent (agent : AgentInfo) (now : Z) (s : State.t)
    : Outcome unit * State.t :=
    if (7 <=? OMap.size (State.agents s))%nat then
      (Throw (Error "Maximum 7 agents allowed"), s)
    else
      let record :=
        Agent.mk (info_id agent) (info_name agent) (info_color agent)
                 (info_personality agent) [] (JsNum.ofZ 0) 0 false now in
      (Return tt,
       State.emit (agentJoined (info_id agent))
         (State.setAgents (sset (info_id agent) record (State.agents s)) s)).

  (** The [forEach] of [removeAgent]: every listed territory that exists
      goes back to neutral. *)
Definition releaseTerritories (tids : list string) (ts : smap Territory.t)
    : smap Territory.t :=
    foldl (λ acc tid,
             match sget tid acc with
             | Some t =>
                 sset tid (Territory.setArmies (JsNum.ofZ 0)
                             (Territory.setOwner None t)) acc
             | None => acc
             end) ts tids.

Definition removeAgent (agentId : string) (s : State.t) : State.t :=
    match sget agentId (State.agents s) with
    | Some agent =>
        State.emit (agentLeft agentId)
          (State.setAgents (sdelete agentId (State.agents s))
             (State.setTerritories
                (releaseTerritories (Agent.territories agent) (State.territories s))
                s))
    | None => s
    end.

  (** [[a[i], a[j]] = [a[j], a[i]]] with both indices inside the array,
      which is where the shuffle keeps them. *)
Definition swap (i j : nat) (l : list string) : list string :=
    match l !! i, l !! j with
    | Some x, Some y => <[j := x]> (<[i := y]> l)
    | _, _ => l
    end.

  (** [Math.floor(Math.random() * (i + 1))] *)
Definition randomIndex (r : RandomDraw) (i : nat) : nat :=
    Z.to_nat (Qfloor (drawQ r * inject_Z (Z.of_nat (i + 1)))).

  (** The Fisher-Yates loop from index [i] down to 1; [k] counts the
      draws taken so far. *)
Fixpoint shuffleFrom (rnd : nat → RandomDraw) (i k : nat) (l : list string)
    : list string :=
    match i with
    | O => l
    | S i' => shuffleFrom rnd i' (S k) (swap i (randomIndex (rnd k) i) l)
    end.

Definition shuffle (rnd : nat → RandomDraw) (l : list string) : list string :=
    shuffleFrom rnd (length l - 1) 0 l.

  (** [agentIds[index % agentIds.length]]: [undefined] when there is no
      agent. *)
Definition roundRobin (agentIds : list string) (index : nat) : option string :=
    match agentIds with
    | [] => None
    | _ => agentIds !! (index mod length agentIds)%nat
    end.

  (** The [forEach] that hands the shuffled territories out.  With no
      agent at all the first [push] meets [undefined] and throws, after
      the territory was already written. *)
Fixpoint assignTerritories (agentIds tids : list string) (index : nat)
      (s : State.t) : Outcome unit * State.t :=
    match tids with
    | [] => (Return tt, s)
    | tid :: rest =>
        match sget tid (State.territories s) with
        | None => (Throw (TypeError "territory is undefined"), s)
        | Some territory =>
            let agentId := roundRobin agentIds index in
            let s1 :=
              State.setTerritories
                (sset tid (Territory.setArmies (JsNum.ofZ 3)
                             (Territory.setOwner agentId territory))
                   (State.territories s)) s in
            match agentId with
            | Some aid =>
                match sget aid (State.agents s1) with
                | Some agent =>
                    let agent' :=
                      Agent.setArmies (JsNum.add (Agent.armies agent) (JsNum.ofZ 3))
                        (Agent.setTerritories (Agent.territories agent ++ [tid]) agent) in
                    assignTerritories agentIds rest (S index)
                      (State.setAgents (sset aid agent' (State.agents s1)) s1)
                | None => (Throw (TypeError "agent is undefined"), s1)
                end
            | None => (Throw (TypeError "agent is undefined"), s1)
            end
        end
    end.

Definition giveInitialResources (agentIds : list string) (as_ : smap Agent.t)
    : smap Agent.t :=
    foldl (λ acc aid,
             match sget aid acc with
             | Some agent => sset aid (Agent.setResources 10 agent) acc
             | None => acc
             end) as_ agentIds.

Definition distributeTerritories (rnd : nat → RandomDraw) (s : State.t)
    : Outcome unit * State.t :=
    let territoryIds := OMap.keys (State.territories s) in
    let agentIds := OMap.keys (State.agents s) in
    match assignTerritories agentIds (shuffle rnd territoryIds) 0 s with
    | (Return _, s1) =>
        (Return tt,
         State.emit territoriesDistributed
           (State.setAgents (giveInitialResources agentIds (State.agents s1)) s1))
    | (Throw e, s1) => (Throw e, s1)
    end.

Definition setPhase (phase : string) (now : Z) (s : State.t) : State.t :=
    State.mk (State.gameId s) phase (State.turn s) (State.maxTurns s)
      (State.agents s) (State.territories s) (State.continents s)
      (State.conversations s) (State.moves s) (State.revealedMoves s)
      (State.history s ++ [mkHistory (State.turn s) phase now])
      (State.createdAt s) (State.lastActivity s) (State.winner s)
      (Some now) (State.phaseDuration s)
      (State.events s ++ [phaseChange (State.phase s) phase (State.turn s)]).

Definition validateMove (ts : smap Territory.t) (move : MoveArg) : bool :=
    match move with
    | NotAnObject => false
    | MoveObject m =>
        if negb (truthy (Move.type m)) || negb (isMoveKind (Move.type m)) then false
        else if (isString "attack" (Move.type m) || isString "move" (Move.type m))
                && (negb (truthy (Move.from m)) || negb (truthy (Move.to m)))
        then false
        else if (isString "attack" (Move.type m) || isString "move" (Move.type m))
                && (negb (hasTerritory (Move.from m) ts)
                    || negb (hasTerritory (Move.to m) ts))
        then false
        else
          match Move.armies m with
          | JsUndefined => true
          | JsNumber n => negb (JsNum.lt n (JsNum.ofZ 1))
          | _ => false
          end
    end.

Section Commit.
    (** [crypto.createHash('sha256').update(JSON.stringify(move)).digest('hex')] *)
Variable sha256Json : Move.t → string.

Definition commitMove (agentId : string) (move : MoveArg)
        (signature : string) (now : Z) (s : State.t)
      : Outcome Commitment.t * State.t :=
      if negb (bool_decide (State.phase s = "commit")) then
        (Throw (Error "Not in commit phase"), s)
      else if negb (validateMove (State.territories s) move) then
        (Throw (Error "Invalid move structure"), s)
      else
        match move with
        | NotAnObject => (Throw (Error "Invalid move structure"), s)
        | MoveObject m =>
            let commitment :=
              Commitment.mk agentId m signature now (sha256Json m) in
            let s1 := State.setMoves (sset agentId commitment (State.moves s)) s in
            let s2 := State.emit (moveCommitted agentId (Commitment.hash commitment)) s1 in
            let s3 :=
              if bool_decide (OMap.size (State.moves s2) = length (getActiveAgents s2))
              then State.emit allMovesCommitted s2
              else s2 in
            (Return commitment, s3)
        end.
End Commit.

Definition revealMoves (now : Z) (s : State.t)
    : Outcome (list Revealed.t) * State.t :=
    if negb (bool_decide (State.phase s = "resolve")) then
      (Throw (Error "Not in resolve phase"), s)
    else
      let revealed :=
        foldl (λ acc kc, sset (fst kc) (Revealed.mk (snd kc) now) acc)
              [] (State.moves s) in
      let s1 := State.setRevealedMoves revealed s in
      (Return (OMap.values revealed),
       State.emit (movesRevealed (OMap.values revealed)) s1).

  (** The first loop of [resolveBattles]: attacks grouped by target, the
      targets in the order of their first attack. *)
Definition addAttack (battles : list (JsVal * Battle))
      (entry : string * Revealed.t) : list (JsVal * Battle) :=
    let agentId := fst entry in
    let move := Revealed.move (snd entry) in
    if isString "attack" (Move.type move) then
      let battles1 :=
        if OMap.has sameValueZero (Move.to move) battles then battles
        else OMap.set sameValueZero (Move.to move) (mkBattle []) battles in
      match OMap.get sameValueZero (Move.to move) battles1 with
      | Some b =>
          OMap.set sameValueZero (Move.to move)
            (mkBattle (attackers b ++
               [mkAttacker agentId (Move.from move) (orOne (Move.armies move))]))
            battles1
      | None => battles1
      end
    else battles.

Definition groupAttacks (revealed : smap Revealed.t) : list (JsVal * Battle) :=
    foldl addAttack [] revealed.

Definition totalAttackOf (atts : list Attacker) : num :=
    foldl (λ acc att, JsNum.add acc (att_armies att)) (JsNum.ofZ 0) atts.

  (** The [attackerForces] object, its entries in insertion order. *)
Definition attackerForcesOf (atts : list Attacker) : smap num :=
    foldl (λ forces att,
             sset (att_agentId att)
                  (JsNum.add (orZero (sget (att_agentId att) forces)) (att_armies att))
                  forces) [] atts.

  (** [(a, b) => b[1] - a[1]] *)
Definition byForceDesc (a b : string * num) : num := JsNum.sub (snd b) (snd a).

Definition sixTenths : num := JsNum.Fin (6 # 10).
Definition sevenTenths : num := JsNum.Fin (7 # 10).
Definition oneAndHalf : num := JsNum.Fin (3 # 2).

  (** [Math.round(x * 100) / 100] *)
Definition twoDecimals (x : num) : num :=
    JsMath.div (JsMath.round (JsNum.mul x (JsNum.ofZ 100))) (JsNum.ofZ 100).

  (** [r1] and [r2] are the two calls of [Math.random()], in order. *)
Definition resolveBattle (territory : Territory.t) (battle : Battle)
      (r1 r2 : RandomDraw) : Outcome BattleResult.t :=
    let defender := Territory.owner territory in
    let defenderArmies := Territory.armies territory in
    let totalAttack := totalAttackOf (attackers battle) in
    let attackerForces := attackerForcesOf (attackers battle) in
    let attackRoll := JsNum.mul (drawNum r1) totalAttack in
    let defenseRoll :=
      JsNum.mul (JsNum.mul (drawNum r2) defenderArmies) oneAndHalf in
    let result winner remainingArmies :=
      BattleResult.mk (Territory.id territory) defender
        (map att_agentId (attackers battle)) winner remainingArmies
        (twoDecimals attackRoll) (twoDecimals defenseRoll) in
    if JsNum.gt attackRoll defenseRoll then
      match Array_sort byForceDesc attackerForces with
      | (strongest, _) :: _ =>
          Return (result (Some strongest)
                    (JsNum.max (JsNum.ofZ 1)
                       (JsNum.floor (JsNum.mul totalAttack sixTenths))))
      | [] => Throw (TypeError "Cannot read properties of undefined")
      end
    else
      Return (result defender
                (JsNum.max (JsNum.ofZ 1)
                   (JsNum.floor (JsNum.mul defenderArmies sevenTenths)))).

  (** "Apply result" of [resolveBattles], for the territory found under
      the key [tid]. *)
Definition applyResult (tid : string) (territory : Territory.t)
      (result : BattleResult.t) (s : State.t) : Outcome unit * State.t :=
    let remaining := BattleResult.remainingArmies result in
    if negb (bool_decide (BattleResult.winner result = Territory.owner territory)) then
      let s1 :=
        match Territory.owner territory with
        | Some o =>
            match sget o (State.agents s) with
            | Some oldOwner =>
                let oldOwner' :=
                  Agent.setArmies
                    (JsNum.sub (Agent.armies oldOwner) (Territory.armies territory))
                    (Agent.setTerritories
                       (List.filter (λ t, negb (bool_decide (t = tid)))
                          (Agent.territories oldOwner)) oldOwner) in
                State.setAgents (sset o oldOwner' (State.agents s)) s
            | None => s
            end
        | None => s
        end in
      match BattleResult.winner result with
      | Some w =>
          match sget w (State.agents s1) with
          | Some newOwner =>
              let newOwner' :=
                Agent.setArmies (JsNum.add (Agent.armies newOwner) remaining)
                  (Agent.setTerritories (Agent.territories newOwner ++ [tid]) newOwner) in
              let territory' :=
                Territory.setArmies remaining
                  (Territory.setOwner (Some w) territory) in
              (Return tt,
               State.setAgents (sset w newOwner' (State.agents s1))
                 (State.setTerritories (sset tid territory' (State.territories s1)) s1))
          | None => (Throw (TypeError "newOwner is undefined"), s1)
          end
      | None => (Throw (TypeError "newOwner is undefined"), s1)
      end
    else
      (Return tt,
       State.setTerritories
         (sset tid (Territory.setArmies remaining territory) (State.territories s)) s).

  (** The second loop of [resolveBattles]; battle number [k] takes the
      draws [2k] and [2k+1]. *)
Fixpoint resolveEach (rnd : nat → RandomDraw) (battles : list (JsVal * Battle))
      (k : nat) (results : list BattleResult.t) (s : State.t)
    : Outcome (list BattleResult.t) * State.t :=
    match battles with
    | [] => (Return results, s)
    | (territoryId, battle) :: rest =>
        match getTerritory territoryId (State.territories s) with
        | None => (Throw (TypeError "territory is undefined"), s)
        | Some (tid, territory) =>
            match resolveBattle territory battle (rnd (2 * k)%nat) (rnd (2 * k + 1)%nat) with
            | Throw e => (Throw e, s)
            | Return result =>
                match applyResult tid territory result s with
                | (Return _, s1) => resolveEach rnd rest (S k) (results ++ [result]) s1
                | (Throw e, s1) => (Throw e, s1)
                end
            end
        end
    end.

Definition resolveBattles (rnd : nat → RandomDraw) (s : State.t)
    : Outcome (list BattleResult.t) * State.t :=
    match resolveEach rnd (groupAttacks (State.revealedMoves s)) 0 [] s with
    | (Return results, s1) => (Return results, State.emit (battlesResolved results) s1)
    | (Throw e, s1) => (Throw e, s1)
    end.

  (** [continent.territories.every(tid => t && t.owner === agentId)] *)
Definition ownsAll (agentId : string) (ts : smap Territory.t)
      (c : Continent.t) : bool :=
    forallb (λ tid,
               match sget tid ts with
               | Some t => bool_decide (Territory.owner t = Some agentId)
               | None => false
               end) (Continent.territories c).

Definition continentBonuses (agentId : string) (ts : smap Territory.t)
      (cs : smap Continent.t) (start : Z) : Z :=
    foldl (λ reinforcements kc,
             if ownsAll agentId ts (snd kc)
             then reinforcements + Continent.bonus (snd kc)
             else reinforcements) start cs.

Definition calculateReinforcements (agentId : string) (s : State.t)
    : Outcome Z * State.t :=
    match sget agentId (State.agents s) with
    | None => (Return 0, s)
    | Some agent =>
        if Agent.eliminated agent then (Return 0, s)
        else
          match State.continents s with
          | None =>
              (Throw (TypeError "Cannot convert undefined or null to object"), s)
          | Some cs =>
              let base := Z.max 3 (Z.of_nat (length (Agent.territories agent)) / 3) in
              let withBonuses := continentBonuses agentId (State.territories s) cs base in
              let resourceBonus := Agent.resources agent / 5 in
              (Return (withBonuses + resourceBonus),
               State.setAgents
                 (sset agentId
                    (Agent.setResources (Agent.resources agent - resourceBonus * 5) agent)
                    (State.agents s)) s)
          end
    end.

  (** [agent.territories.length / totalTerritories >= 0.6] *)
Definition dominates (totalTerritories : nat) (agent : Agent.t) : bool :=
    JsNum.ge
      (JsMath.div (JsNum.ofNat (length (Agent.territories agent)))
                  (JsNum.ofNat totalTerritories))
      sixTenths.

  (** [(a, b) => b.territories.length - a.territories.length] *)
Definition byTerritoriesDesc (a b : Agent.t) : num :=
    JsNum.sub (JsNum.ofNat (length (Agent.territories b)))
              (JsNum.ofNat (length (Agent.territories a))).

Definition declare (type : WinType) (agent : Agent.t) (now : Z) (s : State.t)
    : Outcome (option WinResult) * State.t :=
    (Return (Some (mkWin type (Agent.id agent))),
     setPhase "ended" now (State.setWinner (Some (Agent.id agent)) s)).

Definition checkWinCondition (now : Z) (s : State.t)
    : Outcome (option WinResult) * State.t :=
    let activeAgents := getActiveAgents s in
    match activeAgents with
    | [only] => declare elimination only now s
    | _ =>
        let totalTerritories := OMap.size (State.territories s) in
        match List.find (dominates totalTerritories) activeAgents with
        | Some agent => declare domination agent now s
        | None =>
            if (State.maxTurns s <=? State.turn s)%Z then
              match Array_sort byTerritoriesDesc activeAgents with
              | winner :: _ => declare turns winner now s
              | [] => (Throw (TypeError "Cannot read properties of undefined"), s)
              end
            else (Return None, s)
        end
    end.

Module PublicAgent.
Record t : Type := mk {
      id : string;
      name : string;
      color : string;
      territories : nat;
      armies : num;
      resources : Z;
      eliminated : bool;
      personality : option string
    }.
End PublicAgent.

Module PublicTerritory.
Record t : Type := mk {
      id : string;
      name : string;
      owner : option string;
      armies : num;
      region : string;
      continent : string;
      neighbors : list string
    }.
End PublicTerritory.

Module PublicState.
Record t : Type := mk {
      gameId : string;
      phase : string;
      turn : Z;
      maxTurns : Z;
      agents : list PublicAgent.t;
      territories : list PublicTerritory.t;
      conversations : list Conversation.t;
      winner : option string;
      phaseStartTime : option Z;
      phaseDuration : option Z
    }.
End PublicState.

  (** [this.phaseDuration[this.phase]] *)
Definition durationOf (d : PhaseDuration) (phase : string) : option Z :=
    if bool_decide (phase = "negotiation") then Some (negotiation d)
    else if bool_decide (phase = "commit") then Some (commit d)
    else if bool_decide (phase = "resolve") then Some (resolve d)
    else None.

Definition getPublicState (s : State.t) : PublicState.t :=
    PublicState.mk (State.gameId s) (State.phase s) (State.turn s)
      (State.maxTurns s)
      (map (λ a, PublicAgent.mk (Agent.id a) (Agent.name a) (Agent.color a)
                   (length (Agent.territories a)) (Agent.armies a)
                   (Agent.resources a) (Agent.eliminated a) (Agent.personality a))
           (OMap.values (State.agents s)))
      (map (λ t, PublicTerritory.mk (Territory.id t) (Territory.name t)
                   (Territory.owner t) (Territory.armies t) (Territory.region t)
                   (Territory.continent t) (Territory.neighbors t))
           (OMap.values (State.territories s)))
      (List.filter (λ c, bool_decide (Conversation.type c = "public"))
                   (State.conversations s))
      (State.winner s) (State.phaseStartTime s)
      (durationOf (State.phaseDuration s) (State.phase s)).

Module AgentState.
Record t : Type := mk {
      public : PublicState.t;          (* [...this.getPublicState()] *)
      myTerritories : list string;
      myResources : Z;
      myCommitment : option string;
      revealedMoves : list Revealed.t
    }.
End AgentState.

  (** [this.moves.get(agentId)?.hash || null] *)
Definition commitmentHash (agentId : string) (moves : smap Commitment.t)
    : option string :=
    match sget agentId moves with
    | Some c => if bool_decide (Commitment.hash c = "") then None
                else Some (Commitment.hash c)
    | None => None
    end.

Definition getAgentState (agentId : string) (s : State.t)
    : option AgentState.t :=
    match sget agentId (State.agents s) with
    | None => None
    | Some agent =>
        Some (AgentState.mk (getPublicState s) (Agent.territories agent)
                (Agent.resources agent)
                (commitmentHash agentId (State.moves s))
                (List.filter
                   (λ m, bool_decide (State.phase s = "resolve")
                         || bool_decide (Revealed.agentId m = agentId))
                   (OMap.values (State.revealedMoves s))))
    end.

Definition endTurn (now : Z) (s : State.t) : State.t :=
    State.emit (turnEnd (State.turn s + 1))
      (State.setLastActivity now
         (State.setRevealedMoves []
            (State.setMoves [] (State.setTurn (State.turn s + 1) s)))).

End GameState.

(** ** The records of [ReputationEngine] *)

Module Betrayal.
  (** An entry of [betrayals] ([party] is the victim) or of [betrayedBy]
      ([party] is the betrayer). *)
Record t : Type := mk {
    party : string;
    type : string;
    turn : option Z;          (* [this.currentTurn] *)
    timestamp : Z
  }.
End Betrayal.

Module Action.
Record t : Type := mk {
    type : string;
    target : string;
    context : string;
    timestamp : Z
  }.
End Action.

Module Reputation.
Record t : Type := mk {
    agentId : string;
    name : string;
    trustScore : Z;
    dealsMade : nat;
    dealsKept : nat;
    dealsBroken : nat;
    alliancesHonored : nat;
    alliancesBroken : nat;
    betrayals : list Betrayal.t;
    betrayedBy : list Betrayal.t;
    consistencyScore : Z;
    aggressionScore : Z;
    diplomacyScore : Z;
    history : list Action.t;
    lastUpdated : Z
  }.

Definition setTrustScore (x : Z) (r : t) : t :=
    mk (agentId r) (name r) x (dealsMade r) (dealsKept r) (dealsBroken r)
       (alliancesHonored r) (alliancesBroken r) (betrayals r) (betrayedBy r)
       (consistencyScore r) (aggressionScore r) (diplomacyScore r)
       (history r) (lastUpdated r).
Definition setDeals (made kept broken : nat) (r : t) : t :=
    mk (agentId r) (name r) (trustScore r) made kept broken
       (alliancesHonored r) (alliancesBroken r) (betrayals r) (betrayedBy r)
       (consistencyScore r) (aggressionScore r) (diplomacyScore r)
       (history r) (lastUpdated r).
Definition setAlliances (honored broken : nat) (r : t) : t :=
    mk (agentId r) (name r) (trustScore r) (dealsMade r) (dealsKept r)
       (dealsBroken r) honored broken (betrayals r) (betrayedBy r)
       (consistencyScore r) (aggressionScore r) (diplomacyScore r)
       (history r) (lastUpdated r).
Definition setBetrayals (l : list Betrayal.t) (r : t) : t :=
    mk (agentId r) (name r) (trustScore r) (dealsMade r) (dealsKept r)
       (dealsBroken r) (alliancesHonored r) (alliancesBroken r) l (betrayedBy r)
       (consistencyScore r) (aggressionScore r) (diplomacyScore r)
       (history r) (lastUpdated r).
Definition setBetrayedBy (l : list Betrayal.t) (r : t) : t :=
    mk (agentId r) (name r) (trustScore r) (dealsMade r) (dealsKept r)
       (dealsBroken r) (alliancesHonored r) (alliancesBroken r) (betrayals r) l
       (consistencyScore r) (aggressionScore r) (diplomacyScore r)
       (history r) (lastUpdated r).
Definition setScores (consistency aggression diplomacy : Z) (r : t) : t :=
    mk (agentId r) (name r) (trustScore r) (dealsMade r) (dealsKept r)
       (dealsBroken r) (alliancesHonored r) (alliancesBroken r) (betrayals r)
       (betrayedBy r) consistency aggression diplomacy
       (history r) (lastUpdated r).
Definition setHistory (h : list Action.t) (updated : Z) (r : t) : t :=
    mk (agentId r) (name r) (trustScore r) (dealsMade r) (dealsKept r)
       (dealsBroken r) (alliancesHonored r) (alliancesBroken r) (betrayals r)
       (betrayedBy r) (consistencyScore r) (aggressionScore r)
       (diplomacyScore r) h updated.
End Reputation.

Module Deal.
Inductive status : Type := pending | active | completed | broken | expired.

#[global] Instance status_eq_dec : EqDecision status.
Proof. solve_decision. Defined.

Record t : Type := mk {
    id : string;
    turn : Z;
    phase : string;
    proposer : string;
    acceptor : string;
    terms : string;
    type : string;
    state : status;                 (* the [status] property *)
    createdAt : Z;
    expiresAt : option Z;
    fulfilled : gmap string bool;
    brokenBy : option string;
    brokenAt : option Z;
    breakReason : option string;
    acceptedAt : option Z;
    completedAt : option Z
  }.

Definition setState (st : status) (d : t) : t :=
    mk (id d) (turn d) (phase d) (proposer d) (acceptor d) (terms d) (type d)
       st (createdAt d) (expiresAt d) (fulfilled d) (brokenBy d) (brokenAt d)
       (breakReason d) (acceptedAt d) (completedAt d).
Definition setAccepted (now : Z) (d : t) : t :=
    mk (id d) (turn d) (phase d) (proposer d) (acceptor d) (terms d) (type d)
       (state d) (createdAt d) (expiresAt d) (fulfilled d) (brokenBy d)
       (brokenAt d) (breakReason d) (Some now) (completedAt d).
Definition setCompleted (now : Z) (d : t) : t :=
    mk (id d) (turn d) (phase d) (proposer d) (acceptor d) (terms d) (type d)
       (state d) (createdAt d) (expiresAt d) (fulfilled d) (brokenBy d)
       (brokenAt d) (breakReason d) (acceptedAt d) (Some now).
Definition setFulfilled (f : gmap string bool) (d : t) : t :=
    mk (id d) (turn d) (phase d) (proposer d) (acceptor d) (terms d) (type d)
       (state d) (createdAt d) (expiresAt d) f (brokenBy d)
       (brokenAt d) (breakReason d) (acceptedAt d) (completedAt d).
Definition setBroken (by_ : string) (now : Z) (reason : string) (d : t) : t :=
    mk (id d) (turn d) (phase d) (proposer d) (acceptor d) (terms d) (type d)
       (state d) (createdAt d) (expiresAt d) (fulfilled d) (Some by_)
       (Some now) (Some reason) (acceptedAt d) (completedAt d).
End Deal.

Module Alliance.
Inductive status : Type := active | broken | dissolved.

#[global] Instance status_eq_dec : EqDecision status.
Proof. solve_decision. Defined.

Record t : Type := mk {
    id : string;
    name : string;
    members : list string;          (* a [Set], in insertion order *)
    type : string;
    formedAt : Z;
    expiresAt : option Z;
    state : status;                 (* the [status] property *)
    brokenBy : option string;
    brokenAt : option Z;
    breakReason : option string;
    terms : string
  }.

Definition setMembers (l : list string) (a : t) : t :=
    mk (id a) (name a) l (type a) (formedAt a) (expiresAt a) (state a)
       (brokenBy a) (brokenAt a) (breakReason a) (terms a).
Definition setState (st : status) (a : t) : t :=
    mk (id a) (name a) (members a) (type a) (formedAt a) (expiresAt a) st
       (brokenBy a) (brokenAt a) (breakReason a) (terms a).
Definition setBroken (by_ : string) (now : Z) (reason : string) (a : t) : t :=
    mk (id a) (name a) (members a) (type a) (formedAt a) (expiresAt a)
       (state a) (Some by_) (Some now) (Some reason) (terms a).
End Alliance.

(** The member [Set]. *)
Module MemberSet.
Definition has (x : string) (l : list string) : bool := bool_decide (x ∈ l).
Definition add (l : list string) (x : string) : list string :=
    if has x l then l else l ++ [x].
  (** [new Set(array)] *)
Definition ofArray (l : list string) : list string := foldl add [] l.
Definition delete (x : string) (l : list string) : list string :=
    List.filter (λ y, negb (bool_decide (y = x))) l.
Definition size (l : list string) : nat := length l.
End MemberSet.

(** ** The methods of [ReputationEngine] *)

Module ReputationEngine.

Inductive Event : Type :=
| dealProposed (dealId : string)
| dealAccepted (dealId : string)
| dealCompleted (dealId : string)
| dealPartiallyFulfilled (dealId agentId : string)
| dealBroken (dealId : string)
| betrayalRecorded (betrayer victim type : string)
| allianceFormed (allianceId : string)
| allianceBroken (allianceId : string)
| allianceDissolved (allianceId : string)
| allianceMemberLeft (allianceId agentId : string)
| reputationUpdated (agentId : string).

(** The fields of an engine.  [currentTurn] is read by [recordBetrayal]
    and assigned nowhere in the class. *)
Record t : Type := mk {
  agentReputations : gmap string Reputation.t;
  deals : gmap string Deal.t;
  alliances : gmap string Alliance.t;
  currentTurn : option Z;
  events : list Event
}.

Definition setReputations (m : gmap string Reputation.t) (e : t) : t :=
  mk m (deals e) (alliances e) (currentTurn e) (events e).
Definition setDeals (m : gmap string Deal.t) (e : t) : t :=
  mk (agentReputations e) m (alliances e) (currentTurn e) (events e).
Definition setAlliances (m : gmap string Alliance.t) (e : t) : t :=
  mk (agentReputations e) (deals e) m (currentTurn e) (events e).
Definition emit (ev : Event) (e : t) : t :=
  mk (agentReputations e) (deals e) (alliances e) (currentTurn e)
     (events e ++ [ev]).

(** [new ReputationEngine()] *)
Definition new : t := mk ∅ ∅ ∅ None [].

Definition initializeAgent (agentId name : string) (now : Z) (e : t) : t :=
  setReputations
    (<[agentId := Reputation.mk agentId name 50 0 0 0 0 0 [] [] 50 50 50 [] now]>
       (agentReputations e)) e.

Inductive CountType : Type := made | kept | broken.

(** [Math.round(x)] for a finite [x]. *)
Definition Math_round (x : Q) : Z := Qfloor (x + (1 # 2)).

(** [Math.round((trustScore * 0.3) + (baseTrust * 0.7))] with
    [baseTrust = (dealsKept / totalCompleted) * 100]. *)
Definition blendTrust (trustScore : Z) (dealsKept totalCompleted : nat) : Z :=
  let baseTrust :=
    (inject_Z (Z.of_nat dealsKept) / inject_Z (Z.of_nat totalCompleted)
     * inject_Z 100)%Q in
  Math_round (inject_Z trustScore * (3 # 10) + baseTrust * (7 # 10))%Q.

(** What [updateDealCounts] does to the record it found. *)
Definition countDeal (type : CountType) (rep : Reputation.t) : Reputation.t :=
  let rep1 :=
    match type with
    | made => Reputation.setDeals (S (Reputation.dealsMade rep))
                (Reputation.dealsKept rep) (Reputation.dealsBroken rep) rep
    | kept => Reputation.setDeals (Reputation.dealsMade rep)
                (S (Reputation.dealsKept rep)) (Reputation.dealsBroken rep) rep
    | broken => Reputation.setDeals (Reputation.dealsMade rep)
                (Reputation.dealsKept rep) (S (Reputation.dealsBroken rep)) rep
    end in
  let totalCompleted := (Reputation.dealsKept rep1 + Reputation.dealsBroken rep1)%nat in
  if (0 <? totalCompleted)%nat then
    Reputation.setTrustScore
      (blendTrust (Reputation.trustScore rep1) (Reputation.dealsKept rep1) totalCompleted)
      rep1
  else rep1.

Definition updateDealCounts (agentId : string) (type : CountType) (e : t) : t :=
  match agentReputations e !! agentId with
  | None => e
  | Some rep => setReputations (<[agentId := countDeal type rep]> (agentReputations e)) e
  end.

Inductive AllianceCount : Type := formed | honored | brokenAlliance.

Definition updateAllianceCounts (agentId : string) (type : AllianceCount) (e : t) : t :=
  match agentReputations e !! agentId with
  | None => e
  | Some rep =>
      let rep' :=
        match type with
        | formed => rep
        | honored => Reputation.setAlliances (S (Reputation.alliancesHonored rep))
                       (Reputation.alliancesBroken rep) rep
        | brokenAlliance => Reputation.setAlliances (Reputation.alliancesHonored rep)
                       (S (Reputation.alliancesBroken rep)) rep
        end in
      setReputations (<[agentId := rep']> (agentReputations e)) e
  end.

(** The betrayer is written first, the victim second; when both are the
    same record the second write sees the first. *)
Definition recordBetrayal (betrayerId victimId type : string) (now : Z) (e : t) : t :=
  let e1 :=
    match agentReputations e !! betrayerId with
    | Some betrayer =>
        let betrayer' :=
          Reputation.setTrustScore (Z.max 0 (Reputation.trustScore betrayer - 10))
            (Reputation.setBetrayals
               (Reputation.betrayals betrayer
                  ++ [Betrayal.mk victimId type (currentTurn e) now]) betrayer) in
        setReputations (<[betrayerId := betrayer']> (agentReputations e)) e
    | None => e
    end in
  let e2 :=
    match agentReputations e1 !! victimId with
    | Some victim =>
        let victim' :=
          Reputation.setBetrayedBy
            (Reputation.betrayedBy victim
               ++ [Betrayal.mk betrayerId type (currentTurn e1) now]) victim in
        setReputations (<[victimId := victim']> (agentReputations e1)) e1
    | None => e1
    end in
  emit (betrayalRecorded betrayerId victimId type) e2.

Record DealInput : Type := mkDealInput {
  in_id : option string;
  in_turn : Z;
  in_phase : string;
  in_proposer : string;
  in_acceptor : string;
  in_terms : string;
  in_type : string;
  in_expiresAt : option Z
}.

(** [x || fallback] for an optional string: the empty string is falsy. *)
Definition orElse (x : option string) (fallback : string) : string :=
  match x with
  | Some s => if bool_decide (s = "") then fallback else s
  | None => fallback
  end.

(** [generated] is what [generateId()] would answer. *)
Definition recordDeal (deal : DealInput) (generated : string) (now : Z) (e : t)
  : Deal.t * t :=
  let dealData :=
    Deal.mk (orElse (in_id deal) generated) (in_turn deal) (in_phase deal)
      (in_proposer deal) (in_acceptor deal) (in_terms deal) (in_type deal)
      Deal.pending now (in_expiresAt deal)
      (<[in_acceptor deal := false]> {[in_proposer deal := false]})
      None None None None None in
  let e1 := setDeals (<[Deal.id dealData := dealData]> (deals e)) e in
  let e2 := updateDealCounts (in_proposer deal) made e1 in
  let e3 := updateDealCounts (in_acceptor deal) made e2 in
  (dealData, emit (dealProposed (Deal.id dealData)) e3).

Definition acceptDeal (dealId acceptorId : string) (now : Z) (e : t)
  : Outcome Deal.t * t :=
  match deals e !! dealId with
  | None => (Throw (Error "Deal not found"), e)
  | Some deal =>
      if negb (bool_decide (Deal.acceptor deal = acceptorId)) then
        (Throw (Error "Not authorized to accept"), e)
      else
        let deal' := Deal.setAccepted now (Deal.setState Deal.active deal) in
        (Return deal',
         emit (dealAccepted dealId) (setDeals (<[dealId := deal']> (deals e)) e))
  end.

(** [Object.values(fulfilled).every(v => v === true)] *)
Definition allFulfilled (f : gmap string bool) : bool :=
  forallb (λ kv, snd kv) (map_to_list f).

Definition fulfillDeal (dealId agentId : string) (now : Z) (e : t) : bool * t :=
  match deals e !! dealId with
  | None => (false, e)
  | Some deal =>
      if negb (bool_decide (Deal.state deal = Deal.active)) then (false, e)
      else
        let deal1 := Deal.setFulfilled (<[agentId := true]> (Deal.fulfilled deal)) deal in
        if allFulfilled (Deal.fulfilled deal1) then
          let deal2 := Deal.setCompleted now (Deal.setState Deal.completed deal1) in
          let e1 := setDeals (<[dealId := deal2]> (deals e)) e in
          let e2 := updateDealCounts (Deal.proposer deal2) kept e1 in
          let e3 := updateDealCounts (Deal.acceptor deal2) kept e2 in
          (true, emit (dealCompleted dealId) e3)
        else
          (true,
           emit (dealPartiallyFulfilled dealId agentId)
             (setDeals (<[dealId := deal1]> (deals e)) e))
  end.

(** [None] is the answer [false]; otherwise the deal is returned. *)
Definition breakDeal (dealId agentId reason : string) (now : Z) (e : t)
  : option Deal.t * t :=
  match deals e !! dealId with
  | None => (None, e)
  | Some deal =>
      if negb (bool_decide (Deal.state deal = Deal.active))
         && negb (bool_decide (Deal.state deal = Deal.pending))
      then (None, e)
      else
        let deal' := Deal.setBroken agentId now reason (Deal.setState Deal.broken deal) in
        let e1 := setDeals (<[dealId := deal']> (deals e)) e in
        let otherParty :=
          if bool_decide (Deal.proposer deal' = agentId)
          then Deal.acceptor deal' else Deal.proposer deal' in
        let e2 := recordBetrayal agentId otherParty (Deal.type deal') now e1 in
        let e3 := updateDealCounts agentId broken e2 in
        let e4 := updateDealCounts otherParty kept e3 in
        (Some deal', emit (dealBroken dealId) e4)
  end.

Record AllianceInput : Type := mkAllianceInput {
  al_id : option string;
  al_name : option string;
  al_members : list string;
  al_type : option string;
  al_expiresAt : option Z;
  al_terms : option string
}.

Definition formAlliance (alliance : AllianceInput) (generated : string) (now : Z)
    (e : t) : Alliance.t * t :=
  let allianceData :=
    Alliance.mk (orElse (al_id alliance) generated)
      (orElse (al_name alliance) ("Alliance " +:+ pretty (size (alliances e) + 1)%nat))
      (MemberSet.ofArray (al_members alliance))
      (orElse (al_type alliance) "defensive")
      now (al_expiresAt alliance) Alliance.active None None None
      (orElse (al_terms alliance) "{}") in
  let e1 := setAlliances (<[Alliance.id allianceData := allianceData]> (alliances e)) e in
  let e2 := foldl (λ acc memberId, updateAllianceCounts memberId formed acc)
                  e1 (al_members alliance) in
  (allianceData, emit (allianceFormed (Alliance.id allianceData)) e2).

(** [None] is the answer [false]. *)
Definition breakAlliance (allianceId agentId reason : string) (now : Z) (e : t)
  : option Alliance.t * t :=
  match alliances e !! allianceId with
  | None => (None, e)
  | Some alliance =>
      if negb (MemberSet.has agentId (Alliance.members alliance)) then (None, e)
      else
        let alliance' :=
          Alliance.setBroken agentId now reason
            (Alliance.setState Alliance.broken alliance) in
        let e1 := setAlliances (<[allianceId := alliance']> (alliances e)) e in
        let e2 :=
          foldl (λ acc memberId,
                   if negb (bool_decide (memberId = agentId)) then
                     updateAllianceCounts memberId honored
                       (recordBetrayal agentId memberId "alliance" now acc)
                   else acc) e1 (Alliance.members alliance') in
        let e3 := updateAllianceCounts agentId brokenAlliance e2 in
        (Some alliance', emit (allianceBroken allianceId) e3)
  end.

Definition leaveAlliance (allianceId agentId : string) (e : t) : bool * t :=
  match alliances e !! allianceId with
  | None => (false, e)
  | Some alliance =>
      let alliance1 :=
        Alliance.setMembers (MemberSet.delete agentId (Alliance.members alliance))
          alliance in
      if (MemberSet.size (Alliance.members alliance1) <? 2)%nat then
        let alliance2 := Alliance.setState Alliance.dissolved alliance1 in
        (true,
         emit (allianceDissolved allianceId)
           (setAlliances (<[allianceId := alliance2]> (alliances e)) e))
      else
        (true,
         emit (allianceMemberLeft allianceId agentId)
           (setAlliances (<[allianceId := alliance1]> (alliances e)) e))
  end.

Definition isAlly (agentId1 agentId2 : string) (e : t) : bool :=
  existsb (λ kv,
             bool_decide (Alliance.state (snd kv) = Alliance.active)
             && MemberSet.has agentId1 (Alliance.members (snd kv))
             && MemberSet.has agentId2 (Alliance.members (snd kv)))
          (map_to_list (alliances e)).

Record ActionInput : Type := mkAction {
  act_agentId : string;
  act_type : string;
  act_target : string;
  act_context : string
}.

(** A write through the [rep] reference that [analyzeAction] holds: the
    record under [agentId], whatever was done to it in between. *)
Definition onRecord (agentId : string) (f : Reputation.t → Reputation.t) (e : t) : t :=
  setReputations (alter f agentId (agentReputations e)) e.

Definition bumpAggression (r : Reputation.t) : Reputation.t :=
  Reputation.setScores (Reputation.consistencyScore r)
    (Z.min 100 (Reputation.aggressionScore r + 2)) (Reputation.diplomacyScore r) r.

Definition bumpDiplomacy (by_ : Z) (r : Reputation.t) : Reputation.t :=
  Reputation.setScores (Reputation.consistencyScore r)
    (Reputation.aggressionScore r) (Z.min 100 (Reputation.diplomacyScore r + by_)) r.

Definition chargeBreak (r : Reputation.t) : Reputation.t :=
  Reputation.setTrustScore (Z.max 0 (Reputation.trustScore r - 15)) r.

Definition creditKeep (r : Reputation.t) : Reputation.t :=
  Reputation.setScores (Z.min 100 (Reputation.consistencyScore r + 2))
    (Reputation.aggressionScore r) (Reputation.diplomacyScore r)
    (Reputation.setTrustScore (Z.min 100 (Reputation.trustScore r + 5)) r).

(** [history.push(...)], the trim to the last 100 entries, [lastUpdated]. *)
Definition logAction (action : ActionInput) (now : Z) (r : Reputation.t)
  : Reputation.t :=
  let h := Reputation.history r
           ++ [Action.mk (act_type action) (act_target action)
                 (act_context action) now] in
  let h' := if (100 <? length h)%nat then drop (length h - 100) h else h in
  Reputation.setHistory h' now r.

Definition analyzeAction (action : ActionInput) (now : Z) (e : t) : t :=
  let agentId := act_agentId action in
  match agentReputations e !! agentId with
  | None => e
  | Some _ =>
      let e1 :=
        if bool_decide (act_type action = "attack") then
          let e' :=
            if isAlly agentId (act_target action) e
            then recordBetrayal agentId (act_target action) "attack-ally" now e
            else e in
          onRecord agentId bumpAggression e'
        else if bool_decide (act_type action = "negotiate") then
          onRecord agentId (bumpDiplomacy 1) e
        else if bool_decide (act_type action = "propose-deal") then
          onRecord agentId (bumpDiplomacy 2) e
        else if bool_decide (act_type action = "break-deal") then
          onRecord agentId chargeBreak e
        else if bool_decide (act_type action = "keep-deal") then
          onRecord agentId creditKeep e
        else e in
      emit (reputationUpdated agentId) (onRecord agentId (logAction action now) e1)
  end.

End ReputationEngine.

(** ** A small match, for examples

    Four territories in a ring, each its own continent without bonus,
    and three agents. *)

Module Demo.

Definition territory (id owner_ : string) (armies : Z) (neighbors : list string)
  : string * Territory.t :=
  (id, Territory.mk id id "R" (if bool_decide (owner_ = "") then None else Some owner_)
         (JsNum.ofZ armies) 1 neighbors id).

Definition agent (id : string) (territories : list string) (armies resources : Z)
  : string * Agent.t :=
  (id, Agent.mk id id "#fff" None territories (JsNum.ofZ armies) resources false 0).

Definition continents : smap Continent.t :=
  [("t1", Continent.mk "One" 0 ["t1"]); ("t2", Continent.mk "Two" 0 ["t2"]);
   ("t3", Continent.mk "Three" 0 ["t3"]); ("t4", Continent.mk "Four" 0 ["t4"])].

Definition durations : PhaseDuration := mkDuration 15000 10000 8000.

(** The match before distribution. *)
Definition lobby : State.t :=
  State.mk "demo" "lobby" 1 10
    [agent "a" [] 0 0; agent "b" [] 0 0; agent "c" [] 0 0]
    [territory "t1" "" 0 ["t2"; "t4"]; territory "t2" "" 0 ["t1"; "t3"];
     territory "t3" "" 0 ["t2"; "t4"]; territory "t4" "" 0 ["t3"; "t1"]]
    (Some continents) [] [] [] [] 0 0 None None durations [].

(** A position in mid-game. *)
Definition midGame (phase : string) : State.t :=
  State.mk "demo" phase 3 10
    [agent "a" ["t1"; "t4"] 13 12; agent "b" ["t2"] 1 3; agent "c" ["t3"] 3 0]
    [territory "t1" "a" 10 ["t2"; "t4"]; territory "t2" "b" 1 ["t1"; "t3"];
     territory "t3" "c" 3 ["t2"; "t4"]; territory "t4" "a" 3 ["t3"; "t1"]]
    (Some continents) [] [] [] [] 0 0 None (Some 0) durations [].

Definition attack (from to : string) (armies : Z) : Move.t :=
  Move.mk (JsString "attack") (JsString from) (JsString to)
          (JsNumber (JsNum.ofZ armies)).

Definition defend : Move.t :=
  Move.mk (JsString "defend") JsUndefined JsUndefined JsUndefined.

(** A defend move that carries two and a half armies. *)
Definition defendFractional : Move.t :=
  Move.mk (JsString "defend") JsUndefined JsUndefined
          (JsNumber (JsNum.Fin (5 # 2))).

Definition sha (m : Move.t) : string := "hash".

Definition commitmentOf (agentId : string) (m : Move.t) : string * Commitment.t :=
  (agentId, Commitment.mk agentId m "sig" 0 "hash").

Definition revealedOf (agentId : string) (m : Move.t) : string * Revealed.t :=
  (agentId, Revealed.mk (snd (commitmentOf agentId m)) 0).

(** A draw close to one and a draw of zero. *)
Definition high : RandomDraw := mkDraw 99 0.
Definition low : RandomDraw := mkDraw 0 0.

End Demo.

(** ** The specification's reading of [validateMove]

    The acceptance condition in the words of the specification: the type
    is one of the five kinds; attack and move need [from] and [to] to be
    existing territory ids; [armies], if present, is a positive
    integer. *)

Module SpecWords.

Definition isPositiveInteger (v : JsVal) : bool :=
  match v with
  | JsNumber (JsNum.Fin q) =>
      Qeq_bool (inject_Z (Qfloor q)) q && JsNum.Qltb 0 q
  | _ => false
  end.

Definition present (v : JsVal) : bool :=
  match v with JsUndefined => false | _ => true end.

Definition acceptsMove (ts : smap Territory.t) (move : MoveArg) : bool :=
  match move with
  | NotAnObject => false
  | MoveObject m =>
      GameState.isMoveKind (Move.type m)
      && (if GameState.isString "attack" (Move.type m)
             || GameState.isString "move" (Move.type m)
          then GameState.hasTerritory (Move.from m) ts
               && GameState.hasTerritory (Move.to m) ts
          else true)
      && (if present (Move.armies m) then isPositiveInteger (Move.armies m)
          else true)
  end.

End SpecWords.

(** A ledger for examples: two agents, an alliance between them, and a
    pending deal. *)
Module DemoLedger.

Definition pact : Alliance.t :=
  Alliance.mk "al1" "Pact" ["a"; "b"] "defensive" 0 None Alliance.active
    None None None "{}".

Definition deal : Deal.t :=
  Deal.mk "d1" 1 "negotiation" "a" "b" "peace" "non-aggression" Deal.pending 0
    None (<["b" := false]> {["a" := false]}) None None None None None.

Definition ledger : ReputationEngine.t :=
  ReputationEngine.mk
    (<["b" := Reputation.mk "b" "B" 50 1 0 0 0 0 [] [] 50 50 50 [] 0]>
       {["a" := Reputation.mk "a" "A" 50 1 0 0 0 0 [] [] 50 50 50 [] 0]})
    {["d1" := deal]} {["al1" := pact]} None [].

End DemoLedger.

(** ** Vocabulary for the statements *)



Module DemoNine.

Definition ids : list string :=
  ["n1"; "n2"; "n3"; "n4"; "n5"; "n6"; "n7"; "n8"; "n9"].

(** Agent [a] holds nine of the ten territories of the one continent and
    has twelve resources. *)
Definition state : State.t :=
  State.mk "nine" "resolve" 2 10
    [Demo.agent "a" ids 27 12; Demo.agent "b" ["n10"] 3 4]
    (map (λ i, Demo.territory i "a" 3 []) ids ++ [Demo.territory "n10" "b" 3 []])
    (Some [("all", Continent.mk "All" 5 (ids ++ ["n10"]))])
    [] [] [] [] 0 0 None (Some 0) Demo.durations [].

End DemoNine.

(** The revealed moves that are [agentId]'s own. *)
Definition ownRevealed (agentId : string) (revealed : smap Revealed.t)
  : list Revealed.t :=
  List.filter (λ m, bool_decide (Revealed.agentId m = agentId))
              (OMap.values revealed).

(** [s2] is [s1] except for what other agents have committed: the
    commitment map and the reveal map may differ, but not in what they
    hold for [agentId]. *)
Definition differOnlyInOthersCommitments (agentId : string) (s1 s2 : State.t)
  : Prop :=
  ∃ moves2 revealed2,
    s2 = State.setRevealedMoves revealed2 (State.setMoves moves2 s1)
    ∧ sget agentId moves2 = sget agentId (State.moves s1)
    ∧ ownRevealed agentId revealed2 = ownRevealed agentId (State.revealedMoves s1).


(** A position where one agent is out of the game, yet holds three of the
    four territories, and two others are still playing. *)
Module DemoEliminated.

Definition out : string * Agent.t :=
  ("a", Agent.mk "a" "a" "#fff" None ["t1"; "t2"; "t3"] (JsNum.ofZ 9) 0 true 0).

Definition state : State.t :=
  State.mk "demo" "resolve" 3 10
    [out; Demo.agent "b" ["t4"] 3 0; Demo.agent "c" [] 0 0]
    [Demo.territory "t1" "a" 3 []; Demo.territory "t2" "a" 3 [];
     Demo.territory "t3" "a" 3 []; Demo.territory "t4" "b" 3 []]
    (Some Demo.continents) [] [] [] [] 0 0 None (Some 0) Demo.durations [].


End DemoEliminated.

(** ** Histories of a ledger

    A call of one of the methods that write to the ledger, and the ledger
    after a sequence of such calls. *)

Inductive Call : Type :=
| callInitializeAgent (agentId name : string) (now : Z)
| callRecordDeal (deal : ReputationEngine.DealInput) (generated : string) (now : Z)
| callAcceptDeal (dealId acceptorId : string) (now : Z)
| callFulfillDeal (dealId agentId : string) (now : Z)
| callBreakDeal (dealId agentId reason : string) (now : Z)
| callRecordBetrayal (betrayerId victimId type : string) (now : Z)
| callFormAlliance (alliance : ReputationEngine.AllianceInput)
    (generated : string) (now : Z)
| callBreakAlliance (allianceId agentId reason : string) (now : Z)
| callLeaveAlliance (allianceId agentId : string)
| callAnalyzeAction (action : ReputationEngine.ActionInput) (now : Z)
| callUpdateDealCounts (agentId : string) (type : ReputationEngine.CountType)
| callUpdateAllianceCounts (agentId : string) (type : ReputationEngine.AllianceCount).

Definition perform (c : Call) (e : ReputationEngine.t) : ReputationEngine.t :=
  match c with
  | callInitializeAgent agentId name now =>
      ReputationEngine.initializeAgent agentId name now e
  | callRecordDeal deal generated now =>
      snd (ReputationEngine.recordDeal deal generated now e)
  | callAcceptDeal dealId acceptorId now =>
      snd (ReputationEngine.acceptDeal dealId acceptorId now e)
  | callFulfillDeal dealId agentId now =>
      snd (ReputationEngine.fulfillDeal dealId agentId now e)
  | callBreakDeal dealId agentId reason now =>
      snd (ReputationEngine.breakDeal dealId agentId reason now e)
  | callRecordBetrayal betrayerId victimId type now =>
      ReputationEngine.recordBetrayal betrayerId victimId type now e
  | callFormAlliance alliance generated now =>
      snd (ReputationEngine.formAlliance alliance generated now e)
  | callBreakAlliance allianceId agentId reason now =>
      snd (ReputationEngine.breakAlliance allianceId agentId reason now e)
  | callLeaveAlliance allianceId agentId =>
      snd (ReputationEngine.leaveAlliance allianceId agentId e)
  | callAnalyzeAction action now =>
      ReputationEngine.analyzeAction action now e
  | callUpdateDealCounts agentId type =>
      ReputationEngine.updateDealCounts agentId type e
  | callUpdateAllianceCounts agentId type =>
      ReputationEngine.updateAllianceCounts agentId type e
  end.

Definition run (calls : list Call) (e : ReputationEngine.t) : ReputationEngine.t :=
  foldl (λ acc c, perform c acc) e calls.

(** Every trust score of the ledger is within [0, 100]. *)
Definition trustInRange (e : ReputationEngine.t) : Prop :=
  map_Forall (λ _ rep, (0 ≤ Reputation.trustScore rep ≤ 100)%Z)
             (ReputationEngine.agentReputations e).

Module DemoHistory.

Definition dealAB : ReputationEngine.DealInput :=
  ReputationEngine.mkDealInput (Some "d1") 1 "negotiation" "a" "b" "peace"
    "non-aggression" None.

(** Two agents make a deal, it is accepted, [a] breaks it, and [a] is
    then charged for three more explicit breaks. *)
Definition calls : list Call :=
  [callInitializeAgent "a" "A" 0; callInitializeAgent "b" "B" 0;
   callRecordDeal dealAB "gen" 1; callAcceptDeal "d1" "b" 2;
   callBreakDeal "d1" "a" "greed" 3;
   callAnalyzeAction (ReputationEngine.mkAction "a" "break-deal" "b" "") 4;
   callAnalyzeAction (ReputationEngine.mkAction "a" "break-deal" "b" "") 5;
   callAnalyzeAction (ReputationEngine.mkAction "a" "break-deal" "b" "") 6].

(** The first five of them, and then [b] accepting the broken deal. *)
Definition broken : ReputationEngine.t :=
  run (take 5 calls) ReputationEngine.new.

End DemoHistory.

(** ** The partition of the map *)

(** The ids in the territory lists of all agents, agent after agent. *)
Definition ownedLists (s : State.t) : list string :=
  concat (map Agent.territories (OMap.values (State.agents s))).

(** The territories without an owner. *)
Definition unowned (s : State.t) : list string :=
  OMap.keys
    (List.filter (λ kt, bool_decide (Territory.owner (snd kt) = None))
       (State.territories s)).

(** Every territory is unowned or owned by an agent of the match, and
    the territory lists of the agents say the same as the owner fields:
    a territory is in the list of an agent exactly when that agent is its
    owner, and no list repeats a territory.  (The first two fields say
    that the two [Map]s are maps: no key twice.) *)
Record partitioned (s : State.t) : Prop := mkPartitioned {
  territory_ids_unique : NoDup (OMap.keys (State.territories s));
  agent_ids_unique : NoDup (OMap.keys (State.agents s));
  owner_is_live :
    ∀ tid t o,
      sget tid (State.territories s) = Some t → Territory.owner t = Some o →
      is_Some (sget o (State.agents s));
  lists_match_owners :
    ∀ aid a tid,
      sget aid (State.agents s) = Some a →
      (tid ∈ Agent.territories a ↔
       ∃ t, sget tid (State.territories s) = Some t ∧ Territory.owner t = Some aid);
  lists_without_repeats :
    ∀ aid a, sget aid (State.agents s) = Some a → NoDup (Agent.territories a)
}.

(** A match in the lobby, as [initializeMap] and [addAgent] leave it:
    at least one agent, and no agent holds anything yet. *)
Record readyToDistribute (s : State.t) : Prop := mkReady {
  ready_territory_ids : NoDup (OMap.keys (State.territories s));
  ready_agent_ids : NoDup (OMap.keys (State.agents s));
  ready_some_agent : State.agents s ≠ [];
  ready_nothing_held :
    ∀ aid a, sget aid (State.agents s) = Some a → Agent.territories a = []
}.

(** ** The revealed attacks *)

Definition isAttackOn (target : JsVal) (entry : string * Revealed.t) : bool :=
  GameState.isString "attack" (Move.type (Revealed.move (snd entry)))
  && sameValueZero (Move.to (Revealed.move (snd entry))) target.

Definition attackerOf (entry : string * Revealed.t) : GameState.Attacker :=
  GameState.mkAttacker (fst entry) (Move.from (Revealed.move (snd entry)))
    (GameState.orOne (Move.armies (Revealed.move (snd entry)))).

(** The attacks revealed against [target], in the order of the reveal. *)
Definition attacksOn (target : JsVal) (revealed : smap Revealed.t)
  : list GameState.Attacker :=
  map attackerOf (List.filter (isAttackOn target) revealed).

(** What [commitMove] guarantees about the reveal set by the time
    [resolveBattles] runs: no agent has two entries, every revealed move
    passed [validateMove], and every attacker is still an agent of the
    match. *)
Record revealedWellFormed (s : State.t) : Prop := mkRevealedWf {
  revealed_ids_unique : NoDup (OMap.keys (State.revealedMoves s));
  revealed_valid :
    ∀ entry, entry ∈ State.revealedMoves s →
      GameState.validateMove (State.territories s)
        (MoveObject (Revealed.move (snd entry))) = true;
  revealed_attackers_live :
    ∀ entry, entry ∈ State.revealedMoves s →
      GameState.isString "attack" (Move.type (Revealed.move (snd entry))) = true →
      is_Some (sget (fst entry) (State.agents s))
}.

(** A territory handed back to neutral by [removeAgent]. *)
Definition neutral (t : Territory.t) : Territory.t :=
  Territory.setArmies (JsNum.ofZ 0) (Territory.setOwner None t).

(** No two keys of the local [battles] map are the same value. *)
Fixpoint distinctKeys {V : Type} (m : list (JsVal * V)) : Prop :=
  match m with
  | [] => True
  | (k, _) :: rest =>
      (∀ k', k' ∈ OMap.keys rest → sameValueZero k k' = false)
      ∧ distinctKeys rest
  end.

(** The army counts [validateMove] lets an attack carry, once
    [armies || 1] has been applied: a finite number from 1 up, or
    [Infinity]. *)
Definition atLeastOne (n : num) : Prop :=
  match n with
  | JsNum.Fin q => (1 <= q)%Q
  | JsNum.PosInf => True
  | _ => False
  end.



(** What a battle leaves of a territory. *)
Definition afterBattle (result : BattleResult.t) (territory : Territory.t)
  : Territory.t :=
  Territory.setArmies (BattleResult.remainingArmies result)
    (Territory.setOwner (BattleResult.winner result) territory).

Module DemoBattle.

(** [a] attacks [t2] (held by [b] with one army) with ten armies; [c]
    defends. *)
Definition state : State.t :=
  State.setRevealedMoves
    [Demo.revealedOf "a" (Demo.attack "t1" "t2" 10);
     Demo.revealedOf "c" Demo.defend]
    (Demo.midGame "resolve").

(** A random source whose first draw is high and whose second is zero:
    the attack on the first contested territory succeeds. *)
Definition attackerLucky (n : nat) : RandomDraw :=
  match n with O => Demo.high | _ => Demo.low end.

(** The reverse: the defender holds. *)
Definition defenderLucky (n : nat) : RandomDraw :=
  match n with O => Demo.low | _ => Demo.high end.

End DemoBattle.

(** The state of [distributeTerritories] in the middle of its [forEach],
    when the territories [done] have been handed out: every one of them
    has an owner who is an agent, and the lists of the agents hold
    exactly the territories handed out to them. *)
Record handedOut (done : list string) (s : State.t) : Prop := mkHandedOut {
  handed_lists :
    ∀ aid a, sget aid (State.agents s) = Some a →
      NoDup (Agent.territories a)
      ∧ ∀ tid, tid ∈ Agent.territories a ↔
               tid ∈ done
               ∧ ∃ t, sget tid (State.territories s) = Some t
                      ∧ Territory.owner t = Some aid;
  handed_owners :
    ∀ tid, tid ∈ done →
      ∃ t o, sget tid (State.territories s) = Some t
             ∧ Territory.owner t = Some o
             ∧ o ∈ OMap.keys (State.agents s)
}.

Module DemoTwice.

(** The lobby after its territories have been dealt, and the same match
    after a second deal. *)
Definition dealt : State.t :=
  snd (GameState.distributeTerritories (λ _, Demo.low) Demo.lobby).

Definition dealtAgain : State.t :=
  snd (GameState.distributeTerritories (λ _, Demo.low) dealt).

End DemoTwice.

Module DemoGhost.

(** An attack on [t3] committed under an id that never joined the match,
    revealed and resolved with the attacker's sample high. *)
Definition committed : State.t :=
  snd (GameState.commitMove Demo.sha "ghost"
         (MoveObject (Demo.attack "t2" "t3" 100)) "sig" 0
         (GameState.setPhase "commit" 0 DemoTwice.dealt)).

Definition revealed : State.t :=
  snd (GameState.revealMoves 0 (GameState.setPhase "resolve" 0 committed)).

Definition resolved : Outcome (list BattleResult.t) * State.t :=
  GameState.resolveBattles DemoBattle.attackerLucky revealed.

End DemoGhost.

(** * The rest of the engine

    What follows covers the methods of [GameState.js] and
    [ReputationEngine.js] that the properties above did not need, and
    the methods of [PhaseManager.js] that work on the state of the match
    without timers. *)

From Stdlib Require Import Qminmax Sorted.

(** ** More of [GameState]: construction, the map, conversations,
    serialization *)

Module GameStateMore.

Definition setContinents (cs : option (smap Continent.t)) (s : State.t) : State.t :=
  State.mk (State.gameId s) (State.phase s) (State.turn s) (State.maxTurns s)
    (State.agents s) (State.territories s) cs (State.conversations s)
    (State.moves s) (State.revealedMoves s) (State.history s)
    (State.createdAt s) (State.lastActivity s) (State.winner s)
    (State.phaseStartTime s) (State.phaseDuration s) (State.events s).

Definition setConversations (l : list Conversation.t) (s : State.t) : State.t :=
  State.mk (State.gameId s) (State.phase s) (State.turn s) (State.maxTurns s)
    (State.agents s) (State.territories s) (State.continents s) l
    (State.moves s) (State.revealedMoves s) (State.history s)
    (State.createdAt s) (State.lastActivity s) (State.winner s)
    (State.phaseStartTime s) (State.phaseDuration s) (State.events s).

Definition defaultDurations : PhaseDuration := mkDuration 15000 10000 8000.

(** [new GameState(gameId)].  The constructor reads the clock twice, for
    [createdAt] and for [lastActivity]. *)
Definition new (gameId : string) (createdAt lastActivity : Z) : State.t :=
  State.mk gameId "lobby" 1 10 [] [] None [] [] [] [] createdAt lastActivity
    None None defaultDurations [].

(** An entry of the [territories] array of a map definition. *)
Record TerritoryDef : Type := mkTerritoryDef {
  def_id : string;
  def_name : string;
  def_region : string;
  def_continent : string;
  def_neighbors : list string;
  def_resources : option Z
}.

Record MapDef : Type := mkMapDef {
  map_territories : list TerritoryDef;
  map_continents : smap Continent.t
}.

Definition classicTerritories : list TerritoryDef :=
  [mkTerritoryDef "na1" "Alaska" "NA" "na"
     ["na2"; "na7"; "as1"] (Some 1);
   mkTerritoryDef "na2" "Alberta" "NA" "na"
     ["na1"; "na3"; "na7"; "na8"] (Some 1);
   mkTerritoryDef "na3" "Central America" "NA" "na"
     ["na2"; "na4"; "sa1"] (Some 1);
   mkTerritoryDef "na4" "Eastern US" "NA" "na"
     ["na3"; "na8"; "na9"] (Some 2);
   mkTerritoryDef "na5" "Greenland" "NA" "na"
     ["na6"; "na7"; "na8"; "eu1"] (Some 1);
   mkTerritoryDef "na6" "Northwest Territory" "NA" "na"
     ["na1"; "na2"; "na5"; "na7"] (Some 1);
   mkTerritoryDef "na7" "Ontario" "NA" "na"
     ["na1"; "na2"; "na4"; "na6"; "na8"; "na5"] (Some 2);
   mkTerritoryDef "na8" "Quebec" "NA" "na"
     ["na4"; "na7"; "na5"] (Some 1);
   mkTerritoryDef "na9" "Western US" "NA" "na"
     ["na2"; "na3"; "na4"; "na7"] (Some 2);
   mkTerritoryDef "sa1" "Venezuela" "SA" "sa"
     ["na3"; "sa2"; "sa3"] (Some 1);
   mkTerritoryDef "sa2" "Peru" "SA" "sa"
     ["sa1"; "sa3"; "sa4"] (Some 1);
   mkTerritoryDef "sa3" "Brazil" "SA" "sa"
     ["sa1"; "sa2"; "sa4"; "af4"] (Some 2);
   mkTerritoryDef "sa4" "Argentina" "SA" "sa"
     ["sa2"; "sa3"] (Some 1);
   mkTerritoryDef "eu1" "Iceland" "EU" "eu"
     ["na5"; "eu2"; "eu3"] (Some 1);
   mkTerritoryDef "eu2" "Scandinavia" "EU" "eu"
     ["eu1"; "eu3"; "eu4"; "eu5"] (Some 1);
   mkTerritoryDef "eu3" "Great Britain" "EU" "eu"
     ["eu1"; "eu2"; "eu6"; "eu7"] (Some 1);
   mkTerritoryDef "eu4" "Northern Europe" "EU" "eu"
     ["eu2"; "eu5"; "eu6"; "eu7"; "eu8"] (Some 2);
   mkTerritoryDef "eu5" "Ukraine" "EU" "eu"
     ["eu2"; "eu4"; "eu8"; "as3"; "as4"; "as5"] (Some 3);
   mkTerritoryDef "eu6" "Western Europe" "EU" "eu"
     ["eu3"; "eu4"; "eu7"; "af2"] (Some 2);
   mkTerritoryDef "eu7" "Southern Europe" "EU" "eu"
     ["eu3"; "eu4"; "eu6"; "eu8"; "af2"; "af3"] (Some 2);
   mkTerritoryDef "eu8" "Middle East" "EU" "eu"
     ["eu4"; "eu5"; "eu7"; "af3"; "as4"; "as6"] (Some 3);
   mkTerritoryDef "af1" "Egypt" "AF" "af"
     ["eu7"; "eu8"; "af2"; "af3"; "af5"] (Some 2);
   mkTerritoryDef "af2" "North Africa" "AF" "af"
     ["eu6"; "eu7"; "af1"; "af3"; "af4"] (Some 2);
   mkTerritoryDef "af3" "East Africa" "AF" "af"
     ["eu7"; "eu8"; "af1"; "af2"; "af4"; "af5"; "af6"] (Some 1);
   mkTerritoryDef "af4" "Congo" "AF" "af"
     ["sa3"; "af2"; "af3"; "af6"] (Some 1);
   mkTerritoryDef "af5" "Madagascar" "AF" "af"
     ["af1"; "af3"] (Some 1);
   mkTerritoryDef "af6" "South Africa" "AF" "af"
     ["af3"; "af4"] (Some 2);
   mkTerritoryDef "as1" "Siberia" "AS" "as"
     ["na1"; "as2"; "as3"; "as5"; "as9"] (Some 2);
   mkTerritoryDef "as2" "Yakutsk" "AS" "as"
     ["as1"; "as3"; "as9"] (Some 1);
   mkTerritoryDef "as3" "Kamchatka" "AS" "as"
     ["as1"; "as2"; "as5"; "as9"] (Some 1);
   mkTerritoryDef "as4" "Ural" "AS" "as"
     ["eu5"; "as5"; "as6"; "as8"] (Some 1);
   mkTerritoryDef "as5" "Irkutsk" "AS" "as"
     ["as1"; "as3"; "as6"; "as9"] (Some 1);
   mkTerritoryDef "as6" "Mongolia" "AS" "as"
     ["as4"; "as5"; "as7"; "as9"] (Some 1);
   mkTerritoryDef "as7" "Japan" "AS" "as"
     ["as6"; "as9"] (Some 2);
   mkTerritoryDef "as8" "Afghanistan" "AS" "as"
     ["eu5"; "as4"; "as6"; "as10"; "eu8"] (Some 1);
   mkTerritoryDef "as9" "China" "AS" "as"
     ["as1"; "as5"; "as6"; "as7"; "as8"; "as10"; "as11"] (Some 3);
   mkTerritoryDef "as10" "India" "AS" "as"
     ["as8"; "as9"; "as11"; "eu8"] (Some 2);
   mkTerritoryDef "as11" "Southeast Asia" "AS" "as"
     ["as9"; "as10"; "au1"] (Some 1);
   mkTerritoryDef "au1" "Indonesia" "AU" "au"
     ["as11"; "au2"; "au3"] (Some 1);
   mkTerritoryDef "au2" "New Guinea" "AU" "au"
     ["au1"; "au3"] (Some 1);
   mkTerritoryDef "au3" "Eastern Australia" "AU" "au"
     ["au1"; "au2"; "au4"] (Some 2);
   mkTerritoryDef "au4" "Western Australia" "AU" "au"
     ["au3"] (Some 1)].

Definition classicContinents : smap Continent.t :=
  [("na", Continent.mk "North America" 5
      ["na1"; "na2"; "na3"; "na4"; "na5"; "na6"; "na7"; "na8"; "na9"]);
   ("sa", Continent.mk "South America" 2
      ["sa1"; "sa2"; "sa3"; "sa4"]);
   ("eu", Continent.mk "Europe" 5
      ["eu1"; "eu2"; "eu3"; "eu4"; "eu5"; "eu6"; "eu7"; "eu8"]);
   ("af", Continent.mk "Africa" 3
      ["af1"; "af2"; "af3"; "af4"; "af5"; "af6"]);
   ("as", Continent.mk "Asia" 7
      ["as1"; "as2"; "as3"; "as4"; "as5"; "as6"; "as7"; "as8"; "as9"; "as10"; "as11"]);
   ("au", Continent.mk "Australia" 2
      ["au1"; "au2"; "au3"; "au4"])].

(** [getMapDefinitions()]: an object with the one property [classic]. *)
Definition getMapDefinitions : smap MapDef :=
  [("classic", mkMapDef classicTerritories classicContinents)].

(** [t.resources || 1] *)
Definition resourcesOrOne (r : option Z) : Z :=
  match r with
  | Some n => if bool_decide (n = 0) then 1 else n
  | None => 1
  end.

Definition placeTerritory (ts : smap Territory.t) (t : TerritoryDef)
  : smap Territory.t :=
  sset (def_id t)
    (Territory.mk (def_id t) (def_name t) (def_region t) None (JsNum.ofZ 0)
       (resourcesOrOne (def_resources t)) (def_neighbors t) (def_continent t))
    ts.

(** [initializeMap(mapType)].  For any other name than [classic] the
    lookup [maps[mapType]] gives [undefined] (or an inherited property
    without [territories]), and reading the territories throws before
    anything is written. *)
Definition initializeMap (mapType : string) (s : State.t) : Outcome unit * State.t :=
  match sget mapType getMapDefinitions with
  | None => (Throw (TypeError "Cannot read properties of undefined"), s)
  | Some map_ =>
      (Return tt,
       setContinents (Some (map_continents map_))
         (State.setTerritories
            (foldl placeTerritory (State.territories s) (map_territories map_)) s))
  end.

(** [logConversation(agentId, message, type = 'public')]; [uuid] is what
    [crypto.randomUUID()] answers. *)
Definition logConversation (uuid agentId message : string) (type : option string)
    (now : Z) (s : State.t) : Conversation.t * State.t :=
  let entry :=
    Conversation.mk uuid agentId message (default "public" type)
      (State.turn s) (State.phase s) now in
  (entry,
   State.emit (conversation entry)
     (setConversations (State.conversations s ++ [entry]) s)).

(** The object that [toJSON()] returns. *)
Module GameJson.
Record t : Type := mk {
  gameId : string;
  phase : string;
  turn : Z;
  maxTurns : Z;
  agents : list (string * Agent.t);
  territories : list (string * Territory.t);
  conversations : list Conversation.t;
  history : list HistoryEntry;
  winner : option string;
  createdAt : Z;
  lastActivity : Z
}.
End GameJson.

Definition toJSON (s : State.t) : GameJson.t :=
  GameJson.mk (State.gameId s) (State.phase s) (State.turn s) (State.maxTurns s)
    (State.agents s) (State.territories s) (State.conversations s)
    (State.history s) (State.winner s) (State.createdAt s) (State.lastActivity s).

(** [new Map(entries)] *)
Definition Map_ofEntries {V : Type} (entries : list (string * V)) : smap V :=
  foldl (λ m kv, sset (fst kv) (snd kv) m) [] entries.

(** [GameState.fromJSON(data)]: a new instance, eleven of whose fields
    are then assigned from [data]. *)
Definition fromJSON (data : GameJson.t) (createdAt lastActivity : Z) : State.t :=
  let game := new (GameJson.gameId data) createdAt lastActivity in
  State.mk (State.gameId game) (GameJson.phase data) (GameJson.turn data)
    (GameJson.maxTurns data)
    (Map_ofEntries (GameJson.agents data))
    (Map_ofEntries (GameJson.territories data))
    (State.continents game) (GameJson.conversations data)
    (State.moves game) (State.revealedMoves game) (GameJson.history data)
    (GameJson.createdAt data) (GameJson.lastActivity data) (GameJson.winner data)
    (State.phaseStartTime game) (State.phaseDuration game) (State.events game).

End GameStateMore.

(** ** Runs of a match

    A call of one of the methods of [GameState] that write to the match,
    and the match after a sequence of such calls; a call that throws
    leaves the match as it was when the exception left the method. *)

Inductive EngineCall : Type :=
| engInitializeMap (mapType : string)
| engAddAgent (agent : GameState.AgentInfo) (now : Z)
| engRemoveAgent (agentId : string)
| engDistributeTerritories (rnd : nat → RandomDraw)
| engSetPhase (phase : string) (now : Z)
| engCommitMove (agentId : string) (move : MoveArg) (signature : string) (now : Z)
| engRevealMoves (now : Z)
| engResolveBattles (rnd : nat → RandomDraw)
| engCalculateReinforcements (agentId : string)
| engCheckWinCondition (now : Z)
| engLogConversation (uuid agentId message : string) (type : option string) (now : Z)
| engEndTurn (now : Z).

Section Play.
Variable sha256Json : Move.t → string.

Definition engPerform (c : EngineCall) (s : State.t) : State.t :=
  match c with
  | engInitializeMap mapType => snd (GameStateMore.initializeMap mapType s)
  | engAddAgent agent now => snd (GameState.addAgent agent now s)
  | engRemoveAgent agentId => GameState.removeAgent agentId s
  | engDistributeTerritories rnd => snd (GameState.distributeTerritories rnd s)
  | engSetPhase phase now => GameState.setPhase phase now s
  | engCommitMove agentId move signature now =>
      snd (GameState.commitMove sha256Json agentId move signature now s)
  | engRevealMoves now => snd (GameState.revealMoves now s)
  | engResolveBattles rnd => snd (GameState.resolveBattles rnd s)
  | engCalculateReinforcements agentId =>
      snd (GameState.calculateReinforcements agentId s)
  | engCheckWinCondition now => snd (GameState.checkWinCondition now s)
  | engLogConversation uuid agentId message type now =>
      snd (GameStateMore.logConversation uuid agentId message type now s)
  | engEndTurn now => GameState.endTurn now s
  end.

Definition play (calls : list EngineCall) (s : State.t) : State.t :=
  foldl (λ acc c, engPerform c acc) s calls.
End Play.

(** What holds of the two [Map]s of every match that the methods have
    built from a new one: they are maps (no key twice), there are at most
    seven agents, and every agent is stored under its own id and is not
    eliminated. *)
Record matchSound (s : State.t) : Prop := mkMatchSound {
  sound_agent_ids : NoDup (OMap.keys (State.agents s));
  sound_territory_ids : NoDup (OMap.keys (State.territories s));
  sound_at_most_seven : (OMap.size (State.agents s) ≤ 7)%nat;
  sound_agent :
    ∀ k a, sget k (State.agents s) = Some a →
      Agent.id a = k ∧ Agent.eliminated a = false
}.

(** [m'] is [m] with some agents updated in place: the same keys, and
    under every key an agent with the same id and the same [eliminated]
    flag as before. *)
Definition agentsUpdated (m m' : smap Agent.t) : Prop :=
  OMap.keys m' = OMap.keys m
  ∧ ∀ k a', sget k m' = Some a' →
      ∃ a, sget k m = Some a
           ∧ Agent.id a' = Agent.id a
           ∧ Agent.eliminated a' = Agent.eliminated a.

(** The lobby as [GameManager.createGame] builds it: the classic map and
    seven agents [agent-1] ... [agent-7]; and the same lobby after
    [distributeTerritories], every draw of the shuffle being zero. *)
Module DemoClassic.

Definition agentIds : list string :=
  ["agent-1"; "agent-2"; "agent-3"; "agent-4"; "agent-5"; "agent-6"; "agent-7"].

Definition join (id : string) : EngineCall :=
  engAddAgent (GameState.mkInfo id id "#fff" None) 0.

Definition setup : list EngineCall :=
  engInitializeMap "classic" :: map join agentIds.

Definition lobby : State.t :=
  play Demo.sha setup (GameStateMore.new "game-1" 0 0).

Definition started : State.t :=
  snd (GameState.distributeTerritories (λ _, Demo.low) lobby).

End DemoClassic.

(** ** Vocabulary for the distribution *)

(** The positions [index], ..., [index + n - 1] of the shuffled array that
    the round robin gives to [aid]. *)
Definition turnsOf (agentIds : list string) (aid : string) (index n : nat)
  : list nat :=
  List.filter (λ i, bool_decide (GameState.roundRobin agentIds i = Some aid))
              (seq index n).

(** The number of territories, out of [n] dealt to [k] agents, that go
    to the agent in position [j]: the first [n mod k] agents get one
    more than the others. *)
Definition share (n k j : nat) : nat :=
  (n / k + (if (j <? n mod k)%nat then 1 else 0))%nat.

(** The calls that set a match up before it starts. *)
Definition isSetupCall (c : EngineCall) : Prop :=
  match c with
  | engInitializeMap _ | engAddAgent _ _ => True
  | _ => False
  end.

Definition isAddAgent (c : EngineCall) : Prop :=
  match c with engAddAgent _ _ => True | _ => False end.

(** A mid-game position in the resolve phase where one agent defends and
    another has committed a move of type [move]. *)
Module DemoQuiet.

Definition relocate : Move.t :=
  Move.mk (JsString "move") (JsString "t1") (JsString "t4")
          (JsNumber (JsNum.ofZ 5)).

Definition state : State.t :=
  State.setRevealedMoves
    [Demo.revealedOf "a" relocate; Demo.revealedOf "b" Demo.defend]
    (Demo.midGame "resolve").

End DemoQuiet.

(** The territory that [initializeMap] writes for an entry of the map
    definition. *)
Definition freshTerritory (d : GameStateMore.TerritoryDef) : Territory.t :=
  Territory.mk (GameStateMore.def_id d) (GameStateMore.def_name d)
    (GameStateMore.def_region d) None (JsNum.ofZ 0)
    (GameStateMore.resourcesOrOne (GameStateMore.def_resources d))
    (GameStateMore.def_neighbors d) (GameStateMore.def_continent d).

(** ** More of [ReputationEngine]: the queries *)

Module ReputationQueries.
Import ReputationEngine.

(** [getReputation(agentId)]; [None] is [undefined]. *)
Definition getReputation (agentId : string) (e : t) : option Reputation.t :=
  agentReputations e !! agentId.

(** [d.proposer === agentId || d.acceptor === agentId] *)
Definition isParty (agentId : string) (d : Deal.t) : bool :=
  bool_decide (Deal.proposer d = agentId) || bool_decide (Deal.acceptor d = agentId).

(** [!status || d.status === status]; [None] is the default [null]. *)
Definition hasStatus (status : option Deal.status) (d : Deal.t) : bool :=
  match status with
  | None => true
  | Some st => bool_decide (Deal.state d = st)
  end.

(** [getAgentDeals(agentId, status = null)].  The array comes in the
    insertion order of the deals, which the [gmap] does not keep: the
    list here has the same elements in the order of [map_to_list]. *)
Definition getAgentDeals (agentId : string) (status : option Deal.status) (e : t)
  : list Deal.t :=
  List.filter (hasStatus status)
    (List.filter (isParty agentId) (map snd (map_to_list (deals e)))).

(** [getActiveAlliances(agentId)], with the same remark on the order. *)
Definition getActiveAlliances (agentId : string) (e : t) : list Alliance.t :=
  List.filter (λ a, bool_decide (Alliance.state a = Alliance.active)
                    && MemberSet.has agentId (Alliance.members a))
              (map snd (map_to_list (alliances e))).

(** [rep.betrayals.filter(b => b.victim === victim).length] *)
Definition betrayalsOf (rep : Reputation.t) (victim : string) : nat :=
  length (List.filter (λ b, bool_decide (Betrayal.party b = victim))
                      (Reputation.betrayals rep)).

(** [calculateTrust(agentId1, agentId2)].  Trust scores are integers, so
    the average may be a half; the result is a rational. *)
Definition calculateTrust (agentId1 agentId2 : string) (e : t) : Q :=
  match agentReputations e !! agentId1, agentReputations e !! agentId2 with
  | Some rep1, Some rep2 =>
      let trust0 :=
        (inject_Z (Reputation.trustScore rep1 + Reputation.trustScore rep2) / 2)%Q in
      let betrayals1to2 := betrayalsOf rep1 agentId2 in
      let betrayals2to1 := betrayalsOf rep2 agentId1 in
      let trust1 := (trust0 - inject_Z (Z.of_nat betrayals1to2) * 10)%Q in
      let trust2 := (trust1 - inject_Z (Z.of_nat betrayals2to1) * 10)%Q in
      let trust3 :=
        if isAlly agentId1 agentId2 e then (trust2 + 20)%Q else trust2 in
      let pendingDeals :=
        List.filter (isParty agentId2) (getAgentDeals agentId1 (Some Deal.active) e) in
      let trust4 :=
        if (0 <? length pendingDeals)%nat then (trust3 + 10)%Q else trust3 in
      Qmax 0 (Qmin 100 trust4)
  | _, _ => 0%Q
  end.

End ReputationQueries.

(** The three behaviour scores of a record are within [0, 100] and its
    action history holds at most 100 entries. *)
Definition recordBounded (r : Reputation.t) : Prop :=
  (0 ≤ Reputation.consistencyScore r ≤ 100)%Z
  ∧ (0 ≤ Reputation.aggressionScore r ≤ 100)%Z
  ∧ (0 ≤ Reputation.diplomacyScore r ≤ 100)%Z
  ∧ (length (Reputation.history r) ≤ 100)%nat.

Definition ledgerBounded (e : ReputationEngine.t) : Prop :=
  map_Forall (λ _ r, recordBounded r) (ReputationEngine.agentReputations e).

(** ** Vocabulary for [breakAlliance] *)

(** The other members of an alliance, in the order of the member set. *)
Definition othersOf (agentId : string) (members : list string) : list string :=
  List.filter (λ m, negb (bool_decide (m = agentId))) members.

(** What one betrayal does to the record of the betrayer, and what it
    does, with the honoured alliance, to the record of a betrayed
    member. *)
Definition charged (victim type : string) (turn : option Z) (now : Z)
    (r : Reputation.t) : Reputation.t :=
  Reputation.setTrustScore (Z.max 0 (Reputation.trustScore r - 10))
    (Reputation.setBetrayals
       (Reputation.betrayals r ++ [Betrayal.mk victim type turn now]) r).

Definition honoured (betrayer : string) (turn : option Z) (now : Z)
    (r : Reputation.t) : Reputation.t :=
  Reputation.setAlliances (S (Reputation.alliancesHonored r))
    (Reputation.alliancesBroken r)
    (Reputation.setBetrayedBy
       (Reputation.betrayedBy r ++ [Betrayal.mk betrayer "alliance" turn now]) r).

(** The loop of [breakAlliance] over the members. *)
Definition betrayMember (agentId : string) (now : Z)
    (acc : ReputationEngine.t) (memberId : string) : ReputationEngine.t :=
  if negb (bool_decide (memberId = agentId)) then
    ReputationEngine.updateAllianceCounts memberId ReputationEngine.honored
      (ReputationEngine.recordBetrayal agentId memberId "alliance" now acc)
  else acc.


(** ** The reputation summary *)

Module Summary.

(** An entry of [rankings]. *)
Record Ranking : Type := mkRanking {
  agentId : string;
  name : string;
  trustScore : Z;
  dealsMade : nat;
  dealsKept : nat;
  dealsBroken : nat;
  betrayalCount : nat;
  betrayedCount : nat
}.

Record t : Type := mk {
  rankings : list Ranking;
  mostTrusted : option Ranking;
  leastTrusted : option Ranking;
  mostAggressive : option Reputation.t;
  bestDiplomat : option Reputation.t
}.

Definition toRanking (r : Reputation.t) : Ranking :=
  mkRanking (Reputation.agentId r) (Reputation.name r) (Reputation.trustScore r)
    (Reputation.dealsMade r) (Reputation.dealsKept r) (Reputation.dealsBroken r)
    (length (Reputation.betrayals r)) (length (Reputation.betrayedBy r)).

(** [(a, b) => b.trustScore - a.trustScore], and the like. *)
Definition byTrustDesc (a b : Ranking) : num :=
  JsNum.sub (JsNum.ofZ (trustScore b)) (JsNum.ofZ (trustScore a)).

Definition byAggressionDesc (a b : Reputation.t) : num :=
  JsNum.sub (JsNum.ofZ (Reputation.aggressionScore b))
            (JsNum.ofZ (Reputation.aggressionScore a)).

Definition byDiplomacyDesc (a b : Reputation.t) : num :=
  JsNum.sub (JsNum.ofZ (Reputation.diplomacyScore b))
            (JsNum.ofZ (Reputation.diplomacyScore a)).

(** The body of [getReputationSummary()], on the array [reps] that
    [getAllReputations()] returns (the records in the order in which
    they were inserted).  [reps.sort(...)] sorts [reps] itself: the sort
    by diplomacy works on the array already sorted by aggression. *)
Definition getReputationSummary (reps : list Reputation.t) : t :=
  match reps with
  | [] => mk [] None None None None
  | _ =>
      let rankings := Array_sort byTrustDesc (map toRanking reps) in
      let byAggression := Array_sort byAggressionDesc reps in
      let byDiplomacy := Array_sort byDiplomacyDesc byAggression in
      mk rankings (head rankings) (last rankings)
         (head byAggression) (head byDiplomacy)
  end.

End Summary.

(** A comparator that sorts by an integer key, largest first. *)
Definition byKeyDesc {A : Type} (key : A → Z) (a b : A) : num :=
  JsNum.sub (JsNum.ofZ (key b)) (JsNum.ofZ (key a)).

Module DemoSummary.

Definition reps : list Reputation.t :=
  [Reputation.mk "a" "A" 40 1 0 1 0 0 [] [] 50 70 50 [] 0;
   Reputation.mk "b" "B" 85 1 1 0 0 0 [] [] 50 50 60 [] 0;
   Reputation.mk "c" "C" 50 0 0 0 0 0 [] [] 50 70 60 [] 0].

End DemoSummary.

(** ** [PhaseManager]: the methods that work on the match

    The methods of [PhaseManager.js] that only read or write the
    [GameState] they hold; the timers and the listeners of the phase
    machine are not modelled. *)

Module PhaseManager.

(** [getAgentsNeedingMoves()] *)
Definition getAgentsNeedingMoves (s : State.t) : list string :=
  map Agent.id
    (List.filter (λ a, negb (shas (Agent.id a) (State.moves s)))
       (GameState.getActiveAgents s)).

(** [t.neighbors.some(nid => territories.get(nid).owner !== agent.id)]:
    the callback throws on a neighbour that is not on the map, unless an
    earlier neighbour has already answered [true]. *)
Fixpoint someForeign (agentId : string) (ts : smap Territory.t)
    (nids : list string) : Outcome bool :=
  match nids with
  | [] => Return false
  | nid :: rest =>
      match sget nid ts with
      | None => Throw (TypeError "Cannot read properties of undefined")
      | Some neighbor =>
          if negb (bool_decide (Territory.owner neighbor = Some agentId))
          then Return true
          else someForeign agentId ts rest
      end
  end.

(** [agent.territories.filter(tid => ...)] *)
Fixpoint borderTerritories (agentId : string) (ts : smap Territory.t)
    (tids : list string) : Outcome (list string) :=
  match tids with
  | [] => Return []
  | tid :: rest =>
      match sget tid ts with
      | None => Throw (TypeError "Cannot read properties of undefined")
      | Some t =>
          match someForeign agentId ts (Territory.neighbors t) with
          | Throw e => Throw e
          | Return isBorder =>
              match borderTerritories agentId ts rest with
              | Throw e => Throw e
              | Return border => Return (if isBorder then tid :: border else border)
              end
          end
      end
  end.

(** [tids.forEach(tid => { distributions[tid] = share })] on the empty
    object. *)
Definition giveEach (share : Z) (tids : list string) : gmap string Z :=
  foldl (λ distributions tid, <[tid := share]> distributions) ∅ tids.

(** [calculateDefensiveDistribution(agent, reinforcements)], for an
    integer [reinforcements].  [Math.floor(reinforcements / n)] is only
    stored when [n] is not zero. *)
Definition calculateDefensiveDistribution (agent : Agent.t) (reinforcements : Z)
    (s : State.t) : Outcome (gmap string Z) :=
  match borderTerritories (Agent.id agent) (State.territories s)
          (Agent.territories agent) with
  | Throw e => Throw e
  | Return border =>
      if bool_decide (length border = 0%nat) then
        let perTerritory :=
          reinforcements / Z.of_nat (length (Agent.territories agent)) in
        Return (giveEach perTerritory (Agent.territories agent))
      else
        let perBorder := reinforcements / Z.of_nat (length border) in
        Return (giveEach perBorder border)
  end.

(** The [forEach] of [distributeReinforcements] over the territories of
    one agent: [t.armies += perTerritory]. *)
Fixpoint reinforceTerritories (tids : list string) (perTerritory : Z)
    (s : State.t) : Outcome unit * State.t :=
  match tids with
  | [] => (Return tt, s)
  | tid :: rest =>
      match sget tid (State.territories s) with
      | None => (Throw (TypeError "Cannot read properties of undefined"), s)
      | Some t =>
          reinforceTerritories rest perTerritory
            (State.setTerritories
               (sset tid
                  (Territory.setArmies
                     (JsNum.add (Territory.armies t) (JsNum.ofZ perTerritory)) t)
                  (State.territories s)) s)
      end
  end.

(** The body of the loop of [distributeReinforcements] for the agent
    object stored under [key].  [calculateReinforcements] is called with
    the [id] of that object and may write to it; the object is read
    again afterwards. *)
Definition reinforceAgent (key : string) (s : State.t) : Outcome unit * State.t :=
  match sget key (State.agents s) with
  | None => (Return tt, s)
  | Some agent =>
      match GameState.calculateReinforcements (Agent.id agent) s with
      | (Throw e, s1) => (Throw e, s1)
      | (Return reinforcements, s1) =>
          match sget key (State.agents s1) with
          | None => (Return tt, s1)
          | Some agent1 =>
              let s2 :=
                State.setAgents
                  (sset key
                     (Agent.setArmies
                        (JsNum.add (Agent.armies agent1) (JsNum.ofZ reinforcements))
                        agent1)
                     (State.agents s1)) s1 in
              if (0 <? length (Agent.territories agent1))%nat then
                reinforceTerritories (Agent.territories agent1)
                  (reinforcements / Z.of_nat (length (Agent.territories agent1)))
                  s2
              else (Return tt, s2)
          end
      end
  end.

Fixpoint reinforceEach (keys : list string) (s : State.t) : Outcome unit * State.t :=
  match keys with
  | [] => (Return tt, s)
  | key :: rest =>
      match reinforceAgent key s with
      | (Return _, s1) => reinforceEach rest s1
      | (Throw e, s1) => (Throw e, s1)
      end
  end.

(** [distributeReinforcements()]: the loop runs over the agents that
    were active when it started. *)
Definition distributeReinforcements (s : State.t) : Outcome unit * State.t :=
  reinforceEach
    (OMap.keys (List.filter (λ ka, negb (Agent.eliminated (snd ka))) (State.agents s)))
    s.

End PhaseManager.

(** ** Vocabulary for the reinforcement round *)

(** What [calculateReinforcements(agentId)] returns on [s]. *)
Definition reinforcementsOf (agentId : string) (s : State.t) : Z :=
  match fst (GameState.calculateReinforcements agentId s) with
  | Return reinforcements => reinforcements
  | Throw _ => 0
  end.

(** Agent [a], stored under [k] in [s], after its turn in the loop of
    [distributeReinforcements]; and a territory of that agent. *)
Definition reinforcedAgent (s : State.t) (k : string) (a : Agent.t) : Agent.t :=
  Agent.setArmies
    (JsNum.add (Agent.armies a) (JsNum.ofZ (reinforcementsOf k s)))
    (Agent.setResources (Agent.resources a mod 5) a).

Definition reinforcedTerritory (s : State.t) (k : string) (a : Agent.t)
    (t : Territory.t) : Territory.t :=
  Territory.setArmies
    (JsNum.add (Territory.armies t)
       (JsNum.ofZ (reinforcementsOf k s / Z.of_nat (length (Agent.territories a)))))
    t.

(** [c] is [s] but for the agents and the territories. *)
Definition sameElsewhere (s c : State.t) : Prop :=
  State.setTerritories [] (State.setAgents [] c)
  = State.setTerritories [] (State.setAgents [] s).

(** The state [c] of the loop of [distributeReinforcements], started on
    [s], when the agents [served] have had their turn. *)
Record reinforcedSoFar (s : State.t) (served : list string) (c : State.t)
  : Prop := mkSoFar {
  sofar_elsewhere : sameElsewhere s c;
  sofar_agent_keys : OMap.keys (State.agents c) = OMap.keys (State.agents s);
  sofar_territory_keys :
    OMap.keys (State.territories c) = OMap.keys (State.territories s);
  sofar_agents :
    ∀ k a, sget k (State.agents s) = Some a →
      sget k (State.agents c)
      = Some (if bool_decide (k ∈ served) then reinforcedAgent s k a else a);
  sofar_territories :
    ∀ tid t, sget tid (State.territories s) = Some t →
      sget tid (State.territories c)
      = Some (match Territory.owner t with
              | Some o =>
                  match sget o (State.agents s) with
                  | Some a =>
                      if bool_decide (o ∈ served)
                      then reinforcedTerritory s o a t else t
                  | None => t
                  end
              | None => t
              end)
}.

(** ** Vocabulary for the default moves *)

(** Territory [tid] has a neighbour whose owner is not [agentId]. *)
Definition isBorder (agentId : string) (ts : smap Territory.t) (tid : string)
  : bool :=
  match sget tid ts with
  | Some t =>
      existsb (λ nid,
                 match sget nid ts with
                 | Some neighbor =>
                     negb (bool_decide (Territory.owner neighbor = Some agentId))
                 | None => false
                 end) (Territory.neighbors t)
  | None => false
  end.

(** A match where [a] holds [t1] and [t4], and a commitment has been
    made under an id that never joined. *)
Module DemoCommit.

Definition oneToGo : State.t :=
  State.setMoves
    [Demo.commitmentOf "a" Demo.defend; Demo.commitmentOf "ghost" Demo.defend]
    (Demo.midGame "commit").

Definition afterB : State.t :=
  snd (GameState.commitMove Demo.sha "b" (MoveObject Demo.defend) "sig" 0 oneToGo).

End DemoCommit.

(** * Properties *)

Local Open Scope Z_scope.

(** ** Insertion-ordered maps *)

Section OMapFacts.
Context {V : Type}.
Implicit Types (m : smap V) (k : string) (v : V).

Lemma sameString_refl k : sameString k k = true.
Proof. unfold sameString. by rewrite bool_decide_eq_true. Qed.

Lemma sameString_true k k' : sameString k k' = true ↔ k = k'.
Proof. unfold sameString. by rewrite bool_decide_eq_true. Qed.

Lemma sameString_false k k' : sameString k k' = false ↔ k ≠ k'.
Proof. unfold sameString. by rewrite bool_decide_eq_false. Qed.

Lemma sget_sset_eq k v m : sget k (sset k v m) = Some v.
Proof.
  induction m as [|[k' v'] m IH]; simpl.
  - by rewrite sameString_refl.
  - destruct (sameString k' k) eqn:E; simpl; by rewrite E.
Qed.

Lemma sget_sset_ne k k' v m : k ≠ k' → sget k' (sset k v m) = sget k' m.
Proof.
  intros Hne. induction m as [|[k0 v0] m IH]; simpl.
  - by apply sameString_false in Hne as ->.
  - destruct (sameString k0 k) eqn:E; simpl.
    + apply sameString_true in E as ->.
      by apply sameString_false in Hne as ->.
    + by rewrite IH.
Qed.

Lemma keys_sset_present k v m :
  is_Some (sget k m) → OMap.keys (sset k v m) = OMap.keys m.
Proof.
  induction m as [|[k0 v0] m IH]; simpl.
  - by intros [? ?].
  - destruct (sameString k0 k) eqn:E; simpl; [done|].
    intros H. by rewrite IH.
Qed.

Lemma sget_Some_elem k v m : sget k m = Some v → k ∈ OMap.keys m.
Proof.
  induction m as [|[k0 v0] m IH]; simpl; [done|].
  destruct (sameString k0 k) eqn:E.
  - apply sameString_true in E as ->. intros _. apply list_elem_of_here.
  - intros H. apply list_elem_of_further. by apply IH.
Qed.

Lemma elem_keys_sget k m : k ∈ OMap.keys m → is_Some (sget k m).
Proof.
  induction m as [|[k0 v0] m IH]; simpl.
  - by intros ?%elem_of_nil.
  - destruct (sameString k0 k) eqn:E; [by eexists|].
    apply sameString_false in E.
    intros [?|?]%elem_of_cons; [congruence|by apply IH].
Qed.

End OMapFacts.

(** ** [commitMove] outside the commit phase *)

(** C2.  In any phase other than ['commit'], [commitMove] throws the
    phase-violation error and hands back the state it was given: the
    commitments, the event log (no [moveCommitted], no
    [allMovesCommitted]) and every other field are as before, and the
    outcome is the same whatever the hash function is, since it is never
    applied. *)
Theorem C2_commitMove_outside_commit_phase
    (sha256Json : Move.t → string) (agentId : string) (move : MoveArg)
    (signature : string) (now : Z) (s : State.t) :
  State.phase s ≠ "commit" →
  GameState.commitMove sha256Json agentId move signature now s
  = (Throw PhaseViolationError, s).
Proof.
  intros Hphase. unfold GameState.commitMove.
  by rewrite bool_decide_eq_false_2.
Qed.

Lemma C2_witness :
  State.phase (Demo.midGame "negotiation") ≠ "commit"
  ∧ GameState.commitMove Demo.sha "a" (MoveObject (Demo.attack "t1" "t2" 5))
      "sig" 7 (Demo.midGame "negotiation")
    = (Throw PhaseViolationError, Demo.midGame "negotiation").
Proof.
  split; [by vm_compute|].
  apply C2_commitMove_outside_commit_phase. by vm_compute.
Defined.

(** In the commit phase the same call stores the commitment. *)
Example commitMove_in_commit_phase :
  let '(outcome, s') :=
    GameState.commitMove Demo.sha "a" (MoveObject (Demo.attack "t1" "t2" 5))
      "sig" 7 (Demo.midGame "commit") in
  outcome = Return (Commitment.mk "a" (Demo.attack "t1" "t2" 5) "sig" 7 "hash")
  ∧ sget "a" (State.moves s') = Some (Commitment.mk "a" (Demo.attack "t1" "t2" 5) "sig" 7 "hash")
  ∧ State.events s' = [moveCommitted "a" "hash"].
Proof. vm_compute. done. Qed.

(** ** [validateMove] *)

Lemma isMoveKind_spec v :
  GameState.isMoveKind v = true ↔
  v = JsString "attack" ∨ v = JsString "defend" ∨ v = JsString "support"
  ∨ v = JsString "move" ∨ v = JsString "none".
Proof.
  unfold GameState.isMoveKind. simpl. split.
  - destruct v as [| |b|n|s|r]; simpl; try discriminate.
    rewrite !orb_true_iff, !bool_decide_eq_true.
    intros H. destruct_or!; subst; try discriminate; auto 10.
  - intros H. destruct_or!; subst; reflexivity.
Qed.

Lemma isMoveKind_truthy v : GameState.isMoveKind v = true → truthy v = true.
Proof.
  intros H%isMoveKind_spec. destruct_or!; subst; reflexivity.
Qed.

(** The acceptance condition of [validateMove], spelled out. *)
Lemma validateMove_iff (ts : smap Territory.t) (move : MoveArg) :
  GameState.validateMove ts move = true ↔
  ∃ m, move = MoveObject m
    ∧ (Move.type m = JsString "attack" ∨ Move.type m = JsString "defend"
       ∨ Move.type m = JsString "support" ∨ Move.type m = JsString "move"
       ∨ Move.type m = JsString "none")
    ∧ (Move.type m = JsString "attack" ∨ Move.type m = JsString "move" →
       truthy (Move.from m) = true ∧ truthy (Move.to m) = true
       ∧ GameState.hasTerritory (Move.from m) ts = true
       ∧ GameState.hasTerritory (Move.to m) ts = true)
    ∧ (Move.armies m = JsUndefined
       ∨ ∃ n, Move.armies m = JsNumber n ∧ JsNum.lt n (JsNum.ofZ 1) = false).
Proof.
  destruct move as [|m]; simpl.
  { split; [discriminate|]. by intros (m & ? & _). }
  split.
  - intros H. exists m. split; [done|].
    destruct (GameState.isMoveKind (Move.type m)) eqn:Hkind.
    2:{ rewrite orb_true_r in H. discriminate. }
    rewrite (isMoveKind_truthy _ Hkind) in H. simpl in H.
    apply isMoveKind_spec in Hkind. split; [done|].
    assert (Harmies :
      Move.armies m = JsUndefined
      ∨ ∃ n, Move.armies m = JsNumber n ∧ JsNum.lt n (JsNum.ofZ 1) = false).
    { repeat match type of H with
             | (if ?c then _ else _) = _ => destruct c; try discriminate
             end;
      destruct (Move.armies m); try discriminate; auto;
      right; eexists; split; eauto; by apply negb_true_iff. }
    split; [|done].
    intros Hty.
    assert (GameState.isString "attack" (Move.type m)
            || GameState.isString "move" (Move.type m) = true) as Hb.
    { destruct Hty as [-> | ->]; reflexivity. }
    rewrite Hb in H. simpl in H.
    destruct (truthy (Move.from m)), (truthy (Move.to m));
      simpl in H; try discriminate.
    destruct (GameState.hasTerritory (Move.from m) ts),
             (GameState.hasTerritory (Move.to m) ts);
      simpl in H; try discriminate.
    done.
  - intros (m' & [= <-] & Hkind & Hft & Harmies).
    pose proof (proj2 (isMoveKind_spec _) Hkind) as Hk.
    rewrite Hk, (isMoveKind_truthy _ Hk). simpl.
    assert (Hend :
      match Move.armies m with
      | JsUndefined => true
      | JsNumber n => negb (JsNum.lt n (JsNum.ofZ 1))
      | _ => false
      end = true).
    { destruct Harmies as [-> | (n & -> & Hn)]; [done|]. by rewrite Hn. }
    destruct (GameState.isString "attack" (Move.type m)
              || GameState.isString "move" (Move.type m)) eqn:Hb; simpl.
    + assert (Move.type m = JsString "attack" ∨ Move.type m = JsString "move") as Hty.
      { apply orb_true_iff in Hb as [Hb|Hb];
          destruct (Move.type m); simpl in Hb; try discriminate;
          apply bool_decide_eq_true in Hb; subst; auto. }
      destruct (Hft Hty) as (-> & -> & -> & ->). simpl. done.
    + done.
Qed.

(** C9, as the code has it.  [validateMove] accepts exactly the objects
    whose type is one of the five kinds, whose [from] and [to] - when the
    type is attack or move - are both present and existing territory ids,
    and whose [armies], when present, is a number that is not below 1.
    Nothing asks for an integer. *)
Theorem C9_validateMove_accepts_iff (ts : smap Territory.t) (move : MoveArg) :
  GameState.validateMove ts move = true ↔
  ∃ m, move = MoveObject m
    ∧ (Move.type m = JsString "attack" ∨ Move.type m = JsString "defend"
       ∨ Move.type m = JsString "support" ∨ Move.type m = JsString "move"
       ∨ Move.type m = JsString "none")
    ∧ (Move.type m = JsString "attack" ∨ Move.type m = JsString "move" →
       truthy (Move.from m) = true ∧ truthy (Move.to m) = true
       ∧ GameState.hasTerritory (Move.from m) ts = true
       ∧ GameState.hasTerritory (Move.to m) ts = true)
    ∧ (Move.armies m = JsUndefined
       ∨ ∃ n, Move.armies m = JsNumber n ∧ JsNum.lt n (JsNum.ofZ 1) = false).
Proof. apply validateMove_iff. Qed.

(** C9, as the specification words it, fails: a defend move carrying two
    and a half armies is accepted by [validateMove], although 5/2 is not
    a positive integer. *)
Lemma C9_counterexample :
  GameState.validateMove (State.territories (Demo.midGame "commit"))
    (MoveObject Demo.defendFractional) = true
  ∧ SpecWords.acceptsMove (State.territories (Demo.midGame "commit"))
      (MoveObject Demo.defendFractional) = false
  ∧ Move.armies Demo.defendFractional = JsNumber (JsNum.Fin (5 # 2))
  ∧ SpecWords.isPositiveInteger (JsNumber (JsNum.Fin (5 # 2))) = false.
Proof. vm_compute. done. Qed.

(** [NaN] is let through as well: [NaN < 1] is false. *)
Example validateMove_accepts_NaN :
  GameState.validateMove []
    (MoveObject (Move.mk (JsString "none") JsUndefined JsUndefined
                   (JsNumber JsNum.NaN))) = true.
Proof. reflexivity. Qed.

Example validateMove_rejects_zero_armies :
  GameState.validateMove []
    (MoveObject (Move.mk (JsString "none") JsUndefined JsUndefined
                   (JsNumber (JsNum.ofZ 0)))) = false.
Proof. reflexivity. Qed.

(** ** [leaveAlliance] *)


Lemma MemberSet_delete_gone (x : string) (l : list string) :
  x ∉ MemberSet.delete x l.
Proof.
  unfold MemberSet.delete. rewrite list_elem_of_In, filter_In.
  intros [_ H]. apply negb_true_iff, bool_decide_eq_false in H. done.
Qed.




(** A member leaving an alliance of two dissolves it, also when the
    alliance was already broken. *)
Example leaveAlliance_dissolves :
  let '(answer, e') := ReputationEngine.leaveAlliance "al1" "a" DemoLedger.ledger in
  answer = true
  ∧ (Alliance.state <$> ReputationEngine.alliances e' !! "al1") = Some Alliance.dissolved
  ∧ (Alliance.members <$> ReputationEngine.alliances e' !! "al1") = Some ["b"].
Proof. vm_compute. done. Qed.

(** ** [calculateReinforcements] *)




(** An eliminated or unknown agent gets nothing and nothing changes. *)
Lemma calculateReinforcements_unknown (s : State.t) (agentId : string) :
  sget agentId (State.agents s) = None →
  GameState.calculateReinforcements agentId s = (Return 0, s).
Proof. intros H. unfold GameState.calculateReinforcements. by rewrite H. Qed.

(** ** [getAgentState] *)

Lemma getPublicState_ignores_commitments (s : State.t) moves2 revealed2 :
  GameState.getPublicState (State.setRevealedMoves revealed2 (State.setMoves moves2 s))
  = GameState.getPublicState s.
Proof. reflexivity. Qed.

(** C7.  Outside the resolve phase the private snapshot of an agent does
    not depend on what the others have committed: two states that differ
    only in other agents' entries of the commitment map (and of the
    reveal map) give the same snapshot. *)
Theorem C7_getAgentState_hides_other_commitments
    (p : string) (s1 s2 : State.t) :
  State.phase s1 ≠ "resolve" →
  differOnlyInOthersCommitments p s1 s2 →
  GameState.getAgentState p s2 = GameState.getAgentState p s1.
Proof.
  intros Hphase (moves2 & revealed2 & -> & Hmine & Hown).
  unfold GameState.getAgentState. simpl.
  destruct (sget p (State.agents s1)) as [agent|]; [|done].
  rewrite getPublicState_ignores_commitments.
  unfold GameState.commitmentHash. rewrite Hmine.
  rewrite bool_decide_eq_false_2 by done. simpl.
  unfold ownRevealed in Hown. by rewrite Hown.
Qed.

Lemma C7_witness :
  GameState.getAgentState "a"
    (State.setMoves [Demo.commitmentOf "a" Demo.defend;
                     Demo.commitmentOf "b" (Demo.attack "t2" "t1" 1)]
       (Demo.midGame "commit"))
  = GameState.getAgentState "a"
      (State.setMoves [Demo.commitmentOf "a" Demo.defend;
                       Demo.commitmentOf "b" (Demo.attack "t2" "t3" 9)]
         (Demo.midGame "commit")).
Proof.
  apply C7_getAgentState_hides_other_commitments; [by vm_compute|].
  exists [Demo.commitmentOf "a" Demo.defend;
          Demo.commitmentOf "b" (Demo.attack "t2" "t1" 1)], [].
  by vm_compute.
Defined.

(** The commitment of an agent is in its own snapshot, as a hash. *)
Example getAgentState_own_commitment :
  (GameState.AgentState.myCommitment <$>
   GameState.getAgentState "a"
     (State.setMoves [Demo.commitmentOf "a" Demo.defend] (Demo.midGame "commit")))
  = Some (Some "hash").
Proof. reflexivity. Qed.

(** In the resolve phase the revealed moves of everybody are in it. *)
Example getAgentState_resolve_shows_all :
  (length ∘ GameState.AgentState.revealedMoves <$>
   GameState.getAgentState "a"
     (State.setRevealedMoves
        [Demo.revealedOf "a" Demo.defend;
         Demo.revealedOf "b" (Demo.attack "t2" "t1" 1)]
        (Demo.midGame "resolve")))
  = Some 2%nat.
Proof. reflexivity. Qed.

(** ** [Array.prototype.sort] *)

Section SortFacts.
Context {A : Type} (cmp : A → A → num).

Lemma sortInsert_perm (x : A) (l : list A) : sortInsert cmp x l ≡ₚ x :: l.
Proof.
  induction l as [|y l IH]; simpl; [reflexivity|].
  destruct (JsNum.gt (cmp x y) (JsNum.ofZ 0)); [|reflexivity].
  rewrite IH. apply perm_swap.
Qed.

Lemma Array_sort_perm (l : list A) : Array_sort cmp l ≡ₚ l.
Proof.
  induction l as [|x l IH]; simpl; [reflexivity|].
  unfold Array_sort in *. simpl. rewrite sortInsert_perm. by rewrite IH.
Qed.

Lemma Array_sort_nonempty (l : list A) : l ≠ [] → Array_sort cmp l ≠ [].
Proof.
  intros Hne Hnil. apply Hne. apply Permutation_nil.
  rewrite <- Hnil. apply Array_sort_perm.
Qed.


End SortFacts.

(** ** [checkWinCondition] *)



Lemma getActiveAgents_elem (s : State.t) (a : Agent.t) :
  a ∈ GameState.getActiveAgents s ↔
  a ∈ OMap.values (State.agents s) ∧ Agent.eliminated a = false.
Proof.
  unfold GameState.getActiveAgents.
  rewrite !list_elem_of_In, filter_In, negb_true_iff. done.
Qed.




(** At the last turn the same position goes to the best agent still in
    the game, not to the eliminated holder of the most territories. *)
Example checkWinCondition_last_turn_skips_eliminated :
  fst (GameState.checkWinCondition 5 (State.setTurn 10 DemoEliminated.state))
  = Return (Some (mkWin turns "b")).
Proof. reflexivity. Qed.

(** With nobody left in the game at the last turn, [winner.id] throws. *)
Example checkWinCondition_nobody_left :
  GameState.checkWinCondition 5
    (State.setTurn 10 (State.setAgents [DemoEliminated.out] DemoEliminated.state))
  = (Throw (TypeError "Cannot read properties of undefined"),
     State.setTurn 10 (State.setAgents [DemoEliminated.out] DemoEliminated.state)).
Proof. reflexivity. Qed.

(** ** The trust score stays within [0, 100] *)



Section TrustRange.
Implicit Types e : ReputationEngine.t.





Lemma trustInRange_setDeals e m :
  trustInRange e → trustInRange (ReputationEngine.setDeals m e).
Proof. done. Qed.

Lemma trustInRange_setAlliances e m :
  trustInRange e → trustInRange (ReputationEngine.setAlliances m e).
Proof. done. Qed.







End TrustRange.



(** The scores along that history: the break costs [a] ten points and
    the blend with a kept ratio of zero leaves 12 of the remaining 40;
    [b] is credited and ends at 85; three explicit breaks take [a] to
    the floor. *)
Example trust_after_break :
  (Reputation.trustScore <$>
     ReputationEngine.agentReputations DemoHistory.broken !! "a") = Some 12
  ∧ (Reputation.trustScore <$>
     ReputationEngine.agentReputations DemoHistory.broken !! "b") = Some 85
  ∧ (Reputation.trustScore <$>
     ReputationEngine.agentReputations
       (run DemoHistory.calls ReputationEngine.new) !! "a") = Some 0.
Proof. vm_compute. done. Qed.

(** ** [breakDeal] *)





(** The effects, on the ledger of the example: [a] breaks the accepted
    deal [d1]. *)
Example breakDeal_effects_example :
  let e := run (take 4 DemoHistory.calls) ReputationEngine.new in
  let '(answer, e') := ReputationEngine.breakDeal "d1" "a" "greed" 3 e in
  (Deal.state <$> answer) = Some Deal.broken
  ∧ (Reputation.dealsBroken <$> ReputationEngine.agentReputations e' !! "a") = Some 1%nat
  ∧ (Reputation.dealsKept <$> ReputationEngine.agentReputations e' !! "b") = Some 1%nat
  ∧ (Reputation.betrayals <$> ReputationEngine.agentReputations e' !! "a")
    = Some [Betrayal.mk "b" "non-aggression" None 3]
  ∧ (Reputation.betrayals <$> ReputationEngine.agentReputations e' !! "b") = Some [].
Proof. vm_compute. done. Qed.

(** C8.  ['broken'] is not terminal in the code.  [breakDeal] does set
    the status to ['broken'], and [breakDeal] and [fulfillDeal] refuse a
    broken deal, but [acceptDeal] checks only that the deal exists and
    who accepts: on the deal [d1] that [a] has just broken, [b]'s
    [acceptDeal] returns the deal with status ['active'] again, after
    which it can be fulfilled, or broken a second time with a second
    betrayal recorded against [a]. *)
Theorem C8_broken_deal_reopened_by_acceptDeal :
  let e := DemoHistory.broken in
  (Deal.state <$> ReputationEngine.deals e !! "d1") = Some Deal.broken
  ∧ ReputationEngine.fulfillDeal "d1" "b" 9 e = (false, e)
  ∧ ReputationEngine.breakDeal "d1" "b" "again" 9 e = (None, e)
  ∧ (let '(outcome, e') := ReputationEngine.acceptDeal "d1" "b" 9 e in
     (∃ d, outcome = Return d ∧ Deal.state d = Deal.active)
     ∧ (Deal.state <$> ReputationEngine.deals e' !! "d1") = Some Deal.active
     ∧ (let '(answer, e'') := ReputationEngine.breakDeal "d1" "a" "again" 10 e' in
        (Deal.state <$> answer) = Some Deal.broken
        ∧ (length ∘ Reputation.betrayals <$>
             ReputationEngine.agentReputations e'' !! "a") = Some 2%nat
        ∧ (Reputation.dealsBroken <$>
             ReputationEngine.agentReputations e'' !! "a") = Some 2%nat)).
Proof.
  cbv zeta. split; [by vm_compute|]. split; [by vm_compute|].
  split; [by vm_compute|].
  destruct (ReputationEngine.acceptDeal "d1" "b" 9 DemoHistory.broken)
    as [outcome e'] eqn:Haccept.
  vm_compute in Haccept. injection Haccept as <- <-.
  split; [eexists; split; reflexivity|].
  split; [by vm_compute|].
  by vm_compute.
Qed.

(** ** More on insertion-ordered maps *)

Section OMapMore.
Context {V : Type}.
Implicit Types (m : smap V) (k : string) (v : V).

Lemma keys_sset_absent k v m :
  sget k m = None → OMap.keys (sset k v m) = OMap.keys m ++ [k].
Proof.
  induction m as [|[k0 v0] m IH]; simpl; [done|].
  destruct (sameString k0 k) eqn:E; [done|].
  intros H. simpl. by rewrite IH.
Qed.

Lemma sget_None_not_elem k m : sget k m = None ↔ k ∉ OMap.keys m.
Proof.
  split.
  - intros H Hin. apply elem_keys_sget in Hin as [v Hv]. congruence.
  - intros H. destruct (sget k m) eqn:E; [|done].
    exfalso. apply H. by eapply sget_Some_elem.
Qed.

Lemma sget_elem k v m : NoDup (OMap.keys m) → (k, v) ∈ m ↔ sget k m = Some v.
Proof.
  induction m as [|[k0 v0] m IH]; simpl.
  - intros _. split; [by intros ?%elem_of_nil|done].
  - intros [Hk0 Hnd]%NoDup_cons. rewrite elem_of_cons.
    destruct (sameString k0 k) eqn:E.
    + apply sameString_true in E as ->. split.
      * intros [[= -> ]|Hin]; [done|].
        exfalso. apply Hk0. unfold OMap.keys.
        apply list_elem_of_fmap. by exists (k, v).
      * intros [= ->]. by left.
    + apply sameString_false in E. rewrite <- (IH Hnd). split.
      * intros [[= ? ?]|?]; [congruence|done].
      * by right.
Qed.

Lemma sget_Some_elem_pair k v m : sget k m = Some v → (k, v) ∈ m.
Proof.
  induction m as [|[k0 v0] m IH]; simpl; [done|].
  destruct (sameString k0 k) eqn:E.
  - apply sameString_true in E as ->. intros [= ->]. apply list_elem_of_here.
  - intros H. apply list_elem_of_further. by apply IH.
Qed.

Lemma sget_sdelete_eq k m : NoDup (OMap.keys m) → sget k (sdelete k m) = None.
Proof.
  induction m as [|[k0 v0] m IH]; simpl; [done|].
  intros [Hk0 Hnd]%NoDup_cons.
  destruct (sameString k0 k) eqn:E; simpl.
  - apply sameString_true in E as ->. by apply sget_None_not_elem.
  - rewrite E. by apply IH.
Qed.

Lemma sget_sdelete_ne k k' m : k ≠ k' → sget k' (sdelete k m) = sget k' m.
Proof.
  intros Hne. induction m as [|[k0 v0] m IH]; simpl; [done|].
  destruct (sameString k0 k) eqn:E; simpl.
  - apply sameString_true in E as ->.
    by apply sameString_false in Hne as ->.
  - by rewrite IH.
Qed.

Lemma keys_sdelete_sublist k m : OMap.keys (sdelete k m) `sublist_of` OMap.keys m.
Proof.
  induction m as [|[k0 v0] m IH]; simpl; [done|].
  destruct (sameString k0 k); simpl.
  - by apply sublist_cons.
  - by apply sublist_skip.
Qed.

Lemma sget_lookup_pair k v m : sget k m = Some v → ∃ i, m !! i = Some (k, v).
Proof. intros H%sget_Some_elem_pair. by apply list_elem_of_lookup. Qed.

End OMapMore.

(** ** [removeAgent] keeps the partition *)

Lemma releaseTerritories_keys (l : list string) (ts : smap Territory.t) :
  OMap.keys (GameState.releaseTerritories l ts) = OMap.keys ts.
Proof.
  unfold GameState.releaseTerritories.
  revert ts. induction l as [|x l IH]; intros ts; simpl; [done|].
  rewrite IH. destruct (sget x ts) eqn:E; [|done].
  apply keys_sset_present. by rewrite E.
Qed.

Lemma releaseTerritories_get (l : list string) (ts : smap Territory.t) (tid : string) :
  sget tid (GameState.releaseTerritories l ts)
  = (λ t, if bool_decide (tid ∈ l) then neutral t else t) <$> sget tid ts.
Proof.
  unfold GameState.releaseTerritories.
  revert ts. induction l as [|x l IH]; intros ts; simpl.
  - by destruct (sget tid ts).
  - rewrite IH. clear IH.
    set (step := match sget x ts with Some t => _ | None => ts end).
    destruct (decide (tid = x)) as [->|Hne].
    + assert (sget x step = neutral <$> sget x ts) as ->.
      { subst step. destruct (sget x ts) as [t|] eqn:E; simpl; [|done].
        by rewrite sget_sset_eq. }
      rewrite (bool_decide_eq_true_2 (x ∈ x :: l)) by apply list_elem_of_here.
      destruct (sget x ts) as [t|]; simpl; [|done].
      by destruct (bool_decide (x ∈ l)).
    + assert (sget tid step = sget tid ts) as ->.
      { subst step. destruct (sget x ts); [|done]. by rewrite sget_sset_ne. }
      assert (bool_decide (tid ∈ x :: l) = bool_decide (tid ∈ l)) as ->; [|done].
      apply bool_decide_ext. rewrite elem_of_cons. tauto.
Qed.

Lemma removeAgent_partitioned (agentId : string) (s : State.t) :
  partitioned s → partitioned (GameState.removeAgent agentId s).
Proof.
  intros [Htk Hak Hlive Hlists Hnd]. unfold GameState.removeAgent.
  destruct (sget agentId (State.agents s)) as [agent|] eqn:Hagent; [|done].
  assert (Hget : ∀ k, k ≠ agentId →
            sget k (sdelete agentId (State.agents s)) = sget k (State.agents s)).
  { intros k Hk. by apply sget_sdelete_ne. }
  assert (Hgone : sget agentId (sdelete agentId (State.agents s)) = None)
    by by apply sget_sdelete_eq.
  split; simpl.
  - by rewrite releaseTerritories_keys.
  - eauto using sublist_NoDup, keys_sdelete_sublist.
  - intros tid t o. rewrite releaseTerritories_get.
    destruct (sget tid (State.territories s)) as [t0|] eqn:Ht0; simpl; [|done].
    intros [= <-]. case_bool_decide as Hin; [done|]. intros Ho.
    assert (o ≠ agentId) as Hne.
    { intros ->. apply Hin. apply (Hlists _ _ _ Hagent). eauto. }
    rewrite Hget by done. by eapply Hlive.
  - intros aid a tid Ha.
    assert (aid ≠ agentId) as Hne by (intros ->; congruence).
    rewrite Hget in Ha by done.
    rewrite (Hlists _ _ tid Ha), releaseTerritories_get.
    split.
    + intros (t & Ht & Ho). rewrite Ht. simpl. eexists. split; [done|].
      rewrite bool_decide_eq_false_2; [done|].
      intros Hin. apply (Hlists _ _ _ Hagent) in Hin as (t' & Ht' & Ho').
      congruence.
    + intros (t & Ht & Ho).
      destruct (sget tid (State.territories s)) as [t0|]; simpl in Ht; [|done].
      injection Ht as <-. case_bool_decide; [done|]. eauto.
  - intros aid a Ha.
    assert (aid ≠ agentId) as Hne by (intros ->; congruence).
    rewrite Hget in Ha by done. by eapply Hnd.
Qed.

(** ** The partition only reads owners, lists and keys *)

Lemma partitioned_ext (s s' : State.t) :
  OMap.keys (State.territories s') = OMap.keys (State.territories s) →
  OMap.keys (State.agents s') = OMap.keys (State.agents s) →
  (∀ x, Territory.owner <$> sget x (State.territories s')
        = Territory.owner <$> sget x (State.territories s)) →
  (∀ a, Agent.territories <$> sget a (State.agents s')
        = Agent.territories <$> sget a (State.agents s)) →
  partitioned s → partitioned s'.
Proof.
  intros Htk Hak Howner Hlist [Htk0 Hak0 Hlive Hlists Hnd].
  assert (Hsome : ∀ o, is_Some (sget o (State.agents s')) ↔
                       is_Some (sget o (State.agents s))).
  { intros o. specialize (Hlist o).
    destruct (sget o (State.agents s')), (sget o (State.agents s));
      simpl in Hlist; try discriminate; split; intros [? ?]; eauto; done. }
  assert (Hown : ∀ x o,
            (∃ t, sget x (State.territories s') = Some t ∧ Territory.owner t = Some o)
            ↔ (∃ t, sget x (State.territories s) = Some t ∧ Territory.owner t = Some o)).
  { intros x o. specialize (Howner x).
    destruct (sget x (State.territories s')) as [t'|],
             (sget x (State.territories s)) as [t|];
      simpl in Howner; try discriminate.
    - injection Howner as Heq. split; intros (? & [= <-] & ?); eexists;
        (split; [done|congruence]).
    - split; intros (? & ? & ?); done. }
  split.
  - by rewrite Htk.
  - by rewrite Hak.
  - intros tid t o Ht Ho. apply Hsome.
    destruct (proj1 (Hown tid o)) as (t0 & Ht0 & Ho0); [eauto|].
    by eapply Hlive.
  - intros aid a tid Ha. rewrite Hown.
    specialize (Hlist aid). rewrite Ha in Hlist.
    destruct (sget aid (State.agents s)) as [a0|] eqn:Ha0; [|done].
    simpl in Hlist. injection Hlist as ->. by apply Hlists.
  - intros aid a Ha. specialize (Hlist aid). rewrite Ha in Hlist.
    destruct (sget aid (State.agents s)) as [a0|] eqn:Ha0; [|done].
    simpl in Hlist. injection Hlist as ->. by eapply Hnd.
Qed.

(** ** Applying one battle result *)

Lemma Territory_setOwner_same (t : Territory.t) :
  Territory.setOwner (Territory.owner t) t = t.
Proof. by destruct t. Qed.

Lemma applyResult_returns (tid : string) (territory : Territory.t)
    (result : BattleResult.t) (s : State.t) :
  sget tid (State.territories s) = Some territory →
  (BattleResult.winner result = Territory.owner territory
   ∨ ∃ w, BattleResult.winner result = Some w
          ∧ is_Some (sget w (State.agents s))) →
  ∃ s',
    GameState.applyResult tid territory result s = (Return tt, s')
    ∧ OMap.keys (State.agents s') = OMap.keys (State.agents s)
    ∧ OMap.keys (State.territories s') = OMap.keys (State.territories s)
    ∧ sget tid (State.territories s')
      = Some (Territory.setArmies (BattleResult.remainingArmies result)
                (Territory.setOwner (BattleResult.winner result) territory))
    ∧ (∀ other, other ≠ tid →
         sget other (State.territories s') = sget other (State.territories s))
    ∧ State.revealedMoves s' = State.revealedMoves s.
Proof.
  intros Hterritory Hwinner. unfold GameState.applyResult.
  case_bool_decide as Hsame; simpl.
  - eexists. split; [reflexivity|]. simpl.
    split; [done|]. split; [apply keys_sset_present; by rewrite Hterritory|].
    split; [by rewrite sget_sset_eq, Hsame, Territory_setOwner_same|].
    split; [|done]. intros other Hne. by apply sget_sset_ne.
  - destruct Hwinner as [?|(w & Hw & Hlive)]; [done|]. rewrite Hw.
    set (s1 := match Territory.owner territory with
               | Some o => _ | None => s end).
    assert (Hs1 : OMap.keys (State.agents s1) = OMap.keys (State.agents s)
                  ∧ State.territories s1 = State.territories s
                  ∧ State.revealedMoves s1 = State.revealedMoves s).
    { subst s1. destruct (Territory.owner territory) as [o|]; [|done].
      destruct (sget o (State.agents s)) as [old|] eqn:Hold; [|done]. simpl.
      split; [|done]. apply keys_sset_present. by rewrite Hold. }
    destruct Hs1 as (Hk1 & Ht1 & Hr1).
    assert (is_Some (sget w (State.agents s1))) as [newOwner HnewOwner].
    { apply elem_keys_sget. rewrite Hk1.
      destruct Hlive as [? Hlive]. by eapply sget_Some_elem. }
    rewrite HnewOwner. eexists. split; [reflexivity|]. simpl.
    split; [rewrite keys_sset_present by (by rewrite HnewOwner); done|].
    rewrite Ht1.
    split; [apply keys_sset_present; by rewrite Hterritory|].
    split; [by rewrite sget_sset_eq|].
    split; [|done]. intros other Hne. by apply sget_sset_ne.
Qed.

Lemma List_filter_sublist {A : Type} (f : A → bool) (l : list A) :
  List.filter f l `sublist_of` l.
Proof.
  induction l as [|x l IH]; simpl; [done|].
  destruct (f x); [by apply sublist_skip|by apply sublist_cons].
Qed.

Lemma List_filter_NoDup {A : Type} (f : A → bool) (l : list A) :
  NoDup l → NoDup (List.filter f l).
Proof. eauto using sublist_NoDup, List_filter_sublist. Qed.

Lemma elem_of_without (tid x : string) (l : list string) :
  x ∈ List.filter (λ t, negb (bool_decide (t = tid))) l ↔ x ≠ tid ∧ x ∈ l.
Proof.
  rewrite !list_elem_of_In, filter_In, negb_true_iff, bool_decide_eq_false. tauto.
Qed.

Lemma applyResult_partitioned (tid : string) (territory : Territory.t)
    (result : BattleResult.t) (s s' : State.t) :
  partitioned s →
  sget tid (State.territories s) = Some territory →
  GameState.applyResult tid territory result s = (Return tt, s') →
  partitioned s'.
Proof.
  intros Hpart Hterritory. unfold GameState.applyResult.
  case_bool_decide as Hsame; simpl.
  { intros [= <-]. apply (partitioned_ext s); simpl; auto.
    - apply keys_sset_present. by rewrite Hterritory.
    - intros x. destruct (decide (x = tid)) as [->|Hne].
      + by rewrite sget_sset_eq, Hterritory.
      + by rewrite sget_sset_ne. }
  destruct Hpart as [Htk Hak Hlive Hlists Hnd].
  destruct (BattleResult.winner result) as [w|] eqn:Hw; [|discriminate].
  set (remaining := BattleResult.remainingArmies result).
  (* the agents after the old owner has given the territory up *)
  set (s1 := match Territory.owner territory with
             | Some o => _ | None => s end).
  assert (Hs1 : State.territories s1 = State.territories s
      ∧ OMap.keys (State.agents s1) = OMap.keys (State.agents s)
      ∧ ∀ x, sget x (State.agents s1)
             = if bool_decide (Territory.owner territory = Some x)
               then (λ old,
                       Agent.setArmies
                         (JsNum.sub (Agent.armies old) (Territory.armies territory))
                         (Agent.setTerritories
                            (List.filter (λ t, negb (bool_decide (t = tid)))
                               (Agent.territories old)) old))
                    <$> sget x (State.agents s)
               else sget x (State.agents s)).
  { subst s1. destruct (Territory.owner territory) as [o|] eqn:Ho.
    - destruct (Hlive _ _ _ Hterritory Ho) as [old Hold]. rewrite Hold. simpl.
      split; [done|]. split; [apply keys_sset_present; by rewrite Hold|].
      intros x. case_bool_decide as Hx.
      + injection Hx as <-. by rewrite sget_sset_eq, Hold.
      + rewrite sget_sset_ne; [done|]. congruence.
    - split; [done|]. split; [done|]. intros x. by rewrite bool_decide_eq_false_2. }
  destruct Hs1 as (Ht1 & Hk1 & Hget1).
  destruct (sget w (State.agents s1)) as [newOwner|] eqn:Hnew1; [|discriminate].
  intros [= <-].
  assert (Hnew : sget w (State.agents s) = Some newOwner).
  { rewrite Hget1 in Hnew1. rewrite bool_decide_eq_false_2 in Hnew1; [done|].
    congruence. }
  assert (Howner_w : Territory.owner territory ≠ Some w) by congruence.
  clearbody s1.
  split; simpl.
  - rewrite Ht1. rewrite keys_sset_present; [done|]. by rewrite Hterritory.
  - rewrite keys_sset_present by (by rewrite Hnew1). by rewrite Hk1.
  - intros x t o. rewrite Ht1.
    destruct (decide (x = tid)) as [->|Hne].
    + rewrite sget_sset_eq. intros [= <-]. simpl. intros [= <-].
      rewrite sget_sset_eq. by eexists.
    + rewrite sget_sset_ne by done. intros Ht Ho.
      apply elem_keys_sget.
      rewrite keys_sset_present by (by rewrite Hnew1). rewrite Hk1.
      destruct (Hlive _ _ _ Ht Ho) as [? ?]. by eapply sget_Some_elem.
  - intros aid a x. rewrite Ht1.
    assert (Hat : ∀ p,
      (∃ t, sget x (sset tid (Territory.setArmies remaining
                                (Territory.setOwner (Some w) territory))
                      (State.territories s)) = Some t
            ∧ Territory.owner t = Some p)
      ↔ (x = tid ∧ p = w)
        ∨ (x ≠ tid ∧ ∃ t, sget x (State.territories s) = Some t
                          ∧ Territory.owner t = Some p)).
    { intros p. destruct (decide (x = tid)) as [->|Hne].
      - rewrite sget_sset_eq. split.
        + intros (t & [= <-] & Ho). simpl in Ho. left. split; congruence.
        + intros [[_ ->]|[? _]]; [|done]. eexists. split; done.
      - rewrite sget_sset_ne by done. split; [by right|].
        intros [[? _]|[_ ?]]; done. }
    rewrite Hat. clear Hat.
    destruct (decide (aid = w)) as [->|Hne_w].
    + rewrite sget_sset_eq. intros [= <-]. simpl.
      rewrite elem_of_app, list_elem_of_singleton, (Hlists _ _ x Hnew).
      split.
      * intros [(t & Ht & Ho)| ->]; [|by left].
        right. split; [|eauto]. intros ->. congruence.
      * intros [[-> _]|[_ ?]]; [by right|by left].
    + rewrite sget_sset_ne by done. rewrite Hget1.
      case_bool_decide as Hold.
      * destruct (sget aid (State.agents s)) as [old|] eqn:Hold_get; [|done].
        simpl. intros [= <-]. simpl.
        rewrite elem_of_without, (Hlists _ _ x Hold_get).
        split.
        -- intros [Hx ?]. by right.
        -- intros [[_ ->]|[? ?]]; done.
      * intros Ha. rewrite (Hlists _ _ x Ha). split.
        -- intros (t & Ht & Ho). right. split; [|eauto].
           intros ->. congruence.
        -- intros [[_ ->]|[_ ?]]; done.
  - intros aid a.
    destruct (decide (aid = w)) as [->|Hne_w].
    + rewrite sget_sset_eq. intros [= <-]. simpl.
      apply NoDup_app. split; [by eapply Hnd|]. split; [|apply NoDup_singleton].
      intros x Hx ->%list_elem_of_singleton.
      apply (Hlists _ _ _ Hnew) in Hx as (t & Ht & Ho). congruence.
    + rewrite sget_sset_ne by done. rewrite Hget1.
      case_bool_decide as Hold.
      * destruct (sget aid (State.agents s)) as [old|] eqn:Hold_get; [|done].
        simpl. intros [= <-]. simpl. apply List_filter_NoDup. by eapply Hnd.
      * intros Ha. by eapply Hnd.
Qed.

(** ** [SameValueZero] and maps keyed by arbitrary values *)

Lemma JsNum_same_refl (n : num) : JsNum.same n n = true.
Proof. destruct n; simpl; try done. apply Qeq_bool_iff. reflexivity. Qed.

Lemma JsNum_same_sym (a b : num) : JsNum.same a b = JsNum.same b a.
Proof.
  destruct a, b; simpl; try done.
  apply eq_true_iff_eq. rewrite !Qeq_bool_iff. split; intros H; by symmetry.
Qed.

Lemma JsNum_same_trans (a b c : num) :
  JsNum.same a b = true → JsNum.same b c = true → JsNum.same a c = true.
Proof.
  destruct a, b, c; simpl; try done.
  rewrite !Qeq_bool_iff. intros H1 H2. by rewrite H1.
Qed.

Lemma sameValueZero_refl (v : JsVal) : sameValueZero v v = true.
Proof.
  destruct v; simpl; try done; try (by apply bool_decide_eq_true).
  apply JsNum_same_refl.
Qed.

Lemma sameValueZero_sym (a b : JsVal) : sameValueZero a b = sameValueZero b a.
Proof.
  destruct a, b; simpl; try done; try apply JsNum_same_sym;
    apply bool_decide_ext; split; congruence.
Qed.

Lemma sameValueZero_trans (a b c : JsVal) :
  sameValueZero a b = true → sameValueZero b c = true → sameValueZero a c = true.
Proof.
  destruct a, b, c; simpl; try done; try apply JsNum_same_trans;
    rewrite !bool_decide_eq_true; congruence.
Qed.

Lemma sameValueZero_string (a b : string) :
  sameValueZero (JsString a) (JsString b) = true ↔ a = b.
Proof. simpl. by rewrite bool_decide_eq_true. Qed.

Section JsMapFacts.
Context {V : Type}.
Implicit Types (m : list (JsVal * V)) (k t : JsVal) (v : V).

Local Abbreviation jget := (OMap.get sameValueZero).
Local Abbreviation jset := (OMap.set sameValueZero).
Local Abbreviation jhas := (OMap.has sameValueZero).

Lemma jget_jset_same t k v m :
  sameValueZero t k = true → jget k (jset t v m) = Some v.
Proof.
  intros Htk. induction m as [|[k' v'] m IH]; simpl.
  - by rewrite Htk.
  - destruct (sameValueZero k' t) eqn:E; simpl.
    + by rewrite (sameValueZero_trans _ _ _ E Htk).
    + destruct (sameValueZero k' k) eqn:E'; [|done].
      rewrite sameValueZero_sym in Htk.
      by rewrite (sameValueZero_trans _ _ _ E' Htk) in E.
Qed.

Lemma jget_jset_other t k v m :
  sameValueZero t k = false → jget k (jset t v m) = jget k m.
Proof.
  intros Htk. induction m as [|[k' v'] m IH]; simpl.
  - by rewrite Htk.
  - destruct (sameValueZero k' t) eqn:E; simpl; [|by rewrite IH].
    destruct (sameValueZero k' k) eqn:E'; [|done].
    rewrite sameValueZero_sym in E.
    by rewrite (sameValueZero_trans _ _ _ E E') in Htk.
Qed.

Lemma jget_same t k m : sameValueZero t k = true → jget t m = jget k m.
Proof.
  intros Htk. induction m as [|[k' v'] m IH]; simpl; [done|].
  destruct (sameValueZero k' t) eqn:E.
  - by rewrite (sameValueZero_trans _ _ _ E Htk).
  - destruct (sameValueZero k' k) eqn:E'; [|done].
    rewrite sameValueZero_sym in Htk.
    by rewrite (sameValueZero_trans _ _ _ E' Htk) in E.
Qed.

Lemma jget_None k m :
  jget k m = None ↔ ∀ k', k' ∈ OMap.keys m → sameValueZero k' k = false.
Proof.
  induction m as [|[k0 v0] m IH]; simpl.
  - split; [|done]. by intros _ k' ?%elem_of_nil.
  - destruct (sameValueZero k0 k) eqn:E.
    + split; [done|]. intros H. rewrite H in E; [done|]. apply list_elem_of_here.
    + rewrite IH. split.
      * intros H k' [->|?]%elem_of_cons; auto.
      * intros H k' Hk'. apply H. by apply list_elem_of_further.
Qed.

Lemma jset_keys t v m :
  OMap.keys (jset t v m)
  = if jhas t m then OMap.keys m else OMap.keys m ++ [t].
Proof.
  unfold OMap.has. induction m as [|[k0 v0] m IH]; simpl; [done|].
  destruct (sameValueZero k0 t) eqn:E; simpl; [done|].
  rewrite IH. by destruct (jget t m).
Qed.

Lemma jset_distinct t v m : distinctKeys m → distinctKeys (jset t v m).
Proof.
  induction m as [|[k0 v0] m IH]; simpl.
  - intros _. split; [|done]. by intros k' ?%elem_of_nil.
  - intros [Hk0 Hm]. destruct (sameValueZero k0 t) eqn:E; simpl; [done|].
    split; [|by apply IH].
    intros k'. rewrite jset_keys. destruct (jhas t m); [by apply Hk0|].
    intros [?| ->%list_elem_of_singleton]%elem_of_app; [by apply Hk0|done].
Qed.

Lemma jget_lookup k v m : jget k m = Some v → ∃ i k0, m !! i = Some (k0, v)
                                             ∧ sameValueZero k0 k = true.
Proof.
  induction m as [|[k0 v0] m IH]; simpl; [done|].
  destruct (sameValueZero k0 k) eqn:E.
  - intros [= ->]. by exists 0%nat, k0.
  - intros (i & k1 & Hi & Hk)%IH. by exists (S i), k1.
Qed.

Lemma elem_keys_jget k m : k ∈ OMap.keys m → is_Some (jget k m).
Proof.
  induction m as [|[k0 v0] m IH]; simpl.
  - by intros ?%elem_of_nil.
  - destruct (sameValueZero k0 k) eqn:E; [by eexists|].
    intros [->|?]%elem_of_cons; [|by apply IH].
    by rewrite sameValueZero_refl in E.
Qed.

Lemma distinct_lookup_jget i k v m :
  distinctKeys m → m !! i = Some (k, v) → jget k m = Some v.
Proof.
  revert i. induction m as [|[k0 v0] m IH]; intros i; simpl; [done|].
  intros [Hk0 Hm]. destruct i as [|i]; simpl.
  - intros [= -> ->]. by rewrite sameValueZero_refl.
  - intros Hi. rewrite Hk0; [by eapply IH|].
    unfold OMap.keys. apply list_elem_of_fmap. exists (k, v).
    split; [done|]. by eapply list_elem_of_lookup_2.
Qed.

End JsMapFacts.

(** ** Grouping the attacks *)

Lemma groupAttacks_snoc (revealed : smap Revealed.t) (entry : string * Revealed.t) :
  GameState.groupAttacks (revealed ++ [entry])
  = GameState.addAttack (GameState.groupAttacks revealed) entry.
Proof. unfold GameState.groupAttacks. by rewrite foldl_app. Qed.

Lemma attacksOn_snoc (k : JsVal) (revealed : smap Revealed.t)
    (entry : string * Revealed.t) :
  attacksOn k (revealed ++ [entry])
  = attacksOn k revealed ++ (if isAttackOn k entry then [attackerOf entry] else []).
Proof.
  unfold attacksOn. rewrite List.filter_app, map_app. simpl.
  by destruct (isAttackOn k entry).
Qed.

Lemma addAttack_get (battles : list (JsVal * GameState.Battle))
    (entry : string * Revealed.t) (k : JsVal) :
  OMap.get sameValueZero k (GameState.addAttack battles entry)
  = if isAttackOn k entry then
      Some (GameState.mkBattle
              (GameState.attackers
                 (default (GameState.mkBattle []) (OMap.get sameValueZero k battles))
               ++ [attackerOf entry]))
    else OMap.get sameValueZero k battles.
Proof.
  unfold GameState.addAttack, isAttackOn.
  destruct (GameState.isString "attack" _); simpl; [|done].
  set (t := Move.to (Revealed.move entry.2)).
  set (battles1 := if OMap.has sameValueZero t battles then battles else _).
  assert (H1 : OMap.get sameValueZero t battles1
               = Some (default (GameState.mkBattle [])
                         (OMap.get sameValueZero t battles))
               ∧ ∀ k', sameValueZero t k' = false →
                   OMap.get sameValueZero k' battles1
                   = OMap.get sameValueZero k' battles).
  { subst battles1. unfold OMap.has.
    destruct (OMap.get sameValueZero t battles) as [b|] eqn:Hb; simpl.
    - by rewrite Hb.
    - split; [by rewrite jget_jset_same by apply sameValueZero_refl|].
      intros k' Hk'. by apply jget_jset_other. }
  destruct H1 as [Hget1 Hother1]. rewrite Hget1.
  destruct (sameValueZero t k) eqn:Htk.
  - rewrite jget_jset_same by done. by rewrite (jget_same t k).
  - rewrite jget_jset_other by done. by apply Hother1.
Qed.

Lemma groupAttacks_get (k : JsVal) (revealed : smap Revealed.t) :
  OMap.get sameValueZero k (GameState.groupAttacks revealed)
  = match attacksOn k revealed with
    | [] => None
    | atts => Some (GameState.mkBattle atts)
    end.
Proof.
  induction revealed as [|entry revealed IH] using rev_ind; [done|].
  rewrite groupAttacks_snoc, addAttack_get, attacksOn_snoc, IH.
  destruct (isAttackOn k entry).
  - destruct (attacksOn k revealed); done.
  - by rewrite app_nil_r.
Qed.

Lemma addAttack_distinct (battles : list (JsVal * GameState.Battle))
    (entry : string * Revealed.t) :
  distinctKeys battles → distinctKeys (GameState.addAttack battles entry).
Proof.
  intros H. unfold GameState.addAttack.
  destruct (GameState.isString "attack" _); [|done].
  set (battles1 := if OMap.has sameValueZero _ battles then battles else _).
  assert (distinctKeys battles1).
  { subst battles1. destruct (OMap.has _ _ _); [done|]. by apply jset_distinct. }
  destruct (OMap.get sameValueZero _ battles1); [|done]. by apply jset_distinct.
Qed.

Lemma groupAttacks_distinct (revealed : smap Revealed.t) :
  distinctKeys (GameState.groupAttacks revealed).
Proof.
  induction revealed as [|entry revealed IH] using rev_ind; [done|].
  rewrite groupAttacks_snoc. by apply addAttack_distinct.
Qed.

Lemma addAttack_keys (battles : list (JsVal * GameState.Battle))
    (entry : string * Revealed.t) (k : JsVal) :
  k ∈ OMap.keys (GameState.addAttack battles entry) →
  k ∈ OMap.keys battles
  ∨ (GameState.isString "attack" (Move.type (Revealed.move (snd entry))) = true
     ∧ k = Move.to (Revealed.move (snd entry))).
Proof.
  unfold GameState.addAttack.
  destruct (GameState.isString "attack" _); [|by left].
  set (t := Move.to (Revealed.move entry.2)).
  set (battles1 := if OMap.has sameValueZero t battles then battles else _).
  assert (H1 : k ∈ OMap.keys battles1 → k ∈ OMap.keys battles ∨ k = t).
  { subst battles1. destruct (OMap.has sameValueZero t battles) eqn:Hhas; [by left|].
    rewrite jset_keys, Hhas.
    intros [?| ->%list_elem_of_singleton]%elem_of_app; auto. }
  destruct (OMap.get sameValueZero t battles1) eqn:Hget.
  - rewrite jset_keys. unfold OMap.has. rewrite Hget.
    intros [?|?]%H1; auto.
  - intros [?|?]%H1; auto.
Qed.

Lemma groupAttacks_keys (revealed : smap Revealed.t) (k : JsVal) :
  k ∈ OMap.keys (GameState.groupAttacks revealed) →
  ∃ entry, entry ∈ revealed
           ∧ GameState.isString "attack" (Move.type (Revealed.move (snd entry))) = true
           ∧ k = Move.to (Revealed.move (snd entry)).
Proof.
  induction revealed as [|entry revealed IH] using rev_ind.
  - by intros ?%elem_of_nil.
  - rewrite groupAttacks_snoc. intros [Hk|[Ha Hk]]%addAttack_keys.
    + destruct (IH Hk) as (e & He & ?). exists e. rewrite elem_of_app. auto.
    + exists entry. rewrite elem_of_app, list_elem_of_singleton. auto.
Qed.

(** Each entry of the grouped map holds exactly the attacks revealed
    against its key, and there is at least one. *)
Lemma groupAttacks_entry (revealed : smap Revealed.t) (i : nat) (k : JsVal)
    (b : GameState.Battle) :
  GameState.groupAttacks revealed !! i = Some (k, b) →
  b = GameState.mkBattle (attacksOn k revealed) ∧ attacksOn k revealed ≠ [].
Proof.
  intros Hi.
  pose proof (distinct_lookup_jget _ _ _ _ (groupAttacks_distinct revealed) Hi) as Hget.
  rewrite groupAttacks_get in Hget.
  destruct (attacksOn k revealed); [done|]. by injection Hget as <-.
Qed.

(** ** Army counts *)

Lemma Qltb_lt (x y : Q) : JsNum.Qltb x y = true ↔ (x < y)%Q.
Proof.
  unfold JsNum.Qltb. rewrite negb_true_iff, <- not_true_iff_false, Qle_bool_iff.
  split; [apply Qnot_le_lt|apply Qlt_not_le].
Qed.

Lemma Qltb_ge (x y : Q) : JsNum.Qltb x y = false ↔ (y <= x)%Q.
Proof.
  unfold JsNum.Qltb. rewrite negb_false_iff, Qle_bool_iff. done.
Qed.

Lemma orOne_atLeastOne (v : JsVal) :
  v = JsUndefined ∨ (∃ n, v = JsNumber n ∧ JsNum.lt n (JsNum.ofZ 1) = false) →
  atLeastOne (GameState.orOne v).
Proof.
  intros [-> | (n & -> & Hn)]; simpl.
  - unfold JsNum.ofZ. simpl. apply Qle_refl.
  - destruct n as [q| | |]; simpl.
    + unfold JsNum.lt, JsNum.ofZ in Hn. apply Qltb_ge in Hn.
      assert (Qeq_bool q 0 = false) as ->.
      { apply not_true_iff_false. rewrite Qeq_bool_iff. intros Hq.
        rewrite Hq in Hn. by apply Qle_not_lt in Hn. }
      done.
    + unfold JsNum.ofZ. simpl. apply Qle_refl.
    + done.
    + discriminate.
Qed.









(** ** One battle *)



Lemma attackerForces_keys (atts : list GameState.Attacker) (k : string) :
  k ∈ OMap.keys (GameState.attackerForcesOf atts) →
  k ∈ map GameState.att_agentId atts.
Proof.
  unfold GameState.attackerForcesOf.
  assert (Hgen : ∀ acc : smap num,
    k ∈ OMap.keys
          (foldl (λ forces att,
                    sset (GameState.att_agentId att)
                      (JsNum.add (GameState.orZero (sget (GameState.att_agentId att) forces))
                         (GameState.att_armies att)) forces) acc atts) →
    k ∈ OMap.keys acc ∨ k ∈ map GameState.att_agentId atts).
  { induction atts as [|a atts IH]; intros acc; simpl; [by left|].
    intros [Hk|Hk]%IH; [|right; by apply list_elem_of_further].
    destruct (sget (GameState.att_agentId a) acc) eqn:Hget.
    - rewrite keys_sset_present in Hk by (by rewrite Hget). by left.
    - rewrite keys_sset_absent in Hk by done.
      apply elem_of_app in Hk as [?| ->%list_elem_of_singleton]; [by left|].
      right. apply list_elem_of_here. }
  intros [?%elem_of_nil|?]%Hgen; done.
Qed.

Lemma attackerForces_nonempty (atts : list GameState.Attacker) :
  atts ≠ [] → GameState.attackerForcesOf atts ≠ [].
Proof.
  unfold GameState.attackerForcesOf.
  assert (Hgen : ∀ (l : list GameState.Attacker) (acc : smap num), acc ≠ [] →
    foldl (λ forces att,
             sset (GameState.att_agentId att)
               (JsNum.add (GameState.orZero (sget (GameState.att_agentId att) forces))
                  (GameState.att_armies att)) forces) acc l ≠ []).
  { induction l as [|a l IH]; intros acc Hacc; simpl; [done|].
    apply IH. destruct acc as [|[k0 v0] acc]; [done|]. simpl.
    by destruct (sameString k0 _). }
  destruct atts as [|a atts]; [done|]. intros _. simpl. by apply Hgen.
Qed.




Lemma resolveBattle_returns (territory : Territory.t)
    (atts : list GameState.Attacker) (r1 r2 : RandomDraw) :
  atts ≠ [] →
  ∃ result,
    GameState.resolveBattle territory (GameState.mkBattle atts) r1 r2 = Return result
    ∧ (BattleResult.winner result = Territory.owner territory
       ∨ ∃ w, BattleResult.winner result = Some w
              ∧ w ∈ map GameState.att_agentId atts).
Proof.
  intros Hne. unfold GameState.resolveBattle. simpl.
  destruct (JsNum.gt _ _).
  - destruct (Array_sort GameState.byForceDesc (GameState.attackerForcesOf atts))
      as [|[w fw] rest] eqn:Hsort.
    { exfalso. eapply Array_sort_nonempty; [|done]. by apply attackerForces_nonempty. }
    eexists. split; [done|]. right. exists w. split; [done|].
    apply attackerForces_keys.
    assert ((w, fw) ∈ GameState.attackerForcesOf atts) as Hin.
    { rewrite <- (Array_sort_perm GameState.byForceDesc), Hsort.
      apply list_elem_of_here. }
    unfold OMap.keys. apply list_elem_of_fmap. by exists (w, fw).
  - eexists. split; [done|]. by left.
Qed.


(** ** All battles *)

Lemma distinctKeys_head_not_in_rest {V : Type} (k : JsVal) (v : V)
    (rest : list (JsVal * V)) :
  distinctKeys ((k, v) :: rest) → k ∉ OMap.keys rest.
Proof.
  intros [Hk _] Hin. specialize (Hk _ Hin).
  by rewrite sameValueZero_refl in Hk.
Qed.

Lemma resolveEach_step (rnd : nat → RandomDraw) (tid : string)
    (b : GameState.Battle) (rest : list (JsVal * GameState.Battle)) (k : nat)
    (results : list BattleResult.t) (s s1 : State.t) (territory : Territory.t)
    (result : BattleResult.t) :
  sget tid (State.territories s) = Some territory →
  GameState.resolveBattle territory b (rnd (2 * k)%nat) (rnd (2 * k + 1)%nat)
  = Return result →
  GameState.applyResult tid territory result s = (Return tt, s1) →
  GameState.resolveEach rnd ((JsString tid, b) :: rest) k results s
  = GameState.resolveEach rnd rest (S k) (results ++ [result]) s1.
Proof.
  intros H1 H2 H3. cbn [GameState.resolveEach GameState.getTerritory].
  by rewrite H1, H2, H3.
Qed.

Lemma resolveEach_spec (rnd : nat → RandomDraw)
    (battles : list (JsVal * GameState.Battle)) :
  ∀ (k : nat) (results : list BattleResult.t) (s : State.t),
  distinctKeys battles →
  (∀ key b, (key, b) ∈ battles →
     ∃ tid, key = JsString tid
            ∧ tid ∈ OMap.keys (State.territories s)
            ∧ GameState.attackers b ≠ []
            ∧ ∀ a, a ∈ GameState.attackers b →
                GameState.att_agentId a ∈ OMap.keys (State.agents s)) →
  ∃ results' s',
    GameState.resolveEach rnd battles k results s = (Return results', s')
    ∧ OMap.keys (State.agents s') = OMap.keys (State.agents s)
    ∧ OMap.keys (State.territories s') = OMap.keys (State.territories s)
    ∧ State.revealedMoves s' = State.revealedMoves s
    ∧ (partitioned s → partitioned s')
    ∧ (∀ tid, JsString tid ∉ OMap.keys battles →
         sget tid (State.territories s') = sget tid (State.territories s))
    ∧ (∀ i tid b territory,
         battles !! i = Some (JsString tid, b) →
         sget tid (State.territories s) = Some territory →
         ∃ result,
           GameState.resolveBattle territory b
             (rnd (2 * (k + i))%nat) (rnd (2 * (k + i) + 1)%nat) = Return result
           ∧ sget tid (State.territories s') = Some (afterBattle result territory)).
Proof.
  induction battles as [|[key b] battles IH]; intros k results s Hdistinct Hwf.
  { exists results, s. simpl.
    split; [done|]. split; [done|]. split; [done|]. split; [done|].
    split; [done|]. split; [done|].
    intros i tid b territory Hi. by rewrite lookup_nil in Hi. }
  destruct (Hwf key b) as (tid & -> & Htid & Hatts & Hlive);
    [apply list_elem_of_here|].
  apply elem_keys_sget in Htid as [territory Hterritory].
  destruct b as [atts]. simpl in Hatts, Hlive.
  destruct (resolveBattle_returns territory atts (rnd (2 * k)%nat)
              (rnd (2 * k + 1)%nat) Hatts) as (result & Hresult & Hwinner).
  destruct (applyResult_returns tid territory result s Hterritory)
    as (s1 & Happly & Hak & Htk & Hset & Hother & Hrev).
  { destruct Hwinner as [?|(w & Hw & Hin)]; [by left|]. right.
    exists w. split; [done|]. apply elem_keys_sget.
    apply list_elem_of_fmap in Hin as (a & -> & Ha). by apply Hlive. }
  destruct (IH (S k) (results ++ [result]) s1) as
    (results' & s' & Hrun & Hak' & Htk' & Hrev' & Hpart' & Hother' & Hbattle').
  { by destruct Hdistinct. }
  { intros key' b' Hin'.
    destruct (Hwf key' b') as (tid' & -> & ? & ? & ?);
      [by apply list_elem_of_further|].
    exists tid'. rewrite Htk, Hak. done. }
  pose proof (distinctKeys_head_not_in_rest _ _ _ Hdistinct) as Hfresh.
  exists results', s'.
  rewrite (resolveEach_step _ _ _ _ _ _ _ _ _ _ Hterritory Hresult Happly).
  split; [done|]. split; [congruence|]. split; [congruence|].
  split; [congruence|]. split; [|split].
  - intros Hpart. apply Hpart'. by eapply applyResult_partitioned.
  - intros tid' Hnot. rewrite Hother'.
    + apply Hother. intros ->. apply Hnot. apply list_elem_of_here.
    + intros Hin. apply Hnot. by apply list_elem_of_further.
  - intros i tid' b' territory' Hi Hterritory'. destruct i as [|i]; simpl in Hi.
    + injection Hi as <- <-. rewrite Hterritory in Hterritory'.
      injection Hterritory' as <-.
      exists result. rewrite Nat.add_0_r. split; [done|].
      rewrite Hother' by done. done.
    + assert (tid' ≠ tid) as Hne.
      { intros ->. apply Hfresh. unfold OMap.keys.
        apply list_elem_of_fmap. exists (JsString tid, b'). split; [done|].
        by eapply list_elem_of_lookup_2. }
      destruct (Hbattle' i tid' b' territory' Hi) as (result' & Hresult' & Hafter').
      { by rewrite Hother. }
      exists result'. split; [|done].
      by replace (k + S i)%nat with (S k + i)%nat by lia.
Qed.

(** ** The revealed attacks of a well-formed reveal set *)

Lemma attacksOn_elem (k : JsVal) (revealed : smap Revealed.t)
    (a : GameState.Attacker) :
  a ∈ attacksOn k revealed ↔
  ∃ entry, entry ∈ revealed ∧ isAttackOn k entry = true ∧ a = attackerOf entry.
Proof.
  unfold attacksOn. rewrite list_elem_of_fmap. split.
  - intros (e & -> & He). apply list_elem_of_In, filter_In in He as [He Hk].
    exists e. by rewrite list_elem_of_In.
  - intros (e & He & Hk & ->). exists e. split; [done|].
    apply list_elem_of_In, filter_In. by rewrite <- list_elem_of_In.
Qed.


Lemma revealed_attack_target (s : State.t) (entry : string * Revealed.t) :
  revealedWellFormed s →
  entry ∈ State.revealedMoves s →
  GameState.isString "attack" (Move.type (Revealed.move (snd entry))) = true →
  (∃ tid, Move.to (Revealed.move (snd entry)) = JsString tid
          ∧ tid ∈ OMap.keys (State.territories s))
  ∧ atLeastOne (GameState.orOne (Move.armies (Revealed.move (snd entry))))
  ∧ fst entry ∈ OMap.keys (State.agents s).
Proof.
  intros [Hnd Hvalid Hlive] Hin Hattack.
  pose proof (Hvalid _ Hin) as Hv.
  apply validateMove_iff in Hv as (m & [= <-] & _ & Hft & Harmies).
  assert (Move.type (Revealed.move entry.2) = JsString "attack") as Hty.
  { destruct (Move.type _); simpl in Hattack; try discriminate.
    by apply bool_decide_eq_true in Hattack as ->. }
  destruct (Hft (or_introl Hty)) as (_ & _ & _ & Hto).
  split; [|split].
  - destruct (Move.to _) as [| | | |tid|]; simpl in Hto; try discriminate.
    exists tid. split; [done|]. unfold OMap.has in Hto.
    destruct (sget tid (State.territories s)) eqn:E; [|discriminate].
    by eapply sget_Some_elem.
  - by apply orOne_atLeastOne.
  - destruct (Hlive _ Hin Hattack) as [a Ha]. by eapply sget_Some_elem.
Qed.


Lemma battles_wellformed (s : State.t) (key : JsVal) (b : GameState.Battle) :
  revealedWellFormed s →
  (key, b) ∈ GameState.groupAttacks (State.revealedMoves s) →
  ∃ tid, key = JsString tid
         ∧ tid ∈ OMap.keys (State.territories s)
         ∧ GameState.attackers b ≠ []
         ∧ ∀ a, a ∈ GameState.attackers b →
             GameState.att_agentId a ∈ OMap.keys (State.agents s).
Proof.
  intros Hwf Hin.
  assert (Hkey : key ∈ OMap.keys (GameState.groupAttacks (State.revealedMoves s))).
  { unfold OMap.keys. apply list_elem_of_fmap. by exists (key, b). }
  apply groupAttacks_keys in Hkey as (e & He & Hattack & ->).
  destruct (revealed_attack_target s e Hwf He Hattack) as ((tid & Hto & Htid) & _ & _).
  apply list_elem_of_lookup in Hin as [i Hi].
  apply groupAttacks_entry in Hi as [-> Hne].
  exists tid. split; [done|]. split; [done|]. split; [done|].
  intros a (e' & He' & Hk' & ->)%attacksOn_elem. simpl.
  apply andb_true_iff in Hk' as [Hattack' _].
  by destruct (revealed_attack_target s e' Hwf He' Hattack') as (_ & _ & ?).
Qed.

(** [resolveBattles] on a well-formed reveal set returns, and each
    contested territory ends as its own battle leaves it. *)
Lemma resolveBattles_spec (rnd : nat → RandomDraw) (s : State.t) :
  revealedWellFormed s →
  ∃ results s',
    GameState.resolveBattles rnd s = (Return results, s')
    ∧ (partitioned s → partitioned s')
    ∧ (∀ tid, attacksOn (JsString tid) (State.revealedMoves s) = [] →
         sget tid (State.territories s') = sget tid (State.territories s))
    ∧ (∀ tid territory,
         sget tid (State.territories s) = Some territory →
         attacksOn (JsString tid) (State.revealedMoves s) ≠ [] →
         ∃ i result,
           GameState.groupAttacks (State.revealedMoves s) !! i
           = Some (JsString tid,
                   GameState.mkBattle (attacksOn (JsString tid) (State.revealedMoves s)))
           ∧ GameState.resolveBattle territory
               (GameState.mkBattle (attacksOn (JsString tid) (State.revealedMoves s)))
               (rnd (2 * i)%nat) (rnd (2 * i + 1)%nat) = Return result
           ∧ sget tid (State.territories s') = Some (afterBattle result territory)).
Proof.
  intros Hwf.
  destruct (resolveEach_spec rnd (GameState.groupAttacks (State.revealedMoves s))
              0 [] s (groupAttacks_distinct _))
    as (results & s1 & Hrun & _ & _ & _ & Hpart & Hother & Hbattle).
  { intros key b Hin. by apply battles_wellformed. }
  exists results, (State.emit (battlesResolved results) s1).
  unfold GameState.resolveBattles. rewrite Hrun.
  split; [done|]. split; [|split].
  - intros Hs. apply (partitioned_ext s1); auto.
  - intros tid Hnone. simpl. apply Hother. intros Hin.
    apply elem_keys_jget in Hin. rewrite groupAttacks_get, Hnone in Hin.
    by destruct Hin.
  - intros tid territory Hterritory Hsome.
    pose proof (groupAttacks_get (JsString tid) (State.revealedMoves s)) as Hget.
    destruct (attacksOn (JsString tid) (State.revealedMoves s)) as [|a atts] eqn:Hatts;
      [done|].
    apply jget_lookup in Hget as (i & k0 & Hi & Hk0).
    assert (k0 = JsString tid) as ->.
    { assert ((k0, GameState.mkBattle (a :: atts))
              ∈ GameState.groupAttacks (State.revealedMoves s)) as Hin
        by by eapply list_elem_of_lookup_2.
      destruct (battles_wellformed _ _ _ Hwf Hin) as (tid0 & -> & _).
      by apply sameValueZero_string in Hk0 as ->. }
    destruct (Hbattle i tid _ territory Hi Hterritory) as (result & Hresult & Hafter).
    exists i, result. done.
Qed.

(** ** [resolveBattles], territory by territory *)

Lemma drawQ_range (r : RandomDraw) : (0 <= drawQ r)%Q ∧ (drawQ r < 1)%Q.
Proof.
  unfold drawQ, Qle, Qlt. simpl. rewrite Zpos_P_of_succ_nat. lia.
Qed.




(** Ten armies against one, with the attacker's sample high and the
    defender's zero: the territory changes hands and is left with
    [max(1, floor(10 * 0.6)) = 6] armies; the lists of both agents
    follow. *)
Example resolveBattles_attacker_wins :
  let '(outcome, s') :=
    GameState.resolveBattles DemoBattle.attackerLucky DemoBattle.state in
  (Territory.owner <$> sget "t2" (State.territories s')) = Some (Some "a")
  ∧ (Territory.armies <$> sget "t2" (State.territories s')) = Some (JsNum.ofZ 6)
  ∧ (Agent.territories <$> sget "a" (State.agents s')) = Some ["t1"; "t4"; "t2"]
  ∧ (Agent.territories <$> sget "b" (State.agents s')) = Some []
  ∧ (BattleResult.winner <$> match outcome with Return r => r | Throw _ => [] end)
    = [Some "a"].
Proof. vm_compute. done. Qed.

(** The reverse draws: the defender keeps the territory, with
    [max(1, floor(1 * 0.7)) = 1] army. *)
Example resolveBattles_defender_holds :
  let '(outcome, s') :=
    GameState.resolveBattles DemoBattle.defenderLucky DemoBattle.state in
  (Territory.owner <$> sget "t2" (State.territories s')) = Some (Some "b")
  ∧ (Territory.armies <$> sget "t2" (State.territories s')) = Some (JsNum.ofZ 1)
  ∧ (Agent.territories <$> sget "b" (State.agents s')) = Some ["t2"].
Proof. vm_compute. done. Qed.

(** ** [distributeTerritories] *)

Lemma swap_perm (i j : nat) (l : list string) : GameState.swap i j l ≡ₚ l.
Proof.
  unfold GameState.swap.
  destruct (l !! i) as [x|] eqn:Hi; [|done].
  destruct (l !! j) as [y|] eqn:Hj; [|done].
  by apply Permutation_insert_swap.
Qed.

Lemma shuffleFrom_perm (rnd : nat → RandomDraw) (i k : nat) (l : list string) :
  GameState.shuffleFrom rnd i k l ≡ₚ l.
Proof.
  revert k l. induction i as [|i IH]; intros k l; simpl; [done|].
  rewrite IH. apply swap_perm.
Qed.

Lemma shuffle_perm (rnd : nat → RandomDraw) (l : list string) :
  GameState.shuffle rnd l ≡ₚ l.
Proof. apply shuffleFrom_perm. Qed.

(** The index drawn by the shuffle stays inside the part of the array
    still to be shuffled. *)
Lemma randomIndex_bound (r : RandomDraw) (i : nat) :
  (GameState.randomIndex r i ≤ i)%nat.
Proof.
  unfold GameState.randomIndex.
  destruct (drawQ_range r) as [H0 H1].
  set (n := inject_Z (Z.of_nat (i + 1))).
  assert (Hn : (0 < n)%Q).
  { subst n. change 0%Q with (inject_Z 0). rewrite <- Zlt_Qlt. lia. }
  assert (Hlt : (drawQ r * n < n)%Q).
  { rewrite <- (Qmult_1_l n) at 2. by apply Qmult_lt_compat_r. }
  assert (Hfloor : Qfloor (drawQ r * n) < Z.of_nat (i + 1)).
  { rewrite Zlt_Qlt. eapply Qle_lt_trans; [apply Qfloor_le|exact Hlt]. }
  lia.
Qed.

Lemma roundRobin_some (agentIds : list string) (index : nat) :
  agentIds ≠ [] →
  ∃ aid, GameState.roundRobin agentIds index = Some aid ∧ aid ∈ agentIds.
Proof.
  intros Hne. unfold GameState.roundRobin.
  destruct agentIds as [|a0 rest] eqn:E; [done|]. rewrite <- E.
  assert (index mod length agentIds < length agentIds)%nat as Hlt.
  { apply Nat.mod_upper_bound. subst. simpl. lia. }
  apply lookup_lt_is_Some in Hlt as [aid Haid].
  exists aid. split; [done|]. by eapply list_elem_of_lookup_2.
Qed.

Lemma giveInitialResources_keys (ids : list string) (m : smap Agent.t) :
  OMap.keys (GameState.giveInitialResources ids m) = OMap.keys m.
Proof.
  unfold GameState.giveInitialResources.
  revert m. induction ids as [|x ids IH]; intros m; simpl; [done|].
  rewrite IH. destruct (sget x m) eqn:E; [|done].
  apply keys_sset_present. by rewrite E.
Qed.

Lemma giveInitialResources_lists (ids : list string) (m : smap Agent.t) (a : string) :
  Agent.territories <$> sget a (GameState.giveInitialResources ids m)
  = Agent.territories <$> sget a m.
Proof.
  unfold GameState.giveInitialResources.
  revert m. induction ids as [|x ids IH]; intros m; simpl; [done|].
  rewrite IH. destruct (sget x m) as [agent|] eqn:E; [|done].
  destruct (decide (a = x)) as [->|Hne].
  - by rewrite sget_sset_eq, E.
  - by rewrite sget_sset_ne.
Qed.

Lemma assignTerritories_spec (agentIds : list string) (tids : list string) :
  ∀ (done : list string) (index : nat) (s : State.t),
  agentIds ≠ [] →
  OMap.keys (State.agents s) = agentIds →
  NoDup (done ++ tids) →
  (∀ tid, tid ∈ tids → tid ∈ OMap.keys (State.territories s)) →
  handedOut done s →
  ∃ s',
    GameState.assignTerritories agentIds tids index s = (Return tt, s')
    ∧ OMap.keys (State.agents s') = agentIds
    ∧ OMap.keys (State.territories s') = OMap.keys (State.territories s)
    ∧ handedOut (done ++ tids) s'.
Proof.
  induction tids as [|tid rest IH]; intros done index s Hne Hkeys Hnd Htids Hinv.
  { exists s. rewrite app_nil_r. done. }
  destruct (elem_keys_sget tid (State.territories s)) as [territory Hterritory].
  { apply Htids. apply list_elem_of_here. }
  destruct (roundRobin_some agentIds index Hne) as (aid & Hrr & Haid).
  destruct (elem_keys_sget aid (State.agents s)) as [agent Hagent];
    [by rewrite Hkeys|].
  assert (Hfresh : tid ∉ done).
  { apply NoDup_app in Hnd as (_ & Hdisj & _). intros Hin.
    apply (Hdisj _ Hin). apply list_elem_of_here. }
  set (territory' := Territory.setArmies (JsNum.ofZ 3)
                       (Territory.setOwner (Some aid) territory)).
  set (agent' := Agent.setArmies (JsNum.add (Agent.armies agent) (JsNum.ofZ 3))
                   (Agent.setTerritories (Agent.territories agent ++ [tid]) agent)).
  set (s2 := State.setAgents (sset aid agent' (State.agents s))
               (State.setTerritories (sset tid territory' (State.territories s)) s)).
  assert (Hstep : GameState.assignTerritories agentIds (tid :: rest) index s
                  = GameState.assignTerritories agentIds rest (S index) s2).
  { simpl. rewrite Hterritory, Hrr. simpl. by rewrite Hagent. }
  assert (Hk2 : OMap.keys (State.agents s2) = agentIds).
  { simpl. rewrite keys_sset_present; [done|]. by rewrite Hagent. }
  assert (Ht2 : OMap.keys (State.territories s2) = OMap.keys (State.territories s)).
  { simpl. apply keys_sset_present. by rewrite Hterritory. }
  assert (Hown2 : ∀ x p,
    (∃ t, sget x (State.territories s2) = Some t ∧ Territory.owner t = Some p)
    ↔ (x = tid ∧ p = aid)
      ∨ (x ≠ tid ∧ ∃ t, sget x (State.territories s) = Some t
                        ∧ Territory.owner t = Some p)).
  { intros x p. simpl. destruct (decide (x = tid)) as [->|Hx].
    - rewrite sget_sset_eq. split.
      + intros (t & [= <-] & Ho). simpl in Ho. left. split; congruence.
      + intros [[_ ->]|[? _]]; [|done]. by eexists.
    - rewrite sget_sset_ne by done. split; [by right|].
      intros [[? _]|[_ ?]]; done. }
  assert (Hag2 : ∀ b, sget b (State.agents s2)
                      = if decide (b = aid) then Some agent'
                        else sget b (State.agents s)).
  { intros b. simpl. case_decide as Hb.
    - subst. by rewrite sget_sset_eq.
    - by rewrite sget_sset_ne. }
  assert (Hlist' : Agent.territories agent' = Agent.territories agent ++ [tid])
    by done.
  clearbody s2 agent'.
  destruct Hinv as [Hlists Howners].
  assert (Hinv2 : handedOut (done ++ [tid]) s2).
  { split.
    - intros b a Ha. rewrite Hag2 in Ha. case_decide as Hb.
      + subst b. injection Ha as <-. rewrite Hlist'.
        destruct (Hlists _ _ Hagent) as [Hnd_a Hmem].
        split.
        * apply NoDup_app. split; [done|]. split; [|apply NoDup_singleton].
          intros x Hx ->%list_elem_of_singleton.
          apply Hmem in Hx as [? _]. done.
        * intros x. rewrite !elem_of_app, !list_elem_of_singleton, Hown2, Hmem.
          split.
          -- intros [[Hd (t & Ht & Ho)]| ->]; [|by split; [right|left]].
             split; [by left|]. right. split; [|eauto]. by intros ->.
          -- intros [Hin [[-> _]|[Hx Ho]]]; [by right|]. left.
             destruct Hin as [Hd|Heq]; [by split|done].
      + destruct (Hlists _ _ Ha) as [Hnd_a Hmem]. split; [done|].
        intros x. rewrite elem_of_app, list_elem_of_singleton, Hown2, Hmem.
        split.
        * intros [Hd (t & Ht & Ho)]. split; [by left|].
          right. split; [|eauto]. by intros ->.
        * intros [Hin [[_ Hba]|[Hx Ho]]]; [done|].
          destruct Hin as [Hd|Heq]; [by split|done].
    - intros x Hx.
      assert (Hcases : (x = tid) ∨ (x ≠ tid ∧ x ∈ done)).
      { apply elem_of_app in Hx as [Hd| ->%list_elem_of_singleton]; [|by left].
        right. split; [by intros ->|done]. }
      rewrite Hk2. destruct Hcases as [->|[Hne_x Hd]].
      + destruct (proj2 (Hown2 tid aid)) as (t & Ht & Ho); [by left|].
        exists t, aid. done.
      + destruct (Howners _ Hd) as (t & o & Ht & Ho & Hlive).
        destruct (proj2 (Hown2 x o)) as (t' & Ht' & Ho'); [right; eauto|].
        exists t', o. rewrite <- Hkeys. done. }
  destruct (IH (done ++ [tid]) (S index) s2) as (s' & Hrun & Hk' & Ht' & Hinv');
    auto.
  { by rewrite <- app_assoc. }
  { intros x Hx. rewrite Ht2. apply Htids. by apply list_elem_of_further. }
  exists s'. rewrite Hstep. split; [done|]. split; [done|].
  split; [congruence|]. by rewrite <- app_assoc in Hinv'.
Qed.

Lemma distributeTerritories_partitioned (rnd : nat → RandomDraw) (s : State.t) :
  readyToDistribute s →
  ∃ s', GameState.distributeTerritories rnd s = (Return tt, s')
        ∧ partitioned s'
        ∧ OMap.keys (State.territories s') = OMap.keys (State.territories s)
        ∧ OMap.keys (State.agents s') = OMap.keys (State.agents s)
        ∧ ∀ tid, tid ∈ OMap.keys (State.territories s) →
            ∃ t o, sget tid (State.territories s') = Some t
                   ∧ Territory.owner t = Some o.
Proof.
  intros [Htk Hak Hsome Hnothing].
  set (tids := GameState.shuffle rnd (OMap.keys (State.territories s))).
  assert (Hperm : tids ≡ₚ OMap.keys (State.territories s)) by apply shuffle_perm.
  destruct (assignTerritories_spec (OMap.keys (State.agents s)) tids [] 0 s)
    as (s1 & Hrun & Hk1 & Ht1 & [Hlists Howners]).
  { intros Hnil. apply Hsome. destruct (State.agents s); [done|discriminate]. }
  { done. }
  { simpl. by rewrite Hperm. }
  { intros tid Hin. by rewrite <- Hperm. }
  { split.
    - intros aid a Ha. rewrite (Hnothing _ _ Ha). split; [constructor|].
      intros tid. split; [by intros ?%elem_of_nil|by intros [?%elem_of_nil _]].
    - by intros tid ?%elem_of_nil. }
  simpl in Hlists, Howners.
  assert (Hpart1 : partitioned s1).
  { split.
    - by rewrite Ht1.
    - by rewrite Hk1.
    - intros tid t o Ht Ho.
      assert (tid ∈ tids) as Hin.
      { rewrite Hperm, <- Ht1. by eapply sget_Some_elem. }
      destruct (Howners _ Hin) as (t0 & o0 & Ht0 & Ho0 & Hlive).
      apply elem_keys_sget. congruence.
    - intros aid a tid Ha. destruct (Hlists _ _ Ha) as [_ Hmem].
      rewrite Hmem. split; [by intros [_ ?]|].
      intros (t & Ht & Ho). split; [|eauto].
      rewrite Hperm, <- Ht1. by eapply sget_Some_elem.
    - intros aid a Ha. by destruct (Hlists _ _ Ha). }
  eexists. unfold GameState.distributeTerritories. fold tids. rewrite Hrun.
  split; [reflexivity|]. split; [|split; [|split]].
  - apply (partitioned_ext s1); simpl; auto.
    + apply giveInitialResources_keys.
    + intros a. apply giveInitialResources_lists.
  - done.
  - simpl. by rewrite giveInitialResources_keys.
  - intros tid Hin. simpl.
    assert (tid ∈ tids) as Hin' by by rewrite Hperm.
    destruct (Howners _ Hin') as (t & o & Ht & Ho & _). eauto.
Qed.

(** ** The partition as one list *)

Lemma elem_of_ownedLists (s : State.t) (x : string) :
  NoDup (OMap.keys (State.agents s)) →
  x ∈ ownedLists s ↔
  ∃ aid a, sget aid (State.agents s) = Some a ∧ x ∈ Agent.territories a.
Proof.
  intros Hnd. unfold ownedLists, OMap.values.
  rewrite list_elem_of_In, in_concat. split.
  - intros (l & Hl & Hx). apply in_map_iff in Hl as (a & <- & Ha).
    apply in_map_iff in Ha as ([aid a'] & <- & Hin).
    exists aid, a'. split; [|by apply list_elem_of_In].
    apply sget_elem; [done|]. by apply list_elem_of_In.
  - intros (aid & a & Ha & Hx). exists (Agent.territories a).
    split; [|by apply list_elem_of_In].
    apply in_map_iff. exists a. split; [done|].
    apply in_map_iff. exists (aid, a). split; [done|].
    apply list_elem_of_In. by apply sget_elem.
Qed.

Lemma elem_of_unowned (s : State.t) (x : string) :
  NoDup (OMap.keys (State.territories s)) →
  x ∈ unowned s ↔
  ∃ t, sget x (State.territories s) = Some t ∧ Territory.owner t = None.
Proof.
  intros Hnd. unfold unowned, OMap.keys. rewrite list_elem_of_fmap. split.
  - intros ([k t] & -> & Hin). simpl.
    apply list_elem_of_In, filter_In in Hin as [Hin Ho].
    exists t. split; [|by apply bool_decide_eq_true in Ho].
    apply sget_elem; [done|]. by apply list_elem_of_In.
  - intros (t & Ht & Ho). exists (x, t). split; [done|].
    apply list_elem_of_In, filter_In. split.
    + apply list_elem_of_In. by apply sget_elem.
    + by apply bool_decide_eq_true.
Qed.

Lemma NoDup_ownedLists (m : smap Agent.t) :
  NoDup (OMap.keys m) →
  (∀ aid a, (aid, a) ∈ m → NoDup (Agent.territories a)) →
  (∀ aid a bid b x, (aid, a) ∈ m → (bid, b) ∈ m →
     x ∈ Agent.territories a → x ∈ Agent.territories b → aid = bid) →
  NoDup (concat (map Agent.territories (OMap.values m))).
Proof.
  induction m as [|[k a] m IH]; simpl; [constructor|].
  intros [Hk Hnd]%NoDup_cons Hlists Hdisj.
  apply NoDup_app. split; [|split].
  - apply (Hlists k). apply list_elem_of_here.
  - intros x Hx Hin.
    apply list_elem_of_In, in_concat in Hin as (l & Hl & Hxl).
    apply in_map_iff in Hl as (b & <- & Hb).
    apply in_map_iff in Hb as ([bid b'] & <- & Hin).
    apply list_elem_of_In in Hin, Hxl.
    assert (k = bid) as ->.
    { apply (Hdisj k a bid b' x); auto.
      - apply list_elem_of_here.
      - by apply list_elem_of_further. }
    apply Hk. unfold OMap.keys. apply list_elem_of_fmap. by exists (bid, b').
  - apply IH; [done|..].
    + intros aid a' Hin. apply (Hlists aid). by apply list_elem_of_further.
    + intros aid a' bid b x Ha Hb. apply (Hdisj aid a' bid b x);
        by apply list_elem_of_further.
Qed.

(** In a partitioned state the territory lists of the agents together
    with the unowned territories are the territories of the map, each
    exactly once. *)
Lemma partitioned_permutation (s : State.t) :
  partitioned s →
  NoDup (ownedLists s ++ unowned s)
  ∧ ownedLists s ++ unowned s ≡ₚ OMap.keys (State.territories s).
Proof.
  intros [Htk Hak Hlive Hlists Hnd].
  assert (Hdup : NoDup (ownedLists s ++ unowned s)).
  { apply NoDup_app. split; [|split].
    - apply NoDup_ownedLists; [done|..].
      + intros aid a Ha%sget_elem; [|done]. by eapply Hnd.
      + intros aid a bid b x Ha%sget_elem Hb%sget_elem Hxa Hxb; [|done..].
        apply (Hlists _ _ _ Ha) in Hxa as (t & Ht & Ho).
        apply (Hlists _ _ _ Hb) in Hxb as (t' & Ht' & Ho'). congruence.
    - intros x (aid & a & Ha & Hx)%elem_of_ownedLists
                (t & Ht & Ho)%elem_of_unowned; [|done..].
      apply (Hlists _ _ _ Ha) in Hx as (t' & Ht' & Ho'). congruence.
    - unfold unowned. eapply sublist_NoDup; [exact Htk|].
      unfold OMap.keys. apply (fmap_sublist fst), List_filter_sublist. }
  split; [done|].
  apply NoDup_Permutation; [done|done|].
  intros x. rewrite elem_of_app, elem_of_ownedLists, elem_of_unowned by done.
  split.
  - intros [(aid & a & Ha & Hx)|(t & Ht & _)].
    + apply (Hlists _ _ _ Ha) in Hx as (t & Ht & _). by eapply sget_Some_elem.
    + by eapply sget_Some_elem.
  - intros [t Ht]%elem_keys_sget.
    destruct (Territory.owner t) as [o|] eqn:Ho; [|right; eauto].
    left. destruct (Hlive _ _ _ Ht Ho) as [a Ha].
    exists o, a. split; [done|]. apply (Hlists _ _ _ Ha). eauto.
Qed.

(** ** The methods that leave owners and lists alone *)

Lemma partitioned_same_maps (s s' : State.t) :
  State.territories s' = State.territories s →
  State.agents s' = State.agents s →
  partitioned s → partitioned s'.
Proof.
  intros Ht Ha. apply partitioned_ext; intros; by rewrite ?Ht, ?Ha.
Qed.

Lemma other_methods_partitioned (s : State.t) :
  partitioned s →
  (∀ now phase, partitioned (GameState.setPhase phase now s))
  ∧ (∀ now, partitioned (GameState.endTurn now s))
  ∧ (∀ now, partitioned (snd (GameState.revealMoves now s)))
  ∧ (∀ now, partitioned (snd (GameState.checkWinCondition now s)))
  ∧ (∀ sha256Json agentId move signature now,
       partitioned (snd (GameState.commitMove sha256Json agentId move signature now s)))
  ∧ (∀ agentId, partitioned (snd (GameState.calculateReinforcements agentId s))).
Proof.
  intros Hs. split; [|split; [|split; [|split; [|split]]]].
  - intros now phase. by apply (partitioned_same_maps s).
  - intros now. by apply (partitioned_same_maps s).
  - intros now. unfold GameState.revealMoves.
    destruct (negb _); [done|]. by apply (partitioned_same_maps s).
  - intros now.
    assert (Hdeclare : ∀ type agent,
               partitioned (snd (GameState.declare type agent now s)))
      by (intros; by apply (partitioned_same_maps s)).
    unfold GameState.checkWinCondition.
    assert (Hrest : partitioned (snd
      match List.find (GameState.dominates (OMap.size (State.territories s)))
                      (GameState.getActiveAgents s) with
      | Some agent => GameState.declare domination agent now s
      | None =>
          if (State.maxTurns s <=? State.turn s)%Z then
            match Array_sort GameState.byTerritoriesDesc
                             (GameState.getActiveAgents s) with
            | winner :: _ => GameState.declare turns winner now s
            | [] => (Throw (TypeError "Cannot read properties of undefined"), s)
            end
          else (Return None, s)
      end)).
    { destruct (List.find _ _); [apply Hdeclare|].
      destruct (_ <=? _)%Z; [|done].
      destruct (Array_sort _ _); [done|apply Hdeclare]. }
    destruct (GameState.getActiveAgents s) as [|a [|b l]];
      [exact Hrest|apply Hdeclare|exact Hrest].
  - intros sha256Json agentId move signature now. unfold GameState.commitMove.
    destruct (negb _); [done|]. destruct (negb _); [done|].
    destruct move as [|m]; [done|]. simpl.
    destruct (bool_decide _); by apply (partitioned_same_maps s).
  - intros agentId. unfold GameState.calculateReinforcements.
    destruct (sget agentId (State.agents s)) as [agent|] eqn:Hagent; [|done].
    destruct (Agent.eliminated agent); [done|].
    destruct (State.continents s); [|done]. simpl.
    apply (partitioned_ext s); simpl; auto.
    + apply keys_sset_present. by rewrite Hagent.
    + intros a. destruct (decide (a = agentId)) as [->|Hne].
      * by rewrite sget_sset_eq, Hagent.
      * by rewrite sget_sset_ne.
Qed.

(** C5.  The partition of the map - every territory unowned or owned by
    an agent of the match, the territory lists of the agents agreeing
    with the owner fields, no territory twice - is established by
    [distributeTerritories] on a match whose agents hold no territory
    yet, and is kept by [resolveBattles] (when the revealed moves pass
    [validateMove] and every revealed attack is by an agent of the
    match), by [removeAgent] and by every other method that runs during
    a turn; and
    in a partitioned state the lists of all agents followed by the
    unowned territories are a rearrangement, without repeats, of the
    territories of the map. *)
Theorem C5_partition_invariant :
  (∀ rnd s, readyToDistribute s →
     ∃ s', GameState.distributeTerritories rnd s = (Return tt, s')
           ∧ partitioned s')
  ∧ (∀ rnd s, partitioned s → revealedWellFormed s →
       ∃ results s', GameState.resolveBattles rnd s = (Return results, s')
                     ∧ partitioned s')
  ∧ (∀ agentId s, partitioned s → partitioned (GameState.removeAgent agentId s))
  ∧ (∀ s, partitioned s →
       (∀ now phase, partitioned (GameState.setPhase phase now s))
       ∧ (∀ now, partitioned (GameState.endTurn now s))
       ∧ (∀ now, partitioned (snd (GameState.revealMoves now s)))
       ∧ (∀ now, partitioned (snd (GameState.checkWinCondition now s)))
       ∧ (∀ sha256Json agentId move signature now,
            partitioned
              (snd (GameState.commitMove sha256Json agentId move signature now s)))
       ∧ (∀ agentId, partitioned (snd (GameState.calculateReinforcements agentId s))))
  ∧ (∀ s, partitioned s →
       (∀ tid t, sget tid (State.territories s) = Some t →
          Territory.owner t = None
          ∨ ∃ o, Territory.owner t = Some o ∧ is_Some (sget o (State.agents s)))
       ∧ NoDup (ownedLists s ++ unowned s)
       ∧ ownedLists s ++ unowned s ≡ₚ OMap.keys (State.territories s)).
Proof.
  split; [|split; [|split; [|split]]].
  - intros rnd s Hready.
    destruct (distributeTerritories_partitioned rnd s Hready) as (s' & ? & ? & _).
    by exists s'.
  - intros rnd s Hs Hwf.
    destruct (resolveBattles_spec rnd s Hwf) as (results & s' & Hrun & Hpart & _).
    exists results, s'. auto.
  - intros agentId s. apply removeAgent_partitioned.
  - intros s. apply other_methods_partitioned.
  - intros s Hs. split; [|by apply partitioned_permutation].
    intros tid t Ht. destruct (Territory.owner t) as [o|] eqn:Ho; [|by left].
    right. exists o. split; [done|]. by eapply (owner_is_live s Hs).
Qed.

Lemma Demo_lobby_ready : readyToDistribute Demo.lobby.
Proof.
  split.
  - apply (bool_decide_unpack _). by vm_compute.
  - apply (bool_decide_unpack _). by vm_compute.
  - done.
  - intros aid a Hget. unfold Demo.lobby in Hget. simpl in Hget.
    repeat (case_match; simplify_eq; try done).
Qed.

Lemma C5_witness :
  readyToDistribute Demo.lobby
  ∧ ∃ s', GameState.distributeTerritories (λ _, Demo.low) Demo.lobby
          = (Return tt, s')
          ∧ partitioned s'
          ∧ ownedLists s' ++ unowned s' ≡ₚ OMap.keys (State.territories s').
Proof.
  split; [exact Demo_lobby_ready|].
  destruct C5_partition_invariant as (Hdistribute & _ & _ & _ & Hlists).
  destruct (Hdistribute (λ _, Demo.low) Demo.lobby Demo_lobby_ready)
    as (s' & Hrun & Hs').
  exists s'. split; [exact Hrun|]. split; [exact Hs'|].
  exact (proj2 (proj2 (Hlists s' Hs'))).
Defined.

(** The four territories of the lobby dealt to its three agents, the
    draws all zero: every territory has an owner and the lists mirror the
    owners. *)
Example distributeTerritories_lobby :
  map (λ kt, (fst kt, Territory.owner (snd kt))) (State.territories DemoTwice.dealt)
  = [("t1", Some "a"); ("t2", Some "a"); ("t3", Some "b"); ("t4", Some "c")]
  ∧ map (λ ka, (fst ka, Agent.territories (snd ka))) (State.agents DemoTwice.dealt)
    = [("a", ["t2"; "t1"]); ("b", ["t3"]); ("c", ["t4"])].
Proof. by vm_compute. Qed.

(** A second deal pushes onto the lists that the first one filled. *)
Example distributeTerritories_twice :
  map (λ ka, (fst ka, Agent.territories (snd ka))) (State.agents DemoTwice.dealtAgain)
  = [("a", ["t2"; "t1"; "t2"; "t1"]); ("b", ["t3"; "t3"]); ("c", ["t4"; "t4"])].
Proof. by vm_compute. Qed.

(** The attack of an id that is no agent: [commitMove] stores it,
    [resolveBattles] takes [t3] off the list of its owner and then fails
    on the missing new owner, with the owner field still in place. *)
Example resolveBattles_unknown_attacker :
  State.phase DemoGhost.committed = "commit"
  ∧ OMap.keys (State.revealedMoves DemoGhost.revealed) = ["ghost"]
  ∧ fst DemoGhost.resolved = Throw (TypeError "newOwner is undefined")
  ∧ map (λ kt, (fst kt, Territory.owner (snd kt)))
        (State.territories (snd DemoGhost.resolved))
    = [("t1", Some "a"); ("t2", Some "a"); ("t3", Some "b"); ("t4", Some "c")]
  ∧ map (λ ka, (fst ka, Agent.territories (snd ka)))
        (State.agents (snd DemoGhost.resolved))
    = [("a", ["t2"; "t1"]); ("b", []); ("c", ["t4"])].
Proof. by vm_compute. Qed.

Lemma DemoTwice_dealt_partitioned : partitioned DemoTwice.dealt.
Proof.
  destruct (distributeTerritories_partitioned (λ _, Demo.low) Demo.lobby
              Demo_lobby_ready) as (s' & Hrun & Hs' & _).
  unfold DemoTwice.dealt. by rewrite Hrun.
Qed.

Lemma DemoGhost_revealed_partitioned : partitioned DemoGhost.revealed.
Proof.
  unfold DemoGhost.revealed, DemoGhost.committed.
  apply other_methods_partitioned.
  apply other_methods_partitioned.
  apply other_methods_partitioned.
  apply other_methods_partitioned.
  apply DemoTwice_dealt_partitioned.
Qed.

(** C5, as stated, fails twice.  A second [distributeTerritories] on a
    partitioned match leaves every territory twice on the list of its
    owner; and [resolveBattles], given the revealed attack of an id that
    is no agent of the match, stops with [t3] gone from the list of the
    agent who still owns it. *)
Lemma C5_counterexample :
  (partitioned DemoTwice.dealt ∧ ¬ partitioned DemoTwice.dealtAgain)
  ∧ (partitioned DemoGhost.revealed ∧ ¬ partitioned (snd DemoGhost.resolved)).
Proof.
  split; split.
  - apply DemoTwice_dealt_partitioned.
  - intros [_ _ _ _ Hnd].
    assert (∃ a, sget "b" (State.agents DemoTwice.dealtAgain) = Some a
                 ∧ Agent.territories a = ["t3"; "t3"])
      as (a & Hget & Hlist) by (vm_compute; eauto).
    specialize (Hnd "b" a Hget). rewrite Hlist in Hnd.
    apply NoDup_cons in Hnd as [Hnot _]. apply Hnot. left.
  - apply DemoGhost_revealed_partitioned.
  - intros [_ _ _ Hlists _].
    assert (∃ a, sget "b" (State.agents (snd DemoGhost.resolved)) = Some a
                 ∧ Agent.territories a = [])
      as (a & Hget & Hlist) by (vm_compute; eauto).
    assert (∃ t, sget "t3" (State.territories (snd DemoGhost.resolved)) = Some t
                 ∧ Territory.owner t = Some "b") as Hown by (vm_compute; eauto).
    apply (Hlists "b" a "t3" Hget) in Hown. rewrite Hlist in Hown.
    by apply elem_of_nil in Hown.
Qed.

(** * More properties *)

(** ** Maps written in place *)

Section OMapWrites.
Context {V : Type}.
Implicit Types (m : smap V) (k : string) (v : V).

Lemma NoDup_keys_sset k v m :
  NoDup (OMap.keys m) → NoDup (OMap.keys (sset k v m)).
Proof.
  intros Hnd. destruct (sget k m) as [v0|] eqn:Hget.
  - rewrite keys_sset_present by (by rewrite Hget). done.
  - rewrite keys_sset_absent by done.
    apply NoDup_app. split; [done|]. split; [|apply NoDup_singleton].
    intros x Hx ->%list_elem_of_singleton.
    by apply sget_None_not_elem in Hget.
Qed.

Lemma size_sset_le k v m : (OMap.size (sset k v m) ≤ S (OMap.size m))%nat.
Proof.
  unfold OMap.size. induction m as [|[k0 v0] m IH]; simpl; [lia|].
  destruct (sameString k0 k); simpl; lia.
Qed.

Lemma size_keys m : OMap.size m = length (OMap.keys m).
Proof. unfold OMap.size, OMap.keys. by rewrite length_map. Qed.

Lemma size_sdelete_le k m : (OMap.size (sdelete k m) ≤ OMap.size m)%nat.
Proof.
  rewrite !size_keys. apply sublist_length, keys_sdelete_sublist.
Qed.

Lemma NoDup_keys_sdelete k m :
  NoDup (OMap.keys m) → NoDup (OMap.keys (sdelete k m)).
Proof. intros H. eapply sublist_NoDup; [done|]. apply keys_sdelete_sublist. Qed.

(** [new Map(entries)] gives the entries back when no key repeats. *)
Lemma foldl_sset_fresh (acc m : smap V) :
  NoDup (OMap.keys (acc ++ m)) →
  foldl (λ a kv, sset (fst kv) (snd kv) a) acc m = acc ++ m.
Proof.
  revert acc. induction m as [|[k v] m IH]; intros acc Hnd; simpl.
  - by rewrite app_nil_r.
  - assert (Hfresh : sget k acc = None).
    { apply sget_None_not_elem. unfold OMap.keys in *.
      rewrite fmap_app in Hnd. apply NoDup_app in Hnd as (_ & Hdisj & _).
      intros Hin. apply (Hdisj _ Hin). simpl. apply list_elem_of_here. }
    assert (Hset : sset k v acc = acc ++ [(k, v)]).
    { clear -Hfresh. induction acc as [|[k0 v0] acc IH]; simpl in *; [done|].
      destruct (sameString k0 k); [done|]. by rewrite IH. }
    rewrite Hset, IH; rewrite <- app_assoc; done.
Qed.

Lemma Map_ofEntries_id m :
  NoDup (OMap.keys m) → GameStateMore.Map_ofEntries m = m.
Proof. intros H. unfold GameStateMore.Map_ofEntries. by rewrite foldl_sset_fresh. Qed.

End OMapWrites.

(** ** Agents updated in place *)

Lemma agentsUpdated_refl (m : smap Agent.t) : agentsUpdated m m.
Proof. split; [done|]. intros k a Ha. by exists a. Qed.

Lemma agentsUpdated_trans (m1 m2 m3 : smap Agent.t) :
  agentsUpdated m1 m2 → agentsUpdated m2 m3 → agentsUpdated m1 m3.
Proof.
  intros [Hk12 H12] [Hk23 H23]. split; [congruence|].
  intros k a3 Ha3. destruct (H23 _ _ Ha3) as (a2 & Ha2 & Hid & Hel).
  destruct (H12 _ _ Ha2) as (a1 & Ha1 & Hid' & Hel').
  exists a1. split; [done|]. split; congruence.
Qed.

Lemma agentsUpdated_sset (m : smap Agent.t) (k : string) (a a' : Agent.t) :
  sget k m = Some a →
  Agent.id a' = Agent.id a → Agent.eliminated a' = Agent.eliminated a →
  agentsUpdated m (sset k a' m).
Proof.
  intros Hget Hid Hel. split.
  - apply keys_sset_present. by rewrite Hget.
  - intros k0 a0. destruct (decide (k0 = k)) as [->|Hne].
    + rewrite sget_sset_eq. intros [= <-]. by exists a.
    + rewrite sget_sset_ne by done. intros Ha0. by exists a0.
Qed.

Lemma assignTerritories_updates (agentIds tids : list string) :
  ∀ (index : nat) (s : State.t),
    let s' := snd (GameState.assignTerritories agentIds tids index s) in
    agentsUpdated (State.agents s) (State.agents s')
    ∧ OMap.keys (State.territories s') = OMap.keys (State.territories s).
Proof.
  induction tids as [|tid tids IH]; intros index s; simpl.
  { split; [apply agentsUpdated_refl|done]. }
  destruct (sget tid (State.territories s)) as [territory|] eqn:Ht; simpl;
    [|split; [apply agentsUpdated_refl|done]].
  assert (Hkeys : ∀ v, OMap.keys (sset tid v (State.territories s))
                       = OMap.keys (State.territories s))
    by (intros v; apply keys_sset_present; by rewrite Ht).
  destruct (GameState.roundRobin agentIds index) as [aid|]; simpl;
    [|split; [apply agentsUpdated_refl|apply Hkeys]].
  destruct (sget aid (State.agents s)) as [agent|] eqn:Ha; simpl;
    [|split; [apply agentsUpdated_refl|apply Hkeys]].
  match goal with
  | |- context [GameState.assignTerritories _ _ _ ?s1] =>
      destruct (IH (S index) s1) as [Hup Hk]
  end.
  split.
  - eapply agentsUpdated_trans; [|exact Hup]. simpl.
    by eapply agentsUpdated_sset.
  - rewrite Hk. simpl. apply Hkeys.
Qed.

Lemma giveInitialResources_updates (ids : list string) (m : smap Agent.t) :
  agentsUpdated m (GameState.giveInitialResources ids m).
Proof.
  unfold GameState.giveInitialResources. revert m.
  induction ids as [|aid ids IH]; intros m; simpl; [apply agentsUpdated_refl|].
  destruct (sget aid m) as [agent|] eqn:Ha; [|apply IH].
  eapply agentsUpdated_trans; [|apply IH]. by eapply agentsUpdated_sset.
Qed.

Lemma distributeTerritories_updates (rnd : nat → RandomDraw) (s : State.t) :
  let s' := snd (GameState.distributeTerritories rnd s) in
  agentsUpdated (State.agents s) (State.agents s')
  ∧ OMap.keys (State.territories s') = OMap.keys (State.territories s).
Proof.
  unfold GameState.distributeTerritories.
  pose proof (assignTerritories_updates (OMap.keys (State.agents s))
                (GameState.shuffle rnd (OMap.keys (State.territories s))) 0 s)
    as [Hup Hk].
  destruct (GameState.assignTerritories _ _ _ _) as [[[]|e] s1]; simpl in *.
  - split; [|done]. eapply agentsUpdated_trans; [exact Hup|].
    apply giveInitialResources_updates.
  - done.
Qed.

Lemma applyResult_updates (tid : string) (territory : Territory.t)
    (result : BattleResult.t) (s : State.t) :
  sget tid (State.territories s) = Some territory →
  let s' := snd (GameState.applyResult tid territory result s) in
  agentsUpdated (State.agents s) (State.agents s')
  ∧ OMap.keys (State.territories s') = OMap.keys (State.territories s).
Proof.
  intros Ht. unfold GameState.applyResult.
  assert (Hkeys : ∀ v, OMap.keys (sset tid v (State.territories s))
                       = OMap.keys (State.territories s))
    by (intros v; apply keys_sset_present; by rewrite Ht).
  destruct (negb _); simpl; [|split; [apply agentsUpdated_refl|apply Hkeys]].
  set (s1 := match Territory.owner territory with
             | Some o => _ | None => s end).
  assert (Hs1 : agentsUpdated (State.agents s) (State.agents s1)
                ∧ State.territories s1 = State.territories s).
  { subst s1. destruct (Territory.owner territory) as [o|];
      [|split; [apply agentsUpdated_refl|done]].
    destruct (sget o (State.agents s)) as [oldOwner|] eqn:Ho;
      [|split; [apply agentsUpdated_refl|done]].
    split; [|done]. simpl. by eapply agentsUpdated_sset. }
  destruct Hs1 as [Hup1 Ht1]. clearbody s1.
  destruct (BattleResult.winner result) as [w|]; simpl; [|by rewrite Ht1].
  destruct (sget w (State.agents s1)) as [newOwner|] eqn:Hw; simpl;
    [|by rewrite Ht1].
  split.
  - eapply agentsUpdated_trans; [exact Hup1|]. by eapply agentsUpdated_sset.
  - rewrite Ht1. apply Hkeys.
Qed.

Lemma resolveEach_updates (rnd : nat → RandomDraw)
    (battles : list (JsVal * GameState.Battle)) :
  ∀ (k : nat) (results : list BattleResult.t) (s : State.t),
    let s' := snd (GameState.resolveEach rnd battles k results s) in
    agentsUpdated (State.agents s) (State.agents s')
    ∧ OMap.keys (State.territories s') = OMap.keys (State.territories s).
Proof.
  induction battles as [|[key b] battles IH]; intros k results s;
    cbn [GameState.resolveEach].
  { split; [apply agentsUpdated_refl|done]. }
  unfold GameState.getTerritory.
  destruct key; try (split; [apply agentsUpdated_refl|done]).
  destruct (sget s0 (State.territories s)) as [territory|] eqn:Ht;
    [|split; [apply agentsUpdated_refl|done]].
  destruct (GameState.resolveBattle _ _ _ _) as [result|e];
    [|split; [apply agentsUpdated_refl|done]].
  pose proof (applyResult_updates s0 territory result s Ht) as [Hup Hk].
  destruct (GameState.applyResult s0 territory result s) as [[[]|e] s1];
    simpl in Hup, Hk; [|done].
  destruct (IH (S k) (results ++ [result]) s1) as [Hup' Hk'].
  split; [by eapply agentsUpdated_trans|congruence].
Qed.

Lemma resolveBattles_updates (rnd : nat → RandomDraw) (s : State.t) :
  let s' := snd (GameState.resolveBattles rnd s) in
  agentsUpdated (State.agents s) (State.agents s')
  ∧ OMap.keys (State.territories s') = OMap.keys (State.territories s).
Proof.
  unfold GameState.resolveBattles.
  pose proof (resolveEach_updates rnd (GameState.groupAttacks (State.revealedMoves s))
                0 [] s) as H.
  by destruct (GameState.resolveEach _ _ _ _ _) as [[results|e] s1].
Qed.

Lemma calculateReinforcements_updates (agentId : string) (s : State.t) :
  let s' := snd (GameState.calculateReinforcements agentId s) in
  agentsUpdated (State.agents s) (State.agents s')
  ∧ State.territories s' = State.territories s.
Proof.
  unfold GameState.calculateReinforcements.
  destruct (sget agentId (State.agents s)) as [agent|] eqn:Ha;
    [|split; [apply agentsUpdated_refl|done]].
  destruct (Agent.eliminated agent); [split; [apply agentsUpdated_refl|done]|].
  destruct (State.continents s); [|split; [apply agentsUpdated_refl|done]].
  split; [|done]. simpl. by eapply agentsUpdated_sset.
Qed.

Lemma matchSound_updated (s s' : State.t) :
  agentsUpdated (State.agents s) (State.agents s') →
  OMap.keys (State.territories s') = OMap.keys (State.territories s) →
  matchSound s → matchSound s'.
Proof.
  intros [Hk Hup] Ht [Hnd Hndt H7 Hag]. split.
  - by rewrite Hk.
  - by rewrite Ht.
  - by rewrite size_keys, Hk, <- size_keys.
  - intros k a' Ha'. destruct (Hup _ _ Ha') as (a & Ha & -> & ->).
    by apply Hag.
Qed.

(** ** What every run of a match keeps *)

Lemma matchSound_same_maps (s s' : State.t) :
  State.agents s' = State.agents s →
  State.territories s' = State.territories s →
  matchSound s → matchSound s'.
Proof.
  intros Ha Ht. apply matchSound_updated.
  - rewrite Ha. apply agentsUpdated_refl.
  - by rewrite Ht.
Qed.

Lemma matchSound_new (gameId : string) (createdAt lastActivity : Z) :
  matchSound (GameStateMore.new gameId createdAt lastActivity).
Proof.
  split; simpl; [constructor|constructor|lia|done].
Qed.

Lemma placeTerritories_NoDup (defs : list GameStateMore.TerritoryDef)
    (ts : smap Territory.t) :
  NoDup (OMap.keys ts) →
  NoDup (OMap.keys (foldl GameStateMore.placeTerritory ts defs)).
Proof.
  revert ts. induction defs as [|d defs IH]; intros ts Hnd; simpl; [done|].
  apply IH. by apply NoDup_keys_sset.
Qed.

Lemma matchSound_initializeMap (mapType : string) (s : State.t) :
  matchSound s → matchSound (snd (GameStateMore.initializeMap mapType s)).
Proof.
  intros Hs. unfold GameStateMore.initializeMap.
  destruct (sget mapType GameStateMore.getMapDefinitions) as [map_|]; [|done].
  destruct Hs as [Hnd Hndt H7 Hag]. split; simpl; [done| |done|done].
  by apply placeTerritories_NoDup.
Qed.

Lemma matchSound_addAgent (agent : GameState.AgentInfo) (now : Z) (s : State.t) :
  matchSound s → matchSound (snd (GameState.addAgent agent now s)).
Proof.
  intros Hs. unfold GameState.addAgent.
  destruct (7 <=? OMap.size (State.agents s))%nat eqn:Hfull; [done|].
  apply Nat.leb_gt in Hfull.
  destruct Hs as [Hnd Hndt H7 Hag]. split; simpl; [|done| |].
  - by apply NoDup_keys_sset.
  - pose proof (size_sset_le (GameState.info_id agent)
                  (Agent.mk (GameState.info_id agent) (GameState.info_name agent)
                     (GameState.info_color agent)
                     (GameState.info_personality agent) [] (JsNum.ofZ 0) 0 false now)
                  (State.agents s)). lia.
  - intros k a. destruct (decide (k = GameState.info_id agent)) as [->|Hne].
    + rewrite sget_sset_eq. by intros [= <-].
    + rewrite sget_sset_ne by done. apply Hag.
Qed.

Lemma matchSound_removeAgent (agentId : string) (s : State.t) :
  matchSound s → matchSound (GameState.removeAgent agentId s).
Proof.
  intros Hs. unfold GameState.removeAgent.
  destruct (sget agentId (State.agents s)) as [agent|]; [|done].
  destruct Hs as [Hnd Hndt H7 Hag]. split; simpl.
  - by apply NoDup_keys_sdelete.
  - by rewrite releaseTerritories_keys.
  - pose proof (size_sdelete_le agentId (State.agents s)). lia.
  - intros k a. destruct (decide (k = agentId)) as [->|Hne].
    + by rewrite sget_sdelete_eq.
    + rewrite sget_sdelete_ne by done. apply Hag.
Qed.

Lemma matchSound_perform (sha256Json : Move.t → string) (c : EngineCall)
    (s : State.t) :
  matchSound s → matchSound (engPerform sha256Json c s).
Proof.
  intros Hs. destruct c; simpl.
  - by apply matchSound_initializeMap.
  - by apply matchSound_addAgent.
  - by apply matchSound_removeAgent.
  - destruct (distributeTerritories_updates rnd s). by eapply matchSound_updated.
  - by apply (matchSound_same_maps s).
  - unfold GameState.commitMove.
    destruct (negb _); [done|]. destruct (negb _); [done|].
    destruct move as [|m]; [done|]. simpl.
    destruct (bool_decide _); by apply (matchSound_same_maps s).
  - unfold GameState.revealMoves.
    destruct (negb _); [done|]. by apply (matchSound_same_maps s).
  - destruct (resolveBattles_updates rnd s). by eapply matchSound_updated.
  - destruct (calculateReinforcements_updates agentId s) as [Hup Ht].
    eapply matchSound_updated; [exact Hup| |done]. by rewrite Ht.
  - assert (Hdeclare : ∀ type agent,
               matchSound (snd (GameState.declare type agent now s)))
      by (intros; by apply (matchSound_same_maps s)).
    unfold GameState.checkWinCondition.
    assert (Hrest : matchSound (snd
      match List.find (GameState.dominates (OMap.size (State.territories s)))
                      (GameState.getActiveAgents s) with
      | Some agent => GameState.declare domination agent now s
      | None =>
          if (State.maxTurns s <=? State.turn s)%Z then
            match Array_sort GameState.byTerritoriesDesc
                             (GameState.getActiveAgents s) with
            | winner :: _ => GameState.declare turns winner now s
            | [] => (Throw (TypeError "Cannot read properties of undefined"), s)
            end
          else (Return None, s)
      end)).
    { destruct (List.find _ _); [apply Hdeclare|].
      destruct (_ <=? _)%Z; [|done].
      destruct (Array_sort _ _); [done|apply Hdeclare]. }
    destruct (GameState.getActiveAgents s) as [|a [|b l]];
      [exact Hrest|apply Hdeclare|exact Hrest].
  - by apply (matchSound_same_maps s).
  - by apply (matchSound_same_maps s).
Qed.

Lemma matchSound_play (sha256Json : Move.t → string) (calls : list EngineCall)
    (s : State.t) :
  matchSound s → matchSound (play sha256Json calls s).
Proof.
  unfold play. revert s. induction calls as [|c calls IH]; intros s Hs; simpl;
    [done|].
  apply IH. by apply matchSound_perform.
Qed.

Lemma matchSound_all_active (s : State.t) :
  matchSound s → GameState.getActiveAgents s = OMap.values (State.agents s).
Proof.
  intros [Hnd _ _ Hag]. unfold GameState.getActiveAgents.
  apply forallb_filter_id. apply forallb_forall. intros a Hin.
  unfold OMap.values in Hin. apply in_map_iff in Hin as ([k a'] & <- & Hin).
  simpl. apply list_elem_of_In in Hin.
  apply (sget_elem k a' _ Hnd) in Hin. by destruct (Hag _ _ Hin) as [_ ->].
Qed.

(** X1.  A match never has more than seven agents: whatever sequence of
    methods is called on a new [GameState], the agent map holds at most
    seven entries; and with seven agents in it, [addAgent] throws and
    leaves the match as it was. *)
Theorem play_at_most_seven_agents :
  (∀ (sha256Json : Move.t → string) (calls : list EngineCall)
     (gameId : string) (createdAt lastActivity : Z),
     (OMap.size (State.agents
        (play sha256Json calls (GameStateMore.new gameId createdAt lastActivity)))
      ≤ 7)%nat)
  ∧ (∀ (agent : GameState.AgentInfo) (now : Z) (s : State.t),
       (7 ≤ OMap.size (State.agents s))%nat →
       GameState.addAgent agent now s
       = (Throw (Error "Maximum 7 agents allowed"), s)).
Proof.
  split.
  - intros sha256Json calls gameId createdAt lastActivity.
    apply (sound_at_most_seven _), matchSound_play, matchSound_new.
  - intros agent now s Hfull. unfold GameState.addAgent.
    apply Nat.leb_le in Hfull. by rewrite Hfull.
Qed.

Lemma play_at_most_seven_agents_witness :
  (7 ≤ OMap.size (State.agents DemoClassic.lobby))%nat
  ∧ GameState.addAgent (GameState.mkInfo "agent-8" "Eighth" "#000" None) 1
      DemoClassic.lobby
    = (Throw (Error "Maximum 7 agents allowed"), DemoClassic.lobby).
Proof.
  assert (7 ≤ OMap.size (State.agents DemoClassic.lobby))%nat as Hfull
    by (vm_compute; lia).
  split; [exact Hfull|].
  exact (proj2 play_at_most_seven_agents _ 1 DemoClassic.lobby Hfull).
Defined.

(** X2.  No method of [GameState] ever sets [eliminated]: in every match
    reached from a new one, every agent of the map is active
    ([getActiveAgents] returns them all), is stored under its own id and
    has [eliminated] false. *)
Theorem play_never_eliminates
    (sha256Json : Move.t → string) (calls : list EngineCall)
    (gameId : string) (createdAt lastActivity : Z) :
  let s := play sha256Json calls (GameStateMore.new gameId createdAt lastActivity) in
  GameState.getActiveAgents s = OMap.values (State.agents s)
  ∧ ∀ k a, sget k (State.agents s) = Some a →
      Agent.id a = k ∧ Agent.eliminated a = false.
Proof.
  intros s.
  assert (Hs : matchSound s) by apply matchSound_play, matchSound_new.
  split; [by apply matchSound_all_active|]. apply (sound_agent _ Hs).
Qed.

(** ** The distribution of the territories *)

Lemma turnsOf_step (agentIds : list string) (aid : string) (index n : nat) :
  turnsOf agentIds aid index (S n)
  = (if bool_decide (GameState.roundRobin agentIds index = Some aid)
     then [index] else []) ++ turnsOf agentIds aid (S index) n.
Proof.
  unfold turnsOf. simpl. by destruct (bool_decide _).
Qed.

Lemma assignTerritories_deals (agentIds : list string) (tids : list string) :
  ∀ (index : nat) (s s' : State.t),
    GameState.assignTerritories agentIds tids index s = (Return tt, s') →
    NoDup tids →
    (∀ aid a0, sget aid (State.agents s) = Some a0 →
       ∃ a, sget aid (State.agents s') = Some a
            ∧ length (Agent.territories a)
              = (length (Agent.territories a0)
                 + length (turnsOf agentIds aid index (length tids)))%nat
            ∧ Agent.armies a
              = Nat.iter (length (turnsOf agentIds aid index (length tids)))
                  (λ x, JsNum.add x (JsNum.ofZ 3)) (Agent.armies a0)
            ∧ Agent.resources a = Agent.resources a0)
    ∧ (∀ i tid, tids !! i = Some tid →
         ∃ t0, sget tid (State.territories s) = Some t0
               ∧ sget tid (State.territories s')
                 = Some (Territory.setArmies (JsNum.ofZ 3)
                           (Territory.setOwner
                              (GameState.roundRobin agentIds (index + i)) t0)))
    ∧ (∀ tid, tid ∉ tids →
         sget tid (State.territories s') = sget tid (State.territories s)).
Proof.
  induction tids as [|tid tids IH]; intros index s s' Hrun Hnd.
  { simpl in Hrun. injection Hrun as <-.
    split; [|split; [|done]].
    - intros aid a0 Ha. exists a0. simpl. split; [done|]. split; [lia|done].
    - intros i t Hi. by rewrite lookup_nil in Hi. }
  apply NoDup_cons in Hnd as [Hfresh Hnd].
  cbn [GameState.assignTerritories] in Hrun.
  destruct (sget tid (State.territories s)) as [territory|] eqn:Ht; [|done].
  destruct (GameState.roundRobin agentIds index) as [aid0|] eqn:Hrr; [|done].
  cbn [State.agents State.setTerritories] in Hrun.
  destruct (sget aid0 (State.agents s)) as [agent|] eqn:Hagent; [|done].
  apply IH in Hrun as (Hagents & Hdealt & Hrest); [|done].
  cbn [State.agents State.territories State.setAgents State.setTerritories]
    in Hagents, Hdealt, Hrest.
  split; [|split].
  - intros aid a0 Ha. change (length (tid :: tids)) with (S (length tids)).
    rewrite turnsOf_step.
    destruct (decide (aid = aid0)) as [->|Hne].
    + rewrite bool_decide_eq_true_2 by done.
      assert (a0 = agent) as -> by congruence.
      destruct (Hagents aid0 _ (sget_sset_eq _ _ _)) as (a & Hget & Hlen & Harm & Hres).
      exists a. split; [done|]. simpl in Hlen, Harm, Hres.
      rewrite length_app in Hlen. simpl in Hlen.
      cbn [app length].
      split; [lia|]. split; [|done].
      rewrite Harm. symmetry.
      exact (Nat.iter_succ_r _ (λ x, JsNum.add x (JsNum.ofZ 3)) (Agent.armies agent)).
    + rewrite bool_decide_eq_false_2 by congruence.
      cbn [app]. apply Hagents. by rewrite sget_sset_ne.
  - intros [|i] tid' Hi; simpl in Hi.
    + injection Hi as <-. exists territory. split; [done|].
      rewrite Hrest by done. rewrite sget_sset_eq, Nat.add_0_r. by rewrite Hrr.
    + destruct (Hdealt _ _ Hi) as (t0 & Ht0 & Ht').
      assert (tid' ≠ tid) as Hne.
      { intros ->. apply Hfresh. by eapply list_elem_of_lookup_2. }
      rewrite sget_sset_ne in Ht0 by done.
      exists t0. split; [done|]. rewrite Ht'.
      by replace (index + S i)%nat with (S index + i)%nat by lia.
  - intros tid' Hnot. apply not_elem_of_cons in Hnot as [Hne Hnot].
    rewrite Hrest by done. by apply sget_sset_ne.
Qed.

Lemma roundRobin_position (agentIds : list string) (aid : string) (j i : nat) :
  NoDup agentIds → agentIds !! j = Some aid →
  GameState.roundRobin agentIds i = Some aid ↔ (i mod length agentIds = j)%nat.
Proof.
  intros Hnd Hj. unfold GameState.roundRobin.
  destruct agentIds as [|a0 rest] eqn:E; [by rewrite lookup_nil in Hj|].
  rewrite <- E in *. split.
  - intros Hi. by eapply NoDup_lookup.
  - by intros ->.
Qed.

(** Counting the positions of one agent among the first [n]. *)
Lemma turnsOf_length (agentIds : list string) (aid : string) (j n : nat) :
  NoDup agentIds → agentIds !! j = Some aid →
  length (turnsOf agentIds aid 0 n) = share n (length agentIds) j.
Proof.
  intros Hnd Hj.
  assert (Hjk : (j < length agentIds)%nat) by by eapply lookup_lt_Some.
  set (k := length agentIds) in *.
  unfold turnsOf, share. induction n as [|n IH].
  { rewrite Nat.Div0.div_0_l, Nat.Div0.mod_0_l. simpl.
    by destruct (j <? 0)%nat eqn:E; [apply Nat.ltb_lt in E; lia|]. }
  rewrite seq_S, List.filter_app, length_app, IH. simpl.
  pose proof (roundRobin_position agentIds aid j n Hnd Hj) as Hpos.
  fold k in Hpos.
  pose proof (Nat.div_mod_eq n k) as Hn.
  pose proof (Nat.mod_upper_bound n k ltac:(lia)) as Hr.
  set (q := (n / k)%nat) in *. set (r := (n mod k)%nat) in *.
  destruct (decide (r = k - 1)%nat) as [Hwrap|Hno].
  - assert ((S n / k)%nat = S q) as ->.
    { symmetry. apply (Nat.div_unique _ _ _ 0%nat); lia. }
    assert ((S n mod k)%nat = 0%nat) as ->.
    { symmetry. apply (Nat.mod_unique _ _ (S q)); lia. }
    destruct (Nat.ltb_spec j r); destruct (Nat.ltb_spec j 0);
      case_bool_decide as Hrr; try apply Hpos in Hrr; simpl; try lia.
    exfalso. apply Hrr, Hpos. lia.
  - assert ((S n / k)%nat = q) as ->.
    { symmetry. apply (Nat.div_unique _ _ _ (S r)); lia. }
    assert ((S n mod k)%nat = S r) as ->.
    { symmetry. apply (Nat.mod_unique _ _ q); lia. }
    destruct (Nat.ltb_spec j r); destruct (Nat.ltb_spec j (S r));
      case_bool_decide as Hrr; try apply Hpos in Hrr; simpl; try lia.
    exfalso. apply Hrr, Hpos. lia.
Qed.

Lemma iter_add_three (m : nat) (q : Q) :
  ∃ q', Nat.iter m (λ x, JsNum.add x (JsNum.ofZ 3)) (JsNum.Fin q) = JsNum.Fin q'
        ∧ (q' == q + 3 * inject_Z (Z.of_nat m))%Q.
Proof.
  induction m as [|m (q' & Heq & Hq')].
  - exists q. split; [done|]. change (inject_Z (Z.of_nat 0)) with 0%Q. lra.
  - rewrite Nat.iter_succ, Heq. eexists. split; [reflexivity|].
    rewrite Hq', Nat2Z.inj_succ. unfold Z.succ. rewrite inject_Z_plus.
    change (inject_Z 3) with 3%Q. change (inject_Z 1) with 1%Q.
    generalize (inject_Z (Z.of_nat m)). intros x. lra.
Qed.

Lemma giveInitialResources_get (ids : list string) (m : smap Agent.t) (aid : string) :
  sget aid (GameState.giveInitialResources ids m)
  = (λ a, if bool_decide (aid ∈ ids) then Agent.setResources 10 a else a)
      <$> sget aid m.
Proof.
  unfold GameState.giveInitialResources. revert m.
  induction ids as [|x ids IH]; intros m; simpl.
  { by destruct (sget aid m). }
  rewrite IH.
  destruct (decide (aid = x)) as [->|Hne].
  - rewrite (bool_decide_eq_true_2 (x ∈ x :: ids)) by apply list_elem_of_here.
    destruct (sget x m) as [a|] eqn:E; [|by rewrite E].
    rewrite sget_sset_eq. simpl. by destruct (bool_decide (x ∈ ids)).
  - assert (bool_decide (aid ∈ x :: ids) = bool_decide (aid ∈ ids)) as ->.
    { apply bool_decide_ext. rewrite elem_of_cons. tauto. }
    destruct (sget x m) as [a|]; [|done]. by rewrite sget_sset_ne.
Qed.

(** X3.  [distributeTerritories] deals evenly.  On a lobby whose agents
    hold nothing yet, with [n] territories and [k] agents, the agent in
    position [j] of the agent map ends with [floor(n/k)] territories,
    plus one when [j < n mod k]; so no agent gets more than one territory
    more than another.  Every agent ends with 10 resources and with 3
    armies more for every territory received, and every territory ends
    with 3 armies and an owner who is an agent of the match. *)
Theorem distributeTerritories_shares (rnd : nat → RandomDraw) (s : State.t) :
  readyToDistribute s →
  let n := OMap.size (State.territories s) in
  let k := OMap.size (State.agents s) in
  ∃ s',
    GameState.distributeTerritories rnd s = (Return tt, s')
    ∧ (∀ j aid a0,
         OMap.keys (State.agents s) !! j = Some aid →
         sget aid (State.agents s) = Some a0 →
         ∃ a, sget aid (State.agents s') = Some a
              ∧ length (Agent.territories a) = share n k j
              ∧ Agent.resources a = 10
              ∧ ∀ q0, Agent.armies a0 = JsNum.Fin q0 →
                  ∃ q, Agent.armies a = JsNum.Fin q
                       ∧ (q == q0 + 3 * inject_Z (Z.of_nat (share n k j)))%Q)
    ∧ (∀ aid1 a1 aid2 a2,
         sget aid1 (State.agents s') = Some a1 →
         sget aid2 (State.agents s') = Some a2 →
         (length (Agent.territories a1) ≤ length (Agent.territories a2) + 1)%nat)
    ∧ (∀ tid t0,
         sget tid (State.territories s) = Some t0 →
         ∃ o, o ∈ OMap.keys (State.agents s)
              ∧ sget tid (State.territories s')
                = Some (Territory.setArmies (JsNum.ofZ 3)
                          (Territory.setOwner (Some o) t0))).
Proof.
  intros Hready n k.
  destruct (distributeTerritories_partitioned rnd s Hready)
    as (s' & Hrun & _ & _ & Hkeys' & _).
  destruct Hready as [Htk Hak Hsome Hnothing].
  exists s'. split; [exact Hrun|].
  unfold GameState.distributeTerritories in Hrun.
  set (ids := OMap.keys (State.agents s)) in *.
  set (tids := GameState.shuffle rnd (OMap.keys (State.territories s))) in *.
  assert (Hperm : tids ≡ₚ OMap.keys (State.territories s)) by apply shuffle_perm.
  assert (Hlen : length tids = n).
  { rewrite Hperm. subst n. by rewrite size_keys. }
  assert (Hk : length ids = k) by (subst k ids; by rewrite size_keys).
  destruct (GameState.assignTerritories ids tids 0 s) as [[[]|e] s1] eqn:Hassign;
    [|discriminate].
  injection Hrun as <-.
  apply assignTerritories_deals in Hassign as (Hagents & Hdealt & _);
    [|by rewrite Hperm].
  assert (Hshare : ∀ j aid a0,
    ids !! j = Some aid → sget aid (State.agents s) = Some a0 →
    ∃ a, sget aid (GameState.giveInitialResources ids (State.agents s1)) = Some a
         ∧ length (Agent.territories a) = share n k j
         ∧ Agent.resources a = 10
         ∧ Agent.armies a
           = Nat.iter (share n k j) (λ x, JsNum.add x (JsNum.ofZ 3)) (Agent.armies a0)).
  { intros j aid a0 Hj Ha0.
    destruct (Hagents _ _ Ha0) as (a & Ha & Hla & Harm & _).
    rewrite Hlen, (turnsOf_length ids aid j n Hak Hj), Hk in Hla, Harm.
    rewrite (Hnothing _ _ Ha0) in Hla. simpl in Hla.
    rewrite giveInitialResources_get, Ha. simpl.
    rewrite bool_decide_eq_true_2 by by eapply list_elem_of_lookup_2.
    eexists. split; [reflexivity|]. simpl. done. }
  cbn [State.agents State.territories State.emit State.setAgents].
  split; [|split].
  - intros j aid a0 Hj Ha0.
    destruct (Hshare _ _ _ Hj Ha0) as (a & Ha & Hla & Hres & Harm).
    exists a. split; [done|]. split; [done|]. split; [done|].
    intros q0 Hq0. rewrite Harm, Hq0. apply iter_add_three.
  - intros aid1 a1 aid2 a2 Ha1 Ha2.
    assert (Hpos : ∀ aid a, sget aid (GameState.giveInitialResources ids
                                        (State.agents s1)) = Some a →
                   ∃ j, length (Agent.territories a) = share n k j).
    { intros aid a Ha.
      assert (aid ∈ ids) as Hin.
      { subst ids. rewrite <- Hkeys'. simpl. by eapply sget_Some_elem. }
      apply list_elem_of_lookup in Hin as [j Hj].
      destruct (elem_keys_sget aid (State.agents s)) as [a0 Ha0];
        [by eapply list_elem_of_lookup_2|].
      destruct (Hshare _ _ _ Hj Ha0) as (a' & Ha' & Hla & _).
      exists j. congruence. }
    destruct (Hpos _ _ Ha1) as [j1 ->]. destruct (Hpos _ _ Ha2) as [j2 ->].
    unfold share.
    destruct (j1 <? n mod k)%nat; destruct (j2 <? n mod k)%nat; lia.
  - intros tid t0 Ht0.
    assert (tid ∈ tids) as Hin by (rewrite Hperm; by eapply sget_Some_elem).
    apply list_elem_of_lookup in Hin as [i Hi].
    destruct (Hdealt _ _ Hi) as (t0' & Ht0' & Ht').
    assert (t0' = t0) as -> by congruence.
    destruct (roundRobin_some ids (0 + i)) as (o & Ho & Hin).
    { intros Hnil. apply Hsome. subst ids.
      destruct (State.agents s); [done|discriminate]. }
    exists o. split; [done|]. by rewrite Ht', Ho.
Qed.

(** ** From the constructor to the first turn *)

Lemma addAgent_nonempty (agent : GameState.AgentInfo) (now : Z) (s : State.t) :
  State.agents (snd (GameState.addAgent agent now s)) ≠ [].
Proof.
  unfold GameState.addAgent.
  destruct (7 <=? OMap.size (State.agents s))%nat eqn:Hfull; simpl.
  - apply Nat.leb_le in Hfull.
    destruct (State.agents s); [unfold OMap.size in Hfull; simpl in Hfull; lia|done].
  - destruct (State.agents s) as [|[k a] m]; simpl; [done|].
    by destruct (sameString _ _).
Qed.

Lemma setup_nothing_held (sha256Json : Move.t → string) (c : EngineCall)
    (s : State.t) :
  isSetupCall c →
  (∀ aid a, sget aid (State.agents s) = Some a → Agent.territories a = []) →
  (∀ aid a, sget aid (State.agents (engPerform sha256Json c s)) = Some a →
     Agent.territories a = [])
  ∧ (State.agents s ≠ [] ∨ isAddAgent c →
     State.agents (engPerform sha256Json c s) ≠ []).
Proof.
  intros Hc Hheld. destruct c; try done; simpl.
  - unfold GameStateMore.initializeMap.
    destruct (sget mapType GameStateMore.getMapDefinitions); simpl;
      (split; [done|by intros [?|[]]]).
  - split; [|intros _; apply addAgent_nonempty].
    unfold GameState.addAgent.
    destruct (7 <=? OMap.size (State.agents s))%nat; [done|]. simpl.
    intros aid a. destruct (decide (aid = GameState.info_id agent)) as [->|Hne].
    + rewrite sget_sset_eq. by intros [= <-].
    + rewrite sget_sset_ne by done. apply Hheld.
Qed.

Lemma setup_ready (sha256Json : Move.t → string) (calls : list EngineCall)
    (s : State.t) :
  Forall isSetupCall calls →
  matchSound s →
  (∀ aid a, sget aid (State.agents s) = Some a → Agent.territories a = []) →
  State.agents s ≠ [] ∨ Exists isAddAgent calls →
  readyToDistribute (play sha256Json calls s).
Proof.
  unfold play. revert s.
  induction calls as [|c calls IH]; intros s Hcalls Hs Hheld Hsome; simpl.
  - destruct Hs as [Hnd Hndt _ _]. split; [done|done| |done].
    destruct Hsome as [?|Hex]; [done|]. by apply Exists_nil in Hex.
  - apply Forall_cons in Hcalls as [Hc Hcalls].
    destruct (setup_nothing_held sha256Json c s Hc Hheld) as [Hheld' Hsome'].
    apply IH; [done|by apply matchSound_perform|done|].
    destruct Hsome as [Hne|Hex]; [left; apply Hsome'; by left|].
    apply Exists_cons in Hex as [Hadd|Hex]; [|by right].
    left. apply Hsome'. by right.
Qed.

(** X4.  A match set up through the constructor, [initializeMap] and
    [addAgent] - in any order and number, with at least one [addAgent] -
    can be started: [distributeTerritories] returns, every territory of
    the map then has an owner, and the territory lists of the agents and
    the owner fields of the territories say the same. *)
Theorem setup_then_distribute
    (sha256Json : Move.t → string) (calls : list EngineCall)
    (gameId : string) (createdAt lastActivity : Z) (rnd : nat → RandomDraw) :
  Forall isSetupCall calls →
  Exists isAddAgent calls →
  let lobby :=
    play sha256Json calls (GameStateMore.new gameId createdAt lastActivity) in
  ∃ s',
    GameState.distributeTerritories rnd lobby = (Return tt, s')
    ∧ partitioned s'
    ∧ ∀ tid, tid ∈ OMap.keys (State.territories lobby) →
        ∃ t o, sget tid (State.territories s') = Some t
               ∧ Territory.owner t = Some o
               ∧ is_Some (sget o (State.agents s')).
Proof.
  intros Hsetup Hadd lobby.
  assert (Hready : readyToDistribute lobby).
  { apply setup_ready; [done|apply matchSound_new|done|by right]. }
  destruct (distributeTerritories_partitioned rnd lobby Hready)
    as (s' & Hrun & Hpart & _ & _ & Howned).
  exists s'. split; [done|]. split; [done|].
  intros tid Hin. destruct (Howned _ Hin) as (t & o & Ht & Ho).
  exists t, o. split; [done|]. split; [done|].
  by eapply (owner_is_live s' Hpart).
Qed.

Lemma DemoClassic_setup :
  Forall isSetupCall DemoClassic.setup ∧ Exists isAddAgent DemoClassic.setup.
Proof.
  split.
  - unfold DemoClassic.setup, DemoClassic.agentIds. simpl. repeat constructor.
  - unfold DemoClassic.setup, DemoClassic.agentIds. simpl.
    apply Exists_cons_tl, Exists_cons_hd. exact I.
Qed.

Lemma DemoClassic_lobby_ready : readyToDistribute DemoClassic.lobby.
Proof.
  destruct DemoClassic_setup as [Hsetup Hadd].
  apply setup_ready; [done|apply matchSound_new|done|by right].
Qed.

Lemma setup_then_distribute_witness :
  ∃ s', GameState.distributeTerritories (λ _, Demo.low) DemoClassic.lobby
        = (Return tt, s')
        ∧ partitioned s'.
Proof.
  destruct DemoClassic_setup as [Hsetup Hadd].
  destruct (setup_then_distribute Demo.sha DemoClassic.setup "game-1" 0 0
              (λ _, Demo.low) Hsetup Hadd) as (s' & Hrun & Hpart & _).
  exists s'. split; [exact Hrun|exact Hpart].
Defined.

(** The classic map has 42 territories; dealt to seven agents that is
    six each. *)
Lemma distributeTerritories_shares_witness :
  ∃ s', GameState.distributeTerritories (λ _, Demo.low) DemoClassic.lobby
        = (Return tt, s')
        ∧ ∃ a, sget "agent-3" (State.agents s') = Some a
               ∧ length (Agent.territories a) = 6%nat
               ∧ Agent.resources a = 10.
Proof.
  destruct (distributeTerritories_shares (λ _, Demo.low) DemoClassic.lobby
              DemoClassic_lobby_ready) as (s' & Hrun & Hshare & _).
  exists s'. split; [exact Hrun|].
  destruct (Hshare 2%nat "agent-3"
              (Agent.mk "agent-3" "agent-3" "#fff" None [] (JsNum.ofZ 0) 0 false 0)
              eq_refl eq_refl) as (a & Ha & Hlen & Hres & _).
  exists a. split; [exact Ha|]. split; [exact Hlen|exact Hres].
Defined.

Example distributeTerritories_classic :
  map (λ ka, (fst ka, length (Agent.territories (snd ka)), Agent.armies (snd ka)))
      (State.agents DemoClassic.started)
  = map (λ id, (id, 6%nat, JsNum.ofZ 18)) DemoClassic.agentIds
  ∧ Forall (λ kt, is_Some (Territory.owner (snd kt))
                  ∧ Territory.armies (snd kt) = JsNum.ofZ 3)
      (State.territories DemoClassic.started)
  ∧ length (State.territories DemoClassic.started) = 42%nat.
Proof.
  split; [by vm_compute|]. split; [|by vm_compute].
  vm_compute. repeat constructor; by eexists.
Qed.

(** ** Commit and reveal *)

Lemma size_sset {V : Type} (k : string) (v : V) (m : smap V) :
  OMap.size (sset k v m) = if shas k m then OMap.size m else S (OMap.size m).
Proof.
  unfold OMap.has. rewrite !size_keys.
  destruct (sget k m) as [v0|] eqn:Hget.
  - rewrite keys_sset_present by (by rewrite Hget). done.
  - rewrite keys_sset_absent by done. rewrite length_app. simpl. lia.
Qed.

(** X5.  [commitMove] in the commit phase.  A move that [validateMove]
    refuses is answered with the error "Invalid move structure" and
    changes nothing.  A move that passes is stored under the agent's id
    with its hash, replacing what the agent had committed before: the
    commitments of the other agents stay, the number of commitments
    grows by one only when the agent had none, and the maps of agents
    and territories, the phase and the turn are untouched. *)
Theorem commitMove_commit_phase_spec
    (sha256Json : Move.t → string) (agentId : string) (move : MoveArg)
    (signature : string) (now : Z) (s : State.t) :
  State.phase s = "commit" →
  (GameState.validateMove (State.territories s) move = false →
   GameState.commitMove sha256Json agentId move signature now s
   = (Throw (Error "Invalid move structure"), s))
  ∧ (GameState.validateMove (State.territories s) move = true →
     ∃ m s',
       move = MoveObject m
       ∧ let commitment :=
           Commitment.mk agentId m signature now (sha256Json m) in
         GameState.commitMove sha256Json agentId move signature now s
         = (Return commitment, s')
         ∧ sget agentId (State.moves s') = Some commitment
         ∧ (∀ other, other ≠ agentId →
              sget other (State.moves s') = sget other (State.moves s))
         ∧ OMap.size (State.moves s')
           = (if shas agentId (State.moves s) then OMap.size (State.moves s)
              else S (OMap.size (State.moves s)))
         ∧ State.agents s' = State.agents s
         ∧ State.territories s' = State.territories s
         ∧ State.revealedMoves s' = State.revealedMoves s
         ∧ State.phase s' = "commit"
         ∧ State.turn s' = State.turn s).
Proof.
  intros Hphase. unfold GameState.commitMove.
  rewrite (bool_decide_eq_true_2 _ Hphase). cbn [negb].
  split; intros Hvalid; rewrite Hvalid; cbn [negb]; [done|].
  destruct move as [|m]; [discriminate|].
  eexists m, _. split; [reflexivity|]. cbv zeta.
  split; [reflexivity|].
  assert (Hmoves : ∀ (b : bool) (s2 : State.t),
            State.moves (if b then State.emit allMovesCommitted s2 else s2)
            = State.moves s2) by (by intros []).
  assert (Hrest : ∀ (b : bool) (s2 : State.t),
            let s3 := if b then State.emit allMovesCommitted s2 else s2 in
            State.agents s3 = State.agents s2
            ∧ State.territories s3 = State.territories s2
            ∧ State.revealedMoves s3 = State.revealedMoves s2
            ∧ State.phase s3 = State.phase s2
            ∧ State.turn s3 = State.turn s2) by (by intros []).
  rewrite Hmoves. cbn [State.moves State.emit State.setMoves].
  split; [apply sget_sset_eq|].
  split; [intros other Hne; by apply sget_sset_ne|].
  split; [apply size_sset|].
  match goal with
  | |- context [if ?b then State.emit allMovesCommitted ?s2 else ?s2] =>
      destruct (Hrest b s2) as (-> & -> & -> & -> & ->)
  end.
  by rewrite <- Hphase.
Qed.

Lemma commitMove_commit_phase_spec_witness :
  ∃ s', GameState.commitMove Demo.sha "a" (MoveObject (Demo.attack "t1" "t2" 5))
          "sig" 7 (Demo.midGame "commit")
        = (Return (Commitment.mk "a" (Demo.attack "t1" "t2" 5) "sig" 7 "hash"), s')
        ∧ sget "a" (State.moves s')
          = Some (Commitment.mk "a" (Demo.attack "t1" "t2" 5) "sig" 7 "hash").
Proof.
  destruct (commitMove_commit_phase_spec Demo.sha "a"
              (MoveObject (Demo.attack "t1" "t2" 5)) "sig" 7
              (Demo.midGame "commit") eq_refl) as [_ Hstores].
  destruct (Hstores eq_refl) as (m & s' & Hm & Hrun & Hget & _).
  injection Hm as <-. exists s'. split; [exact Hrun|exact Hget].
Defined.

Lemma foldl_reveal (now : Z) (acc : smap Revealed.t) (moves : smap Commitment.t) :
  NoDup (OMap.keys acc ++ OMap.keys moves) →
  foldl (λ acc kc, sset (fst kc) (Revealed.mk (snd kc) now) acc) acc moves
  = acc ++ map (λ kc, (fst kc, Revealed.mk (snd kc) now)) moves.
Proof.
  intros Hnd.
  rewrite <- (foldl_sset_fresh acc (map (λ kc, (fst kc, Revealed.mk (snd kc) now)) moves)).
  - by rewrite foldl_fmap.
  - unfold OMap.keys in *. rewrite fmap_app.
    rewrite <- list_fmap_compose.
    erewrite (list_fmap_ext _ fst moves); [exact Hnd|]. by intros i [k c].
Qed.

(** X6.  [revealMoves] reveals exactly what was committed.  In the
    resolve phase the reveal map is replaced by one entry per
    commitment, in the order of the commitments, each carrying its
    commitment unchanged and stamped with the time of the reveal; the
    commitments themselves stay.  In any other phase the call throws
    "Not in resolve phase" and changes nothing. *)
Theorem revealMoves_reveals_commitments (now : Z) (s : State.t) :
  NoDup (OMap.keys (State.moves s)) →
  (State.phase s ≠ "resolve" →
   GameState.revealMoves now s = (Throw (Error "Not in resolve phase"), s))
  ∧ (State.phase s = "resolve" →
     ∃ s',
       GameState.revealMoves now s
       = (Return (map (λ kc, Revealed.mk (snd kc) now) (State.moves s)), s')
       ∧ State.revealedMoves s'
         = map (λ kc, (fst kc, Revealed.mk (snd kc) now)) (State.moves s)
       ∧ (∀ agentId,
            sget agentId (State.revealedMoves s')
            = (λ c, Revealed.mk c now) <$> sget agentId (State.moves s))
       ∧ State.moves s' = State.moves s
       ∧ State.agents s' = State.agents s
       ∧ State.territories s' = State.territories s).
Proof.
  intros Hnd. unfold GameState.revealMoves. split; intros Hphase.
  - by rewrite bool_decide_eq_false_2.
  - rewrite bool_decide_eq_true_2 by done. cbn [negb].
    rewrite (foldl_reveal now [] (State.moves s)) by done.
    cbn [app]. eexists. split.
    { unfold OMap.values. rewrite <- list_fmap_compose. reflexivity. }
    cbn [State.revealedMoves State.emit State.setRevealedMoves State.moves
         State.agents State.territories].
    split; [done|]. split; [|done].
    intros agentId. clear Hnd.
    induction (State.moves s) as [|[k c] moves IH]; simpl; [done|].
    by destruct (sameString k agentId).
Qed.

Lemma revealMoves_reveals_commitments_witness :
  let s :=
    State.setMoves [Demo.commitmentOf "a" (Demo.attack "t1" "t2" 10);
                    Demo.commitmentOf "c" Demo.defend]
      (Demo.midGame "resolve") in
  ∃ s',
    GameState.revealMoves 0 s
    = (Return [snd (Demo.revealedOf "a" (Demo.attack "t1" "t2" 10));
               snd (Demo.revealedOf "c" Demo.defend)], s')
    ∧ State.revealedMoves s'
      = [Demo.revealedOf "a" (Demo.attack "t1" "t2" 10);
         Demo.revealedOf "c" Demo.defend].
Proof.
  intros s.
  assert (Hnd : NoDup (OMap.keys (State.moves s))).
  { apply (bool_decide_unpack _). by vm_compute. }
  destruct (revealMoves_reveals_commitments 0 s Hnd) as [_ Hreveal].
  destruct (Hreveal eq_refl) as (s' & Hrun & Hrevealed & _).
  exists s'. split; [exact Hrun|exact Hrevealed].
Defined.

(** ** Battles *)

Lemma foldl_addAttack_without_attacks (revealed : smap Revealed.t)
    (acc : list (JsVal * GameState.Battle)) :
  (∀ entry, entry ∈ revealed →
     GameState.isString "attack" (Move.type (Revealed.move (snd entry))) = false) →
  foldl GameState.addAttack acc revealed = acc.
Proof.
  revert acc. induction revealed as [|entry revealed IH]; intros acc Hnone;
    simpl; [done|].
  unfold GameState.addAttack at 2.
  rewrite (Hnone entry) by apply list_elem_of_here.
  apply IH. intros e He. apply Hnone. by apply list_elem_of_further.
Qed.

(** X7.  Only attacks are resolved.  When none of the revealed moves is
    of type [attack] - whatever else they are: defend, support, move,
    none, and whatever armies and territories they name -
    [resolveBattles] answers with no result and changes nothing in the
    match; it only emits [battlesResolved]. *)
Theorem resolveBattles_without_attacks (rnd : nat → RandomDraw) (s : State.t) :
  (∀ entry, entry ∈ State.revealedMoves s →
     GameState.isString "attack" (Move.type (Revealed.move (snd entry))) = false) →
  GameState.resolveBattles rnd s
  = (Return [], State.emit (battlesResolved []) s).
Proof.
  intros Hnone. unfold GameState.resolveBattles, GameState.groupAttacks.
  by rewrite foldl_addAttack_without_attacks.
Qed.

Lemma resolveBattles_without_attacks_witness :
  GameState.resolveBattles DemoBattle.attackerLucky DemoQuiet.state
  = (Return [], State.emit (battlesResolved []) DemoQuiet.state).
Proof.
  apply resolveBattles_without_attacks.
  intros entry Hin. unfold DemoQuiet.state in Hin. simpl in Hin.
  apply elem_of_cons in Hin as [->|Hin]; [reflexivity|].
  apply elem_of_cons in Hin as [->|Hin]; [reflexivity|].
  by apply elem_of_nil in Hin.
Defined.








(** ** Leaving the match *)

(** X9.  [removeAgent].  For an id that is not in the match nothing
    happens.  For an agent of a partitioned match, the agent is gone
    from the map, every territory it owned is neutral again with no
    armies, every other territory and every other agent is as before,
    and no territory names the removed agent as its owner any more. *)
Theorem removeAgent_releases (agentId : string) (s : State.t) :
  (sget agentId (State.agents s) = None → GameState.removeAgent agentId s = s)
  ∧ (partitioned s → is_Some (sget agentId (State.agents s)) →
     let s' := GameState.removeAgent agentId s in
     sget agentId (State.agents s') = None
     ∧ (∀ other, other ≠ agentId →
          sget other (State.agents s') = sget other (State.agents s))
     ∧ (∀ tid t, sget tid (State.territories s) = Some t →
          sget tid (State.territories s')
          = Some (if bool_decide (Territory.owner t = Some agentId)
                  then neutral t else t))
     ∧ (∀ tid t, sget tid (State.territories s') = Some t →
          Territory.owner t ≠ Some agentId)
     ∧ State.events s' = State.events s ++ [agentLeft agentId]).
Proof.
  unfold GameState.removeAgent. split.
  { by intros ->. }
  intros Hpart [agent Hagent]. rewrite Hagent. simpl.
  assert (Hterr : ∀ tid t, sget tid (State.territories s) = Some t →
            sget tid (GameState.releaseTerritories (Agent.territories agent)
                        (State.territories s))
            = Some (if bool_decide (Territory.owner t = Some agentId)
                    then neutral t else t)).
  { intros tid t Ht. rewrite releaseTerritories_get, Ht. simpl. f_equal.
    assert (bool_decide (tid ∈ Agent.territories agent)
            = bool_decide (Territory.owner t = Some agentId)) as ->; [|done].
    apply bool_decide_ext.
    rewrite (lists_match_owners s Hpart _ _ tid Hagent). split.
    - intros (t' & Ht' & Ho). congruence.
    - intros Ho. by exists t. }
  split; [apply sget_sdelete_eq, (agent_ids_unique s Hpart)|].
  split; [intros other Hne; by apply sget_sdelete_ne|].
  split; [exact Hterr|]. split; [|done].
  intros tid t' Ht'.
  destruct (sget tid (State.territories s)) as [t|] eqn:Ht.
  - rewrite (Hterr _ _ Ht) in Ht'. injection Ht' as <-.
    case_bool_decide as Ho; [done|exact Ho].
  - rewrite releaseTerritories_get, Ht in Ht'. discriminate.
Qed.

Lemma removeAgent_releases_witness :
  sget "a" (State.agents (GameState.removeAgent "a" DemoTwice.dealt)) = None
  ∧ (Territory.owner <$>
       sget "t1" (State.territories (GameState.removeAgent "a" DemoTwice.dealt)))
    = Some None
  ∧ (Territory.owner <$>
       sget "t3" (State.territories (GameState.removeAgent "a" DemoTwice.dealt)))
    = Some (Some "b").
Proof.
  destruct (removeAgent_releases "a" DemoTwice.dealt) as [_ Hrel].
  destruct (Hrel DemoTwice_dealt_partitioned ltac:(by eexists))
    as (Hgone & _ & Hterr & _).
  split; [exact Hgone|].
  split; [by erewrite (Hterr "t1") by reflexivity|].
  by erewrite (Hterr "t3") by reflexivity.
Defined.

(** ** Reinforcements *)

Lemma sset_same {V : Type} (k : string) (v : V) (m : smap V) :
  sget k m = Some v → sset k v m = m.
Proof.
  induction m as [|[k0 v0] m IH]; simpl; [done|].
  destruct (sameString k0 k) eqn:E.
  - by intros [= ->].
  - intros H. by rewrite IH.
Qed.

(** X10.  [calculateReinforcements] converts resources once.  For a
    registered, non-eliminated agent the call leaves between 0 and 4
    resources, having taken out a multiple of five; a second call right
    after it returns the same reinforcements less the resource bonus,
    and changes nothing. *)
Theorem calculateReinforcements_spends_once
    (s : State.t) (agentId : string) (agent : Agent.t) (cs : smap Continent.t) :
  sget agentId (State.agents s) = Some agent →
  Agent.eliminated agent = false →
  State.continents s = Some cs →
  ∃ r1 s1 agent1,
    GameState.calculateReinforcements agentId s = (Return r1, s1)
    ∧ sget agentId (State.agents s1) = Some agent1
    ∧ 0 ≤ Agent.resources agent1 < 5
    ∧ Agent.resources agent
      = Agent.resources agent1 + 5 * (Agent.resources agent / 5)
    ∧ GameState.calculateReinforcements agentId s1
      = (Return (r1 - Agent.resources agent / 5), s1).
Proof.
  intros Hget Helim Hcs.
  unfold GameState.calculateReinforcements at 1.
  rewrite Hget, Helim, Hcs.
  set (R := Agent.resources agent).
  set (agent1 := Agent.setResources (R - R / 5 * 5) agent).
  set (s1 := State.setAgents (sset agentId agent1 (State.agents s)) s).
  assert (Hrem : 0 ≤ R - R / 5 * 5 < 5).
  { pose proof (Z.mod_pos_bound R 5 ltac:(lia)).
    pose proof (Z.div_mod R 5 ltac:(lia)). lia. }
  eexists _, s1, agent1. split; [reflexivity|].
  assert (Hget1 : sget agentId (State.agents s1) = Some agent1)
    by apply sget_sset_eq.
  split; [exact Hget1|]. split; [exact Hrem|].
  split; [simpl; lia|].
  unfold GameState.calculateReinforcements. rewrite Hget1.
  assert (Agent.eliminated agent1 = false) as -> by done.
  assert (State.continents s1 = Some cs) as -> by done.
  assert (Agent.resources agent1 / 5 = 0) as Hzero.
  { simpl. apply Z.div_small. lia. }
  rewrite Hzero. f_equal.
  - f_equal. simpl. fold R. lia.
  - assert (Agent.setResources (Agent.resources agent1 - 0 * 5) agent1 = agent1)
      as ->.
    { simpl. rewrite Z.sub_0_r. by destruct agent. }
    rewrite sset_same by done. by destruct s.
Qed.

Lemma calculateReinforcements_spends_once_witness :
  ∃ s1,
    GameState.calculateReinforcements "a" DemoNine.state = (Return 5, s1)
    ∧ GameState.calculateReinforcements "a" s1 = (Return 3, s1).
Proof.
  destruct (calculateReinforcements_spends_once DemoNine.state "a"
              (snd (Demo.agent "a" DemoNine.ids 27 12))
              [("all", Continent.mk "All" 5 (DemoNine.ids ++ ["n10"]))]
              eq_refl eq_refl eq_refl)
    as (r1 & s1 & agent1 & Hrun & _ & _ & _ & Hagain).
  assert (r1 = 5) as ->.
  { vm_compute in Hrun. by injection Hrun as <- _. }
  exists s1. split; [exact Hrun|exact Hagain].
Defined.

(** ** Conversations *)

(** X11.  [logConversation] appends the entry, stamped with the current
    turn and phase, to the conversation log.  The public state shows it
    only when its type is ['public'] (the default); an entry of any other
    type changes neither the public state nor the private state of any
    agent. *)
Theorem logConversation_visibility
    (uuid agentId message : string) (type : option string) (now : Z) (s : State.t) :
  let entry := fst (GameStateMore.logConversation uuid agentId message type now s) in
  let s' := snd (GameStateMore.logConversation uuid agentId message type now s) in
  State.conversations s' = State.conversations s ++ [entry]
  ∧ Conversation.turn entry = State.turn s
  ∧ Conversation.phase entry = State.phase s
  ∧ GameState.PublicState.conversations (GameState.getPublicState s')
    = GameState.PublicState.conversations (GameState.getPublicState s)
      ++ (if bool_decide (default "public" type = "public") then [entry] else [])
  ∧ (default "public" type ≠ "public" →
     GameState.getPublicState s' = GameState.getPublicState s
     ∧ ∀ p, GameState.getAgentState p s' = GameState.getAgentState p s).
Proof.
  intros entry s'. subst entry s'. unfold GameStateMore.logConversation.
  cbn [fst snd]. split; [done|]. split; [done|]. split; [done|].
  assert (Hpub : ∀ e : Conversation.t,
    List.filter (λ c, bool_decide (Conversation.type c = "public"))
                (State.conversations s ++ [e])
    = List.filter (λ c, bool_decide (Conversation.type c = "public"))
                  (State.conversations s)
      ++ (if bool_decide (Conversation.type e = "public") then [e] else [])).
  { intros e. rewrite List.filter_app. simpl. by destruct (bool_decide _). }
  split; [apply Hpub|].
  intros Hprivate.
  assert (Hsame : ∀ e : Conversation.t, Conversation.type e ≠ "public" →
    GameState.getPublicState
      (State.emit (conversation e)
         (GameStateMore.setConversations (State.conversations s ++ [e]) s))
    = GameState.getPublicState s).
  { intros e He. unfold GameState.getPublicState. simpl.
    rewrite Hpub, bool_decide_eq_false_2 by done. by rewrite app_nil_r. }
  split; [by apply Hsame|].
  intros p. unfold GameState.getAgentState. rewrite Hsame by done. done.
Qed.

Lemma logConversation_visibility_witness :
  GameState.getPublicState
    (snd (GameStateMore.logConversation "id-1" "a" "meet me at t3" (Some "private")
            5 (Demo.midGame "negotiation")))
  = GameState.getPublicState (Demo.midGame "negotiation").
Proof.
  destruct (logConversation_visibility "id-1" "a" "meet me at t3" (Some "private")
              5 (Demo.midGame "negotiation")) as (_ & _ & _ & _ & Hhidden).
  apply Hhidden. discriminate.
Defined.

(** ** Serialization *)

(** X12.  [fromJSON(toJSON())] gives back the id, the phase, the turn
    counters, the agents and the territories (in their order), the
    conversations, the history, the winner and the two time stamps.
    Everything else is what the constructor sets: no commitments, no
    revealed moves, no phase start time, the default durations, and no
    continents.  Serializing again gives the same object. *)
Theorem fromJSON_toJSON (s : State.t) (createdAt lastActivity : Z) :
  NoDup (OMap.keys (State.agents s)) →
  NoDup (OMap.keys (State.territories s)) →
  GameStateMore.fromJSON (GameStateMore.toJSON s) createdAt lastActivity
  = State.mk (State.gameId s) (State.phase s) (State.turn s) (State.maxTurns s)
      (State.agents s) (State.territories s) None (State.conversations s)
      [] [] (State.history s) (State.createdAt s) (State.lastActivity s)
      (State.winner s) None GameStateMore.defaultDurations []
  ∧ GameStateMore.toJSON
      (GameStateMore.fromJSON (GameStateMore.toJSON s) createdAt lastActivity)
    = GameStateMore.toJSON s.
Proof.
  intros Ha Ht. unfold GameStateMore.fromJSON, GameStateMore.toJSON. simpl.
  by rewrite !Map_ofEntries_id.
Qed.

Lemma fromJSON_toJSON_witness :
  GameStateMore.toJSON
    (GameStateMore.fromJSON (GameStateMore.toJSON DemoTwice.dealt) 77 78)
  = GameStateMore.toJSON DemoTwice.dealt.
Proof.
  apply fromJSON_toJSON.
  - apply (agent_ids_unique _ DemoTwice_dealt_partitioned).
  - apply (territory_ids_unique _ DemoTwice_dealt_partitioned).
Defined.

(** X13.  A match restored with [fromJSON] has lost its continents:
    [calculateReinforcements] for any of its non-eliminated agents
    throws a [TypeError] (on [Object.entries(undefined)]) and changes
    nothing, until [initializeMap] is called again. *)
Theorem restored_match_cannot_reinforce
    (s : State.t) (createdAt lastActivity : Z) (agentId : string) (agent : Agent.t) :
  NoDup (OMap.keys (State.agents s)) →
  sget agentId (State.agents s) = Some agent →
  Agent.eliminated agent = false →
  let restored :=
    GameStateMore.fromJSON (GameStateMore.toJSON s) createdAt lastActivity in
  GameState.calculateReinforcements agentId restored
  = (Throw (TypeError "Cannot convert undefined or null to object"), restored).
Proof.
  intros Hnd Hget Helim restored. subst restored.
  unfold GameState.calculateReinforcements, GameStateMore.fromJSON,
    GameStateMore.toJSON. simpl.
  rewrite Map_ofEntries_id by done. by rewrite Hget, Helim.
Qed.

Lemma restored_match_cannot_reinforce_witness :
  let restored :=
    GameStateMore.fromJSON (GameStateMore.toJSON DemoNine.state) 77 78 in
  GameState.calculateReinforcements "a" DemoNine.state
  = (Return 5,
     snd (GameState.calculateReinforcements "a" DemoNine.state))
  ∧ GameState.calculateReinforcements "a" restored
    = (Throw (TypeError "Cannot convert undefined or null to object"), restored).
Proof.
  split; [by vm_compute|].
  apply (restored_match_cannot_reinforce DemoNine.state 77 78 "a"
           (snd (Demo.agent "a" DemoNine.ids 27 12))).
  - apply (bool_decide_unpack _). by vm_compute.
  - reflexivity.
  - reflexivity.
Defined.

(** ** The map *)

Lemma placeTerritories_get (defs : list GameStateMore.TerritoryDef)
    (ts : smap Territory.t) (tid : string) :
  NoDup (map GameStateMore.def_id defs) →
  sget tid (foldl GameStateMore.placeTerritory ts defs)
  = match List.find (λ d, bool_decide (GameStateMore.def_id d = tid)) defs with
    | Some d => Some (freshTerritory d)
    | None => sget tid ts
    end.
Proof.
  revert ts. induction defs as [|d defs IH]; intros ts Hnd; simpl; [done|].
  apply NoDup_cons in Hnd as [Hfresh Hnd]. rewrite IH by done.
  case_bool_decide as Hd.
  - subst tid.
    destruct (List.find _ defs) as [d'|] eqn:Hfind.
    + apply find_some in Hfind as [Hin Heq]. apply bool_decide_eq_true in Heq.
      exfalso. apply Hfresh. rewrite <- Heq.
      apply list_elem_of_fmap. exists d'. by rewrite list_elem_of_In.
    + unfold GameStateMore.placeTerritory. by rewrite sget_sset_eq.
  - destruct (List.find _ defs); [done|].
    unfold GameStateMore.placeTerritory. by rewrite sget_sset_ne.
Qed.

Lemma classicTerritories_ids_unique :
  NoDup (map GameStateMore.def_id GameStateMore.classicTerritories).
Proof. apply (bool_decide_unpack _). by vm_compute. Qed.

(** X14.  [initializeMap].  For the map type [classic] every territory
    of the definition is written as a neutral territory without armies
    (also over a territory of the same id that was owned before), the
    other territories and the agents are left alone, and the continents
    are set; on a new match the territory map holds the 42 ids of the
    definition in its order.  For any other map type the call throws a
    [TypeError] before anything is written. *)
Theorem initializeMap_spec (mapType : string) (s : State.t) :
  (mapType ≠ "classic" →
   GameStateMore.initializeMap mapType s
   = (Throw (TypeError "Cannot read properties of undefined"), s))
  ∧ (mapType = "classic" →
     ∃ s',
       GameStateMore.initializeMap mapType s = (Return tt, s')
       ∧ State.continents s' = Some GameStateMore.classicContinents
       ∧ State.agents s' = State.agents s
       ∧ (∀ d, d ∈ GameStateMore.classicTerritories →
            sget (GameStateMore.def_id d) (State.territories s')
            = Some (freshTerritory d))
       ∧ (∀ tid, tid ∉ map GameStateMore.def_id GameStateMore.classicTerritories →
            sget tid (State.territories s') = sget tid (State.territories s))
       ∧ (State.territories s = [] →
          OMap.keys (State.territories s')
          = map GameStateMore.def_id GameStateMore.classicTerritories
          ∧ OMap.size (State.territories s') = 42%nat)).
Proof.
  unfold GameStateMore.initializeMap, GameStateMore.getMapDefinitions. split.
  - intros Hne. cbn [OMap.get].
    assert (sameString "classic" mapType = false) as ->; [|done].
    apply sameString_false. congruence.
  - intros ->. cbn [OMap.get]. rewrite sameString_refl.
    eexists. split; [reflexivity|].
    cbn [State.continents State.agents State.territories
         GameStateMore.setContinents State.setTerritories
         GameStateMore.map_continents GameStateMore.map_territories].
    split; [done|]. split; [done|].
    split; [|split].
    + intros d Hd.
      rewrite placeTerritories_get by apply classicTerritories_ids_unique.
      destruct (List.find _ _) as [d'|] eqn:Hfind.
      * apply find_some in Hfind as [Hin Heq]. apply bool_decide_eq_true in Heq.
        assert (d' = d) as ->; [|done].
        apply list_elem_of_In in Hin.
        apply list_elem_of_lookup in Hin as [i Hi].
        apply list_elem_of_lookup in Hd as [j Hj].
        assert (i = j) as ->; [|congruence].
        eapply (NoDup_lookup _ _ _ _ classicTerritories_ids_unique);
          rewrite list_lookup_fmap; [by rewrite Hi|by rewrite Hj, Heq].
      * exfalso. eapply find_none in Hfind; [|by apply list_elem_of_In].
        by apply bool_decide_eq_false in Hfind.
    + intros tid Hnot.
      rewrite placeTerritories_get by apply classicTerritories_ids_unique.
      destruct (List.find _ _) as [d'|] eqn:Hfind; [|done].
      apply find_some in Hfind as [Hin Heq]. apply bool_decide_eq_true in Heq.
      exfalso. apply Hnot. rewrite <- Heq.
      apply list_elem_of_fmap. exists d'. by rewrite list_elem_of_In.
    + intros ->. by vm_compute.
Qed.

Lemma initializeMap_spec_witness :
  GameStateMore.initializeMap "hex" (GameStateMore.new "game-1" 0 0)
  = (Throw (TypeError "Cannot read properties of undefined"),
     GameStateMore.new "game-1" 0 0)
  ∧ ∃ s',
      GameStateMore.initializeMap "classic" (GameStateMore.new "game-1" 0 0)
      = (Return tt, s')
      ∧ OMap.size (State.territories s') = 42%nat.
Proof.
  split.
  - apply (proj1 (initializeMap_spec "hex" _)). discriminate.
  - destruct (proj2 (initializeMap_spec "classic" (GameStateMore.new "game-1" 0 0))
                eq_refl) as (s' & Hrun & _ & _ & _ & _ & Hkeys).
    exists s'. split; [exact Hrun|]. by apply Hkeys.
Defined.

(** On the classic map every territory that a continent lists and every
    neighbour that a territory names is a territory of the map. *)
Example classic_map_closed :
  let ids := map GameStateMore.def_id GameStateMore.classicTerritories in
  forallb (λ kc, forallb (λ tid, bool_decide (tid ∈ ids))
                   (Continent.territories (snd kc)))
          GameStateMore.classicContinents = true
  ∧ forallb (λ d, forallb (λ tid, bool_decide (tid ∈ ids))
                    (GameStateMore.def_neighbors d))
            GameStateMore.classicTerritories = true.
Proof. by vm_compute. Qed.

(** * The reputation ledger *)

(** ** Scores and history stay bounded *)

Section LedgerBounded.
Implicit Types e : ReputationEngine.t.

Lemma ledgerBounded_insert e agentId rep :
  ledgerBounded e → recordBounded rep →
  ledgerBounded
    (ReputationEngine.setReputations
       (<[agentId := rep]> (ReputationEngine.agentReputations e)) e).
Proof. intros He Hrep. unfold ledgerBounded. simpl. by apply map_Forall_insert_2. Qed.

Lemma ledgerBounded_emit e ev :
  ledgerBounded e → ledgerBounded (ReputationEngine.emit ev e).
Proof. done. Qed.

Lemma ledgerBounded_onRecord e agentId f :
  (∀ rep, recordBounded rep → recordBounded (f rep)) →
  ledgerBounded e → ledgerBounded (ReputationEngine.onRecord agentId f e).
Proof.
  intros Hf He. unfold ledgerBounded, ReputationEngine.onRecord. simpl.
  intros k rep. rewrite lookup_alter.
  case_decide as Hk.
  - subst. destruct (ReputationEngine.agentReputations e !! _) as [r|] eqn:Hr;
      simpl; [|done]. intros [= <-]. apply Hf. exact (He _ _ Hr).
  - apply He.
Qed.

Lemma ledgerBounded_updateDealCounts e agentId type :
  ledgerBounded e → ledgerBounded (ReputationEngine.updateDealCounts agentId type e).
Proof.
  intros He. unfold ReputationEngine.updateDealCounts.
  destruct (ReputationEngine.agentReputations e !! agentId) as [rep|] eqn:Hrep;
    [|done].
  apply ledgerBounded_insert; [done|].
  pose proof (He _ _ Hrep) as Hb. unfold ReputationEngine.countDeal.
  destruct type; simpl; try case_match; exact Hb.
Qed.

Lemma ledgerBounded_updateAllianceCounts e agentId type :
  ledgerBounded e →
  ledgerBounded (ReputationEngine.updateAllianceCounts agentId type e).
Proof.
  intros He. unfold ReputationEngine.updateAllianceCounts.
  destruct (ReputationEngine.agentReputations e !! agentId) as [rep|] eqn:Hrep;
    [|done].
  apply ledgerBounded_insert; [done|].
  pose proof (He _ _ Hrep) as Hb. by destruct type.
Qed.

Lemma ledgerBounded_recordBetrayal e betrayerId victimId type now :
  ledgerBounded e →
  ledgerBounded (ReputationEngine.recordBetrayal betrayerId victimId type now e).
Proof.
  intros He. unfold ReputationEngine.recordBetrayal.
  apply ledgerBounded_emit.
  set (e1 := match ReputationEngine.agentReputations e !! betrayerId with
             | Some _ => _ | None => _ end).
  assert (He1 : ledgerBounded e1).
  { subst e1.
    destruct (ReputationEngine.agentReputations e !! betrayerId) as [rep|] eqn:Hrep;
      [|done].
    apply ledgerBounded_insert; [done|]. exact (He _ _ Hrep). }
  destruct (ReputationEngine.agentReputations e1 !! victimId) as [rep|] eqn:Hrep;
    [|done].
  apply ledgerBounded_insert; [done|]. exact (He1 _ _ Hrep).
Qed.

Lemma ledgerBounded_foldl {A : Type} (f : ReputationEngine.t → A → ReputationEngine.t)
    (l : list A) e :
  (∀ e1 x, ledgerBounded e1 → ledgerBounded (f e1 x)) →
  ledgerBounded e → ledgerBounded (foldl f e l).
Proof.
  intros Hf. revert e. induction l as [|x l IH]; intros e He; simpl; [done|].
  apply IH. by apply Hf.
Qed.

Lemma logAction_bounded (action : ReputationEngine.ActionInput) (now : Z)
    (rep : Reputation.t) :
  recordBounded rep → recordBounded (ReputationEngine.logAction action now rep).
Proof.
  intros (Hc & Ha & Hd & Hh). unfold ReputationEngine.logAction.
  split; [done|]. split; [done|]. split; [done|]. simpl.
  destruct (100 <? _)%nat eqn:E.
  - rewrite length_drop. lia.
  - by apply Nat.ltb_ge in E.
Qed.

Lemma ledgerBounded_perform e c : ledgerBounded e → ledgerBounded (perform c e).
Proof.
  intros He. destruct c; simpl.
  - apply ledgerBounded_insert; [done|]. unfold recordBounded. simpl. lia.
  - unfold ReputationEngine.recordDeal. simpl.
    apply ledgerBounded_emit. by do 2 apply ledgerBounded_updateDealCounts.
  - unfold ReputationEngine.acceptDeal.
    destruct (ReputationEngine.deals e !! dealId); [|done].
    by destruct (negb _).
  - unfold ReputationEngine.fulfillDeal.
    destruct (ReputationEngine.deals e !! dealId); [|done].
    destruct (negb _); [done|].
    destruct (ReputationEngine.allFulfilled _); simpl; [|done].
    apply ledgerBounded_emit. by do 2 apply ledgerBounded_updateDealCounts.
  - unfold ReputationEngine.breakDeal.
    destruct (ReputationEngine.deals e !! dealId); [|done].
    destruct (_ && _); [done|]. simpl.
    apply ledgerBounded_emit. do 2 apply ledgerBounded_updateDealCounts.
    by apply ledgerBounded_recordBetrayal.
  - by apply ledgerBounded_recordBetrayal.
  - unfold ReputationEngine.formAlliance. cbn [snd]. apply ledgerBounded_emit.
    apply ledgerBounded_foldl; [|done].
    intros e1 x He1. by apply ledgerBounded_updateAllianceCounts.
  - unfold ReputationEngine.breakAlliance.
    destruct (ReputationEngine.alliances e !! allianceId) as [al|]; [|done].
    destruct (negb _); [done|]. cbn [snd]. apply ledgerBounded_emit.
    apply ledgerBounded_updateAllianceCounts.
    apply ledgerBounded_foldl; [|done].
    intros e1 x He1. destruct (negb _); [|done].
    apply ledgerBounded_updateAllianceCounts. by apply ledgerBounded_recordBetrayal.
  - unfold ReputationEngine.leaveAlliance.
    destruct (ReputationEngine.alliances e !! allianceId); [|done].
    by destruct (_ <? _)%nat.
  - unfold ReputationEngine.analyzeAction.
    destruct (ReputationEngine.agentReputations e !! _); [|done].
    apply ledgerBounded_emit.
    apply ledgerBounded_onRecord; [apply logAction_bounded|].
    repeat case_bool_decide.
    + apply ledgerBounded_onRecord.
      { intros rep (Hc & Ha & Hd & Hh). unfold recordBounded. simpl. lia. }
      destruct (ReputationEngine.isAlly _ _ _); [|done].
      by apply ledgerBounded_recordBetrayal.
    + apply ledgerBounded_onRecord; [|done].
      intros rep (Hc & Ha & Hd & Hh). unfold recordBounded. simpl. lia.
    + apply ledgerBounded_onRecord; [|done].
      intros rep (Hc & Ha & Hd & Hh). unfold recordBounded. simpl. lia.
    + apply ledgerBounded_onRecord; [|done].
      intros rep (Hc & Ha & Hd & Hh). unfold recordBounded. simpl. lia.
    + apply ledgerBounded_onRecord; [|done].
      intros rep (Hc & Ha & Hd & Hh). unfold recordBounded. simpl. lia.
    + done.
  - by apply ledgerBounded_updateDealCounts.
  - by apply ledgerBounded_updateAllianceCounts.
Qed.

Lemma ledgerBounded_run calls e : ledgerBounded e → ledgerBounded (run calls e).
Proof.
  unfold run. revert e. induction calls as [|c calls IH]; intros e He; simpl;
    [done|].
  apply IH. by apply ledgerBounded_perform.
Qed.

End LedgerBounded.

(** X15.  The behaviour scores stay on their scale.  In a ledger built
    from nothing by any sequence of calls, the consistency, aggression
    and diplomacy scores of every record are within [0, 100]. *)
Theorem scores_in_range (calls : list Call) (agentId : string) (rep : Reputation.t) :
  ReputationEngine.agentReputations (run calls ReputationEngine.new) !! agentId
  = Some rep →
  0 ≤ Reputation.consistencyScore rep ≤ 100
  ∧ 0 ≤ Reputation.aggressionScore rep ≤ 100
  ∧ 0 ≤ Reputation.diplomacyScore rep ≤ 100.
Proof.
  intros Hrep.
  assert (H : ledgerBounded (run calls ReputationEngine.new)).
  { apply ledgerBounded_run. unfold ledgerBounded, ReputationEngine.new. simpl.
    apply map_Forall_empty. }
  destruct (H _ _ Hrep) as (Hc & Ha & Hd & _). done.
Qed.

(** X16.  The action history is capped.  In a ledger built from nothing
    by any sequence of calls no record holds more than 100 history
    entries; and [analyzeAction] for a registered agent puts the action
    last in the agent's history, dropping the oldest entry when there
    were already 100. *)
Theorem history_capped :
  (∀ (calls : list Call) (agentId : string) (rep : Reputation.t),
     ReputationEngine.agentReputations (run calls ReputationEngine.new) !! agentId
     = Some rep →
     (length (Reputation.history rep) ≤ 100)%nat)
  ∧ (∀ (action : ReputationEngine.ActionInput) (now : Z) (e : ReputationEngine.t)
       (rep : Reputation.t),
       ReputationEngine.agentReputations e !! ReputationEngine.act_agentId action
       = Some rep →
       ∃ rep',
         ReputationEngine.agentReputations
           (ReputationEngine.analyzeAction action now e)
         !! ReputationEngine.act_agentId action = Some rep'
         ∧ let entry :=
             Action.mk (ReputationEngine.act_type action)
               (ReputationEngine.act_target action)
               (ReputationEngine.act_context action) now in
           let all := Reputation.history rep ++ [entry] in
           Reputation.history rep' = drop (length all - 100) all
           ∧ last (Reputation.history rep') = Some entry
           ∧ Reputation.lastUpdated rep' = now).
Proof.
  split.
  - intros calls agentId rep Hrep.
    assert (H : ledgerBounded (run calls ReputationEngine.new)).
    { apply ledgerBounded_run. unfold ledgerBounded, ReputationEngine.new. simpl.
      apply map_Forall_empty. }
    by destruct (H _ _ Hrep) as (_ & _ & _ & Hh).
  - intros action now e rep Hrep.
    unfold ReputationEngine.analyzeAction. rewrite Hrep.
    set (agentId := ReputationEngine.act_agentId action) in *.
    set (e1 := if bool_decide (ReputationEngine.act_type action = "attack")
               then _ else _).
    assert (He1 : ∃ rep1, ReputationEngine.agentReputations e1 !! agentId = Some rep1
                          ∧ Reputation.history rep1 = Reputation.history rep).
    { assert (Hon : ∀ f e0 r0,
        ReputationEngine.agentReputations e0 !! agentId = Some r0 →
        Reputation.history r0 = Reputation.history rep →
        (∀ r, Reputation.history (f r) = Reputation.history r) →
        ∃ rep1,
          ReputationEngine.agentReputations (ReputationEngine.onRecord agentId f e0)
          !! agentId = Some rep1
          ∧ Reputation.history rep1 = Reputation.history rep).
      { intros f e0 r0 Hr0 Hh Hf. unfold ReputationEngine.onRecord. simpl.
        rewrite lookup_alter_eq, Hr0. simpl. eexists. split; [done|].
        by rewrite Hf. }
      subst e1. repeat case_bool_decide.
      - destruct (ReputationEngine.isAlly _ _ _).
        + unfold ReputationEngine.recordBetrayal.
          set (e2 := match ReputationEngine.agentReputations e !! agentId with
                     | Some _ => _ | None => _ end).
          assert (He2 : ∃ r2, ReputationEngine.agentReputations e2 !! agentId = Some r2
                              ∧ Reputation.history r2 = Reputation.history rep).
          { subst e2. rewrite Hrep. simpl. rewrite lookup_insert_eq.
            by eexists. }
          destruct He2 as (r2 & Hr2 & Hh2).
          set (e3 := match ReputationEngine.agentReputations e2 !! _ with
                     | Some _ => _ | None => _ end).
          assert (He3 : ∃ r3, ReputationEngine.agentReputations e3 !! agentId = Some r3
                              ∧ Reputation.history r3 = Reputation.history rep).
          { subst e3.
            destruct (ReputationEngine.agentReputations e2
                        !! ReputationEngine.act_target action) as [victim|] eqn:Hv;
              [|by exists r2].
            simpl.
            destruct (decide (ReputationEngine.act_target action = agentId)) as [Heq|Hne].
            - rewrite Heq, lookup_insert_eq. eexists. split; [done|]. simpl.
              rewrite Heq in Hv. congruence.
            - rewrite lookup_insert_ne by done. by exists r2. }
          destruct He3 as (r3 & Hr3 & Hh3).
          by eapply (Hon _ (ReputationEngine.emit _ e3)).
        + by eapply Hon.
      - by eapply Hon.
      - by eapply Hon.
      - by eapply Hon.
      - by eapply Hon.
      - by exists rep. }
    destruct He1 as (rep1 & Hrep1 & Hh1). clearbody e1.
    unfold ReputationEngine.onRecord, ReputationEngine.emit. simpl.
    rewrite lookup_alter_eq, Hrep1. simpl.
    eexists. split; [done|]. unfold ReputationEngine.logAction. simpl.
    rewrite Hh1.
    set (all := Reputation.history rep ++ _).
    assert (Hdrop : (if (100 <? length all)%nat then drop (length all - 100) all
                     else all) = drop (length all - 100) all).
    { destruct (100 <? length all)%nat eqn:E; [done|].
      apply Nat.ltb_ge in E.
      by replace (length all - 100)%nat with 0%nat by lia. }
    rewrite Hdrop. split; [done|]. split; [|done].
    subst all. rewrite length_app. simpl.
    rewrite drop_app_le by lia. by rewrite last_snoc.
Qed.

Lemma scores_in_range_witness :
  ∃ rep,
    ReputationEngine.agentReputations
      (run DemoHistory.calls ReputationEngine.new) !! "a" = Some rep
    ∧ 0 ≤ Reputation.aggressionScore rep ≤ 100.
Proof.
  eexists. split; [by vm_compute|].
  apply (scores_in_range DemoHistory.calls "a"). by vm_compute.
Defined.

Lemma history_capped_witness :
  ∃ rep,
    ReputationEngine.agentReputations
      (run DemoHistory.calls ReputationEngine.new) !! "a" = Some rep
    ∧ (length (Reputation.history rep) ≤ 100)%nat.
Proof.
  eexists. split; [by vm_compute|].
  apply (proj1 history_capped DemoHistory.calls "a"). by vm_compute.
Defined.

(** ** Trust between two agents *)

Lemma clamp_range (x : Q) : (0 <= Qmax 0 (Qmin 100 x) <= 100)%Q.
Proof.
  destruct (Q.max_spec 0 (Qmin 100 x)) as [[? ->]|[? ->]];
    destruct (Q.min_spec 100 x) as [[? Hm]|[? Hm]]; rewrite ?Hm in *; lra.
Qed.

Lemma clamp_eq (x y : Q) :
  (x == y)%Q → (Qmax 0 (Qmin 100 x) == Qmax 0 (Qmin 100 y))%Q.
Proof. intros H. by rewrite H. Qed.

Lemma existsb_pointwise {A : Type} (f g : A → bool) (l : list A) :
  (∀ x, f x = g x) → existsb f l = existsb g l.
Proof.
  intros H. induction l as [|x l IH]; simpl; [done|]. by rewrite H, IH.
Qed.

Lemma isAlly_sym (agentId1 agentId2 : string) (e : ReputationEngine.t) :
  ReputationEngine.isAlly agentId1 agentId2 e
  = ReputationEngine.isAlly agentId2 agentId1 e.
Proof.
  unfold ReputationEngine.isAlly. apply existsb_pointwise. intros [k a]. simpl.
  destruct (bool_decide _), (MemberSet.has agentId1 _), (MemberSet.has agentId2 _);
    done.
Qed.

Lemma filter_three_swap {A : Type} (f g h : A → bool) (l : list A) :
  List.filter f (List.filter g (List.filter h l))
  = List.filter h (List.filter g (List.filter f l)).
Proof.
  induction l as [|x l IH]; [done|]. cbn [List.filter].
  destruct (h x) eqn:Hh, (f x) eqn:Hf; cbn [List.filter];
    destruct (g x) eqn:Hg; cbn [List.filter];
    rewrite ?Hh, ?Hf, ?Hg; cbn [List.filter]; rewrite ?Hh, ?Hf, ?Hg;
    by rewrite IH.
Qed.

(** X17.  [calculateTrust] answers on the scale: the result is within
    [0, 100] for any two ids and any ledger, and it is 0 when either id
    has no reputation record. *)
Theorem calculateTrust_range
    (agentId1 agentId2 : string) (e : ReputationEngine.t) :
  (0 <= ReputationQueries.calculateTrust agentId1 agentId2 e <= 100)%Q
  ∧ (ReputationEngine.agentReputations e !! agentId1 = None
     ∨ ReputationEngine.agentReputations e !! agentId2 = None →
     ReputationQueries.calculateTrust agentId1 agentId2 e = 0%Q).
Proof.
  unfold ReputationQueries.calculateTrust. split.
  - destruct (ReputationEngine.agentReputations e !! agentId1);
      destruct (ReputationEngine.agentReputations e !! agentId2);
      try (split; by apply Qle_refl || done).
    apply clamp_range.
  - intros [-> | ->]; [done|].
    by destruct (ReputationEngine.agentReputations e !! agentId1).
Qed.

Lemma calculateTrust_range_witness :
  ReputationQueries.calculateTrust "a" "zed" DemoLedger.ledger = 0%Q.
Proof.
  apply (proj2 (calculateTrust_range "a" "zed" DemoLedger.ledger)).
  right. reflexivity.
Defined.

(** X18.  [calculateTrust] is symmetric: the trust between two agents is
    the same number whichever of the two asks. *)
Theorem calculateTrust_symmetric
    (agentId1 agentId2 : string) (e : ReputationEngine.t) :
  (ReputationQueries.calculateTrust agentId1 agentId2 e
   == ReputationQueries.calculateTrust agentId2 agentId1 e)%Q.
Proof.
  unfold ReputationQueries.calculateTrust.
  destruct (ReputationEngine.agentReputations e !! agentId1) as [rep1|];
    destruct (ReputationEngine.agentReputations e !! agentId2) as [rep2|];
    try reflexivity.
  cbv zeta. apply clamp_eq.
  rewrite (isAlly_sym agentId2 agentId1).
  unfold ReputationQueries.getAgentDeals.
  rewrite (filter_three_swap (ReputationQueries.isParty agentId1) _
             (ReputationQueries.isParty agentId2)).
  rewrite (Z.add_comm (Reputation.trustScore rep2)).
  generalize (inject_Z (Reputation.trustScore rep1 + Reputation.trustScore rep2)).
  generalize (inject_Z (Z.of_nat (ReputationQueries.betrayalsOf rep1 agentId2))).
  generalize (inject_Z (Z.of_nat (ReputationQueries.betrayalsOf rep2 agentId1))).
  intros b21 b12 t.
  destruct (ReputationEngine.isAlly agentId1 agentId2 e);
    destruct (0 <? _)%nat; lra.
Qed.

(** Two agents at 50 each, allied, with a deal between them that is
    still pending: the trust between them is 50 + 20. *)
Example calculateTrust_allies :
  (ReputationQueries.calculateTrust "a" "b" DemoLedger.ledger == 70)%Q
  ∧ (ReputationQueries.calculateTrust "b" "a" DemoLedger.ledger == 70)%Q.
Proof. by vm_compute. Qed.

(** ** Alliances *)

Lemma MemberSet_ofArray_spec (l : list string) :
  NoDup (MemberSet.ofArray l) ∧ ∀ x, x ∈ MemberSet.ofArray l ↔ x ∈ l.
Proof.
  unfold MemberSet.ofArray.
  assert (Hgen : ∀ l acc, NoDup acc →
    NoDup (foldl MemberSet.add acc l)
    ∧ ∀ x, x ∈ foldl MemberSet.add acc l ↔ x ∈ acc ∨ x ∈ l).
  { clear l. induction l as [|y l IH]; intros acc Hacc; simpl.
    - split; [done|]. intros x. rewrite elem_of_nil. tauto.
    - assert (Hadd : NoDup (MemberSet.add acc y)
                     ∧ ∀ x, x ∈ MemberSet.add acc y ↔ x ∈ acc ∨ x = y).
      { unfold MemberSet.add, MemberSet.has. case_bool_decide as Hy.
        - split; [done|]. intros x. split; [tauto|]. by intros [?| ->].
        - split.
          + apply NoDup_app. split; [done|]. split; [|apply NoDup_singleton].
            by intros x Hx ->%list_elem_of_singleton.
          + intros x. by rewrite elem_of_app, list_elem_of_singleton. }
      destruct Hadd as [Hnd Hmem]. destruct (IH _ Hnd) as [Hnd' Hmem'].
      split; [done|]. intros x. rewrite Hmem', Hmem, elem_of_cons. tauto. }
  destruct (Hgen l [] ltac:(constructor)) as [Hnd Hmem].
  split; [done|]. intros x. rewrite Hmem, elem_of_nil. tauto.
Qed.

Lemma updateAllianceCounts_formed (agentId : string) (e : ReputationEngine.t) :
  ReputationEngine.updateAllianceCounts agentId ReputationEngine.formed e = e.
Proof.
  unfold ReputationEngine.updateAllianceCounts.
  destruct (ReputationEngine.agentReputations e !! agentId) as [rep|] eqn:Hrep;
    [|done].
  unfold ReputationEngine.setReputations. rewrite insert_id by done.
  by destruct e.
Qed.

Lemma isAlly_true (agentId1 agentId2 allianceId : string) (a : Alliance.t)
    (e : ReputationEngine.t) :
  ReputationEngine.alliances e !! allianceId = Some a →
  Alliance.state a = Alliance.active →
  agentId1 ∈ Alliance.members a → agentId2 ∈ Alliance.members a →
  ReputationEngine.isAlly agentId1 agentId2 e = true.
Proof.
  intros Hget Hactive H1 H2. unfold ReputationEngine.isAlly.
  apply existsb_exists. exists (allianceId, a). split.
  - apply list_elem_of_In. by apply elem_of_map_to_list.
  - simpl. unfold MemberSet.has.
    by rewrite !bool_decide_eq_true_2.
Qed.

(** X19.  [formAlliance] stores an active alliance whose member set is
    the given member array without repeats; from then on [isAlly]
    answers [true] for any two of its members, in either order.  No
    reputation record is changed by forming an alliance. *)
Theorem formAlliance_makes_allies
    (alliance : ReputationEngine.AllianceInput) (generated : string) (now : Z)
    (e : ReputationEngine.t) :
  let data := fst (ReputationEngine.formAlliance alliance generated now e) in
  let e' := snd (ReputationEngine.formAlliance alliance generated now e) in
  ReputationEngine.alliances e' !! Alliance.id data = Some data
  ∧ Alliance.state data = Alliance.active
  ∧ NoDup (Alliance.members data)
  ∧ (∀ x, x ∈ Alliance.members data ↔ x ∈ ReputationEngine.al_members alliance)
  ∧ ReputationEngine.agentReputations e' = ReputationEngine.agentReputations e
  ∧ (∀ agentId1 agentId2,
       agentId1 ∈ ReputationEngine.al_members alliance →
       agentId2 ∈ ReputationEngine.al_members alliance →
       ReputationEngine.isAlly agentId1 agentId2 e' = true
       ∧ ReputationEngine.isAlly agentId2 agentId1 e' = true).
Proof.
  intros data e'. subst data e'. unfold ReputationEngine.formAlliance.
  cbn [fst snd].
  set (data := Alliance.mk _ _ _ _ _ _ _ _ _ _ _).
  set (e1 := ReputationEngine.setAlliances _ e).
  assert (Hfold : foldl (λ acc memberId,
                           ReputationEngine.updateAllianceCounts memberId
                             ReputationEngine.formed acc)
                    e1 (ReputationEngine.al_members alliance) = e1).
  { generalize (ReputationEngine.al_members alliance). intros l.
    induction l as [|x l IH]; simpl; [done|].
    by rewrite updateAllianceCounts_formed. }
  rewrite Hfold.
  destruct (MemberSet_ofArray_spec (ReputationEngine.al_members alliance))
    as [Hnd Hmem].
  assert (Hget : ReputationEngine.alliances
                   (ReputationEngine.emit
                      (ReputationEngine.allianceFormed (Alliance.id data)) e1)
                 !! Alliance.id data = Some data).
  { subst e1. simpl. by rewrite lookup_insert_eq. }
  split; [exact Hget|]. split; [done|]. split; [exact Hnd|].
  split; [exact Hmem|]. split; [done|].
  intros agentId1 agentId2 H1 H2.
  split; eapply isAlly_true; try exact Hget; try done; by apply Hmem.
Qed.

Lemma formAlliance_makes_allies_witness :
  ReputationEngine.isAlly "b" "c"
    (snd (ReputationEngine.formAlliance
            (ReputationEngine.mkAllianceInput (Some "al2") None ["a"; "b"; "c"; "b"]
               None None None) "gen" 4 DemoLedger.ledger)) = true.
Proof.
  destruct (formAlliance_makes_allies
              (ReputationEngine.mkAllianceInput (Some "al2") None ["a"; "b"; "c"; "b"]
                 None None None) "gen" 4 DemoLedger.ledger)
    as (_ & _ & _ & _ & _ & Hallies).
  apply (Hallies "b" "c").
  - apply (bool_decide_unpack _). by vm_compute.
  - apply (bool_decide_unpack _). by vm_compute.
Defined.

(** ** Fulfilling a deal *)




(** ** Breaking an alliance *)

Lemma betrayMember_step (agentId memberId : string) (now : Z)
    (acc : ReputationEngine.t) (r : Reputation.t) :
  memberId ≠ agentId →
  ReputationEngine.agentReputations acc !! agentId = Some r →
  let acc' := betrayMember agentId now acc memberId in
  ReputationEngine.agentReputations acc' !! agentId
  = Some (charged memberId "alliance" (ReputationEngine.currentTurn acc) now r)
  ∧ ReputationEngine.agentReputations acc' !! memberId
    = honoured agentId (ReputationEngine.currentTurn acc) now
        <$> ReputationEngine.agentReputations acc !! memberId
  ∧ (∀ x, x ≠ agentId → x ≠ memberId →
       ReputationEngine.agentReputations acc' !! x
       = ReputationEngine.agentReputations acc !! x)
  ∧ ReputationEngine.currentTurn acc' = ReputationEngine.currentTurn acc
  ∧ ReputationEngine.alliances acc' = ReputationEngine.alliances acc
  ∧ ReputationEngine.deals acc' = ReputationEngine.deals acc.
Proof.
  intros Hne Hr acc'. subst acc'. unfold betrayMember.
  rewrite bool_decide_eq_false_2 by done. cbn [negb].
  unfold ReputationEngine.recordBetrayal. rewrite Hr.
  cbn [ReputationEngine.agentReputations ReputationEngine.setReputations
       ReputationEngine.currentTurn].
  rewrite lookup_insert_ne by done.
  unfold ReputationEngine.updateAllianceCounts.
  destruct (ReputationEngine.agentReputations acc !! memberId) as [v|] eqn:Hv;
    cbn [ReputationEngine.agentReputations ReputationEngine.setReputations
         ReputationEngine.emit ReputationEngine.currentTurn
         ReputationEngine.alliances ReputationEngine.deals].
  - rewrite lookup_insert_eq.
    cbn [ReputationEngine.agentReputations ReputationEngine.setReputations
         ReputationEngine.emit ReputationEngine.currentTurn
         ReputationEngine.alliances ReputationEngine.deals].
    split; [by rewrite !lookup_insert_ne, lookup_insert_eq by done|].
    split; [by rewrite lookup_insert_eq|].
    split; [|done].
    intros x Hxa Hxm. by rewrite !lookup_insert_ne by done.
  - rewrite lookup_insert_ne, Hv by done.
    cbn [ReputationEngine.agentReputations ReputationEngine.setReputations
         ReputationEngine.emit ReputationEngine.currentTurn
         ReputationEngine.alliances ReputationEngine.deals].
    split; [by rewrite lookup_insert_eq|].
    split; [by rewrite lookup_insert_ne, Hv by done|].
    split; [|done].
    intros x Hxa Hxm. by rewrite lookup_insert_ne by done.
Qed.

Lemma charged_many_trust (t : Z) (k : nat) :
  0 ≤ t → Nat.iter k (λ x, Z.max 0 (x - 10)) t = Z.max 0 (t - 10 * Z.of_nat k).
Proof.
  intros Ht. induction k as [|k IH].
  - simpl. lia.
  - rewrite Nat.iter_succ, IH. lia.
Qed.

Lemma betrayMembers_fold (agentId : string) (now : Z) (l : list string) :
  ∀ (acc : ReputationEngine.t) (r : Reputation.t),
    ReputationEngine.agentReputations acc !! agentId = Some r →
    let acc' := foldl (betrayMember agentId now) acc l in
    let turn := ReputationEngine.currentTurn acc in
    (∃ r',
       ReputationEngine.agentReputations acc' !! agentId = Some r'
       ∧ Reputation.betrayals r'
         = Reputation.betrayals r
           ++ map (λ m, Betrayal.mk m "alliance" turn now) (othersOf agentId l)
       ∧ Reputation.trustScore r'
         = Nat.iter (length (othersOf agentId l)) (λ x, Z.max 0 (x - 10))
             (Reputation.trustScore r)
       ∧ Reputation.alliancesBroken r' = Reputation.alliancesBroken r
       ∧ Reputation.alliancesHonored r' = Reputation.alliancesHonored r)
    ∧ (NoDup l → ∀ m, m ≠ agentId →
         ReputationEngine.agentReputations acc' !! m
         = (if bool_decide (m ∈ l) then honoured agentId turn now else id)
             <$> ReputationEngine.agentReputations acc !! m)
    ∧ ReputationEngine.currentTurn acc' = turn
    ∧ ReputationEngine.alliances acc' = ReputationEngine.alliances acc
    ∧ ReputationEngine.deals acc' = ReputationEngine.deals acc.
Proof.
  induction l as [|m l IH]; intros acc r Hr; cbn [foldl]; cbv zeta.
  { split.
    - exists r. split; [done|]. simpl. by rewrite app_nil_r.
    - split; [|done]. intros _ x Hx. rewrite bool_decide_eq_false_2 by apply not_elem_of_nil.
      by destruct (ReputationEngine.agentReputations acc !! x). }
  destruct (decide (m = agentId)) as [->|Hne].
  - (* the breaker itself is skipped *)
    assert (betrayMember agentId now acc agentId = acc) as ->.
    { unfold betrayMember. by rewrite bool_decide_eq_true_2. }
    destruct (IH acc r Hr) as (Hbreaker & Hothers & Hrest).
    assert (othersOf agentId (agentId :: l) = othersOf agentId l) as ->.
    { unfold othersOf. simpl. by rewrite bool_decide_eq_true_2. }
    split; [exact Hbreaker|]. split; [|exact Hrest].
    intros Hnd x Hx. apply NoDup_cons in Hnd as [_ Hnd].
    rewrite (Hothers Hnd x Hx).
    assert (bool_decide (x ∈ agentId :: l) = bool_decide (x ∈ l)) as ->; [|done].
    apply bool_decide_ext. rewrite elem_of_cons. split; [intros [?|?]; done|tauto].
  - destruct (betrayMember_step agentId m now acc r Hne Hr)
      as (Hr1 & Hm1 & Hx1 & Hturn1 & Hal1 & Hd1).
    destruct (IH _ _ Hr1) as ((r' & Hr' & Hbet & Htrust & Hbroken & Hhon)
                              & Hothers & Hturn & Hal & Hd).
    rewrite Hturn1 in *.
    assert (othersOf agentId (m :: l) = m :: othersOf agentId l) as ->.
    { unfold othersOf. simpl. by rewrite bool_decide_eq_false_2. }
    split; [|split; [|split; [done|split; congruence]]].
    + exists r'. split; [done|]. split; [|split; [|done]].
      * rewrite Hbet. simpl. by rewrite <- app_assoc.
      * rewrite Htrust. cbn [length].
        exact (eq_sym (Nat.iter_succ_r _ (λ x, Z.max 0 (x - 10))
                         (Reputation.trustScore r))).
    + intros Hnd x Hx. apply NoDup_cons in Hnd as [Hfresh Hnd].
      rewrite (Hothers Hnd x Hx).
      destruct (decide (x = m)) as [->|Hxm].
      * rewrite Hm1.
        rewrite (bool_decide_eq_false_2 (m ∈ l)) by done.
        rewrite (bool_decide_eq_true_2 (m ∈ m :: l)) by apply list_elem_of_here.
        by destruct (ReputationEngine.agentReputations acc !! m).
      * rewrite Hx1 by done.
        assert (bool_decide (x ∈ m :: l) = bool_decide (x ∈ l)) as ->; [|done].
        apply bool_decide_ext. rewrite elem_of_cons. tauto.
Qed.

(** X21.  [breakAlliance] by a member, whatever the status of the
    alliance is.  The alliance becomes ['broken'] with the breaker
    noted; one betrayal is recorded against the breaker for every other
    member, each costing 10 trust points down to 0, and the breaker's
    count of broken alliances goes up by one; every other member with a
    record gets one more honoured alliance and one more [betrayedBy]
    entry, with the trust score as it was.  A call for a missing
    alliance or by a non-member answers [false] and changes nothing. *)
Theorem breakAlliance_effects
    (allianceId agentId reason : string) (now : Z) (e : ReputationEngine.t) :
  (∀ alliance breaker,
     ReputationEngine.alliances e !! allianceId = Some alliance →
     agentId ∈ Alliance.members alliance →
     ReputationEngine.agentReputations e !! agentId = Some breaker →
     0 ≤ Reputation.trustScore breaker →
     let others := othersOf agentId (Alliance.members alliance) in
     let turn := ReputationEngine.currentTurn e in
     ∃ alliance' e' breaker',
       ReputationEngine.breakAlliance allianceId agentId reason now e
       = (Some alliance', e')
       ∧ ReputationEngine.alliances e' !! allianceId = Some alliance'
       ∧ Alliance.state alliance' = Alliance.broken
       ∧ Alliance.brokenBy alliance' = Some agentId
       ∧ Alliance.members alliance' = Alliance.members alliance
       ∧ ReputationEngine.agentReputations e' !! agentId = Some breaker'
       ∧ Reputation.betrayals breaker'
         = Reputation.betrayals breaker
           ++ map (λ m, Betrayal.mk m "alliance" turn now) others
       ∧ Reputation.trustScore breaker'
         = Z.max 0 (Reputation.trustScore breaker - 10 * Z.of_nat (length others))
       ∧ Reputation.alliancesBroken breaker'
         = S (Reputation.alliancesBroken breaker)
       ∧ (NoDup (Alliance.members alliance) →
          ∀ m victim,
            m ∈ others →
            ReputationEngine.agentReputations e !! m = Some victim →
            ReputationEngine.agentReputations e' !! m
            = Some (honoured agentId turn now victim)))
  ∧ ((ReputationEngine.alliances e !! allianceId = None
      ∨ ∃ alliance, ReputationEngine.alliances e !! allianceId = Some alliance
                    ∧ agentId ∉ Alliance.members alliance) →
     ReputationEngine.breakAlliance allianceId agentId reason now e = (None, e)).
Proof.
  split.
  - intros alliance breaker Hal Hmember Hbreaker Htrust others turn.
    unfold ReputationEngine.breakAlliance. rewrite Hal.
    unfold MemberSet.has. rewrite (bool_decide_eq_true_2 _ Hmember). cbn [negb].
    set (alliance' := Alliance.setBroken agentId now reason
                        (Alliance.setState Alliance.broken alliance)).
    set (e1 := ReputationEngine.setAlliances
                 (<[allianceId := alliance']> (ReputationEngine.alliances e)) e).
    change (Alliance.members alliance') with (Alliance.members alliance).
    change (foldl _ e1 (Alliance.members alliance))
      with (foldl (betrayMember agentId now) e1 (Alliance.members alliance)).
    destruct (betrayMembers_fold agentId now (Alliance.members alliance) e1 breaker
                Hbreaker)
      as ((r' & Hr' & Hbet & Htr & Hbroken & Hhon) & Hothers & Hturn & Hal' & Hd').
    change (ReputationEngine.currentTurn e1) with turn in *.
    fold others in Hbet, Htr.
    set (e2 := foldl (betrayMember agentId now) e1 (Alliance.members alliance)) in *.
    eexists alliance', _, _. split; [reflexivity|].
    unfold ReputationEngine.updateAllianceCounts. rewrite Hr'.
    cbn [ReputationEngine.agentReputations ReputationEngine.setReputations
         ReputationEngine.emit ReputationEngine.alliances].
    split; [rewrite Hal'; subst e1; simpl; by rewrite lookup_insert_eq|].
    split; [done|]. split; [done|]. split; [done|].
    split; [by rewrite lookup_insert_eq|].
    split; [exact Hbet|].
    split; [simpl; rewrite Htr; by apply charged_many_trust|].
    split; [simpl; by rewrite Hbroken|].
    intros Hnd m victim Hm Hvictim.
    assert (m ≠ agentId ∧ m ∈ Alliance.members alliance) as [Hne Hin].
    { subst others. unfold othersOf in Hm.
      apply list_elem_of_In, filter_In in Hm as [Hin Hneq].
      apply negb_true_iff, bool_decide_eq_false in Hneq.
      split; [done|]. by apply list_elem_of_In. }
    rewrite lookup_insert_ne by done.
    rewrite (Hothers Hnd m Hne), bool_decide_eq_true_2 by done.
    change (ReputationEngine.agentReputations e1)
      with (ReputationEngine.agentReputations e).
    by rewrite Hvictim.
  - unfold ReputationEngine.breakAlliance.
    intros [-> | (alliance & -> & Hnot)]; [done|].
    unfold MemberSet.has. by rewrite bool_decide_eq_false_2.
Qed.

Lemma breakAlliance_effects_witness :
  ∃ alliance' e' breaker',
    ReputationEngine.breakAlliance "al1" "a" "greed" 7 DemoLedger.ledger
    = (Some alliance', e')
    ∧ Alliance.state alliance' = Alliance.broken
    ∧ ReputationEngine.agentReputations e' !! "a" = Some breaker'
    ∧ Reputation.trustScore breaker' = 40.
Proof.
  destruct (breakAlliance_effects "al1" "a" "greed" 7 DemoLedger.ledger)
    as [Hbreak _].
  assert (∃ breaker, ReputationEngine.agentReputations DemoLedger.ledger !! "a"
                     = Some breaker ∧ Reputation.trustScore breaker = 50)
    as (breaker & Hbreaker & Ht) by (vm_compute; eauto).
  destruct (Hbreak DemoLedger.pact breaker) as
    (alliance' & e' & breaker' & Hrun & _ & Hstate & _ & _ & Hget & _ & Htrust & _).
  - by vm_compute.
  - apply (bool_decide_unpack _). by vm_compute.
  - exact Hbreaker.
  - rewrite Ht. lia.
  - exists alliance', e', breaker'. split; [exact Hrun|]. split; [exact Hstate|].
    split; [exact Hget|]. rewrite Htrust, Ht. by vm_compute.
Defined.

(** ** Breaking a deal *)


(** ** The blend of [updateDealCounts] *)






(** ** The reputation summary *)

Section SortByKey.
Context {A : Type} (key : A → Z).

Lemma behind_byKeyDesc (x y : A) :
  JsNum.gt (byKeyDesc key x y) (JsNum.ofZ 0) = true ↔ key x < key y.
Proof.
  unfold byKeyDesc, JsNum.gt, JsNum.sub, JsNum.add, JsNum.neg, JsNum.lt, JsNum.ofZ.
  rewrite Qltb_lt, Zlt_Qlt. change (inject_Z 0) with 0%Q.
  generalize (inject_Z (key x)), (inject_Z (key y)). intros a b.
  split; intros H; lra.
Qed.

Lemma sortInsert_sorted (x : A) (l : list A) :
  StronglySorted (λ a b, key b ≤ key a) l →
  StronglySorted (λ a b, key b ≤ key a) (sortInsert (byKeyDesc key) x l).
Proof.
  induction 1 as [|y l Hl IH Hy]; simpl.
  - repeat constructor.
  - destruct (JsNum.gt (byKeyDesc key x y) (JsNum.ofZ 0)) eqn:E.
    + apply behind_byKeyDesc in E. constructor; [done|].
      rewrite Forall_forall. intros z Hz.
      rewrite sortInsert_perm in Hz.
      apply elem_of_cons in Hz as [->|Hz]; [lia|].
      rewrite Forall_forall in Hy. by apply Hy.
    + assert (key y ≤ key x) as Hle.
      { destruct (Z_lt_le_dec (key x) (key y)) as [Hlt|]; [|done].
        apply behind_byKeyDesc in Hlt. congruence. }
      constructor; [by constructor|].
      constructor; [done|].
      rewrite Forall_forall in Hy |- *. intros z Hz. specialize (Hy z Hz). lia.
Qed.

Lemma Array_sort_sorted (l : list A) :
  StronglySorted (λ a b, key b ≤ key a) (Array_sort (byKeyDesc key) l).
Proof.
  unfold Array_sort. induction l as [|x l IH]; simpl; [constructor|].
  by apply sortInsert_sorted.
Qed.

Lemma sorted_head_max (l : list A) (h : A) :
  StronglySorted (λ a b, key b ≤ key a) l → head l = Some h →
  ∀ z, z ∈ l → key z ≤ key h.
Proof.
  intros Hs Hh z Hz. destruct l as [|x l]; [done|]. injection Hh as ->.
  apply StronglySorted_inv in Hs as [_ Hall].
  apply elem_of_cons in Hz as [->|Hz]; [lia|].
  rewrite Forall_forall in Hall. by apply Hall.
Qed.

Lemma sorted_last_min (l : list A) (b : A) :
  StronglySorted (λ a b, key b ≤ key a) l → last l = Some b →
  ∀ z, z ∈ l → key b ≤ key z.
Proof.
  induction 1 as [|x l Hl IH Hx]; intros Hlast z Hz; [done|].
  destruct l as [|y l].
  - injection Hlast as ->. apply list_elem_of_singleton in Hz as ->. lia.
  - change (last (x :: y :: l)) with (last (y :: l)) in Hlast.
    apply elem_of_cons in Hz as [->|Hz]; [|by apply IH].
    rewrite Forall_forall in Hx. apply Hx.
    by apply last_Some_elem_of in Hlast.
Qed.

Lemma Array_sort_best (l : list A) :
  l ≠ [] →
  ∃ h, head (Array_sort (byKeyDesc key) l) = Some h
       ∧ h ∈ l ∧ ∀ z, z ∈ l → key z ≤ key h.
Proof.
  intros Hne.
  destruct (Array_sort (byKeyDesc key) l) as [|h rest] eqn:Hsort;
    [by apply Array_sort_nonempty in Hsort|].
  pose proof (Array_sort_perm (byKeyDesc key) l) as Hperm.
  pose proof (Array_sort_sorted l) as Hsorted. rewrite Hsort in Hperm, Hsorted.
  exists h. split; [done|]. split.
  - rewrite <- Hperm. apply list_elem_of_here.
  - intros z Hz. rewrite <- Hperm in Hz. by eapply sorted_head_max.
Qed.

End SortByKey.

(** X24.  [getReputationSummary].  With no record every field of the
    summary is empty.  Otherwise [rankings] holds one entry per record,
    sorted by trust score from the highest down; [mostTrusted] is an
    entry with the highest trust score, [leastTrusted] one with the
    lowest; [mostAggressive] is a record with the highest aggression
    score and [bestDiplomat] one with the highest diplomacy score. *)
Theorem getReputationSummary_spec (reps : list Reputation.t) :
  let summary := Summary.getReputationSummary reps in
  (reps = [] → summary = Summary.mk [] None None None None)
  ∧ (reps ≠ [] →
     Summary.rankings summary ≡ₚ map Summary.toRanking reps
     ∧ StronglySorted (λ a b, Summary.trustScore b ≤ Summary.trustScore a)
         (Summary.rankings summary)
     ∧ (∃ top, Summary.mostTrusted summary = Some top
               ∧ top ∈ map Summary.toRanking reps
               ∧ ∀ r, r ∈ reps → Reputation.trustScore r ≤ Summary.trustScore top)
     ∧ (∃ bottom, Summary.leastTrusted summary = Some bottom
                  ∧ bottom ∈ map Summary.toRanking reps
                  ∧ ∀ r, r ∈ reps →
                      Summary.trustScore bottom ≤ Reputation.trustScore r)
     ∧ (∃ a, Summary.mostAggressive summary = Some a
             ∧ a ∈ reps
             ∧ ∀ r, r ∈ reps →
                 Reputation.aggressionScore r ≤ Reputation.aggressionScore a)
     ∧ (∃ d, Summary.bestDiplomat summary = Some d
             ∧ d ∈ reps
             ∧ ∀ r, r ∈ reps →
                 Reputation.diplomacyScore r ≤ Reputation.diplomacyScore d)).
Proof.
  intros summary. subst summary. split; [by intros ->|].
  intros Hne'.
  assert (Summary.getReputationSummary reps
          = let rankings :=
              Array_sort Summary.byTrustDesc (map Summary.toRanking reps) in
            let byAggression := Array_sort Summary.byAggressionDesc reps in
            let byDiplomacy := Array_sort Summary.byDiplomacyDesc byAggression in
            Summary.mk rankings (head rankings) (last rankings)
              (head byAggression) (head byDiplomacy)) as ->
    by (by destruct reps).
  cbv zeta.
  cbn [Summary.rankings Summary.mostTrusted Summary.leastTrusted
       Summary.mostAggressive Summary.bestDiplomat].
  change Summary.byTrustDesc with (byKeyDesc Summary.trustScore).
  change Summary.byAggressionDesc with (byKeyDesc Reputation.aggressionScore).
  change Summary.byDiplomacyDesc with (byKeyDesc Reputation.diplomacyScore).
  set (ranks := map Summary.toRanking reps).
  assert (Hranks : ranks ≠ []) by (subst ranks; by destruct reps).
  pose proof (Array_sort_perm (byKeyDesc Summary.trustScore) ranks) as Hperm.
  pose proof (Array_sort_sorted Summary.trustScore ranks) as Hsorted.
  assert (Htrust : ∀ r, r ∈ reps → Summary.toRanking r ∈ ranks).
  { intros r Hr. subst ranks. apply list_elem_of_fmap. by exists r. }
  split; [exact Hperm|]. split; [exact Hsorted|].
  split; [|split; [|split]].
  - destruct (Array_sort_best Summary.trustScore ranks Hranks)
      as (top & Hhead & Hin & Hmax).
    exists top. split; [done|]. split; [done|].
    intros r Hr. apply (Hmax _ (Htrust r Hr)).
  - destruct (last (Array_sort (byKeyDesc Summary.trustScore) ranks))
      as [bottom|] eqn:Hlast.
    + exists bottom. split; [done|]. split.
      * rewrite <- Hperm. by apply last_Some_elem_of.
      * intros r Hr.
        apply (sorted_last_min Summary.trustScore _ bottom Hsorted Hlast
                 (Summary.toRanking r)).
        rewrite Hperm. by apply Htrust.
    + apply last_None in Hlast. by apply Array_sort_nonempty in Hlast.
  - apply (Array_sort_best Reputation.aggressionScore reps Hne').
  - set (byAggression := Array_sort (byKeyDesc Reputation.aggressionScore) reps).
    assert (Hp : byAggression ≡ₚ reps) by apply Array_sort_perm.
    destruct (Array_sort_best Reputation.diplomacyScore byAggression)
      as (d & Hhead & Hin & Hmax).
    { by apply Array_sort_nonempty. }
    exists d. split; [done|]. split; [by rewrite <- Hp|].
    intros r Hr. apply Hmax. by rewrite Hp.
Qed.

Lemma getReputationSummary_spec_witness :
  ∃ top,
    Summary.mostTrusted (Summary.getReputationSummary DemoSummary.reps) = Some top
    ∧ ∀ r, r ∈ DemoSummary.reps → Reputation.trustScore r ≤ Summary.trustScore top.
Proof.
  destruct (proj2 (getReputationSummary_spec DemoSummary.reps) ltac:(discriminate))
    as (_ & _ & (top & Htop & _ & Hmax) & _).
  exists top. split; [exact Htop|exact Hmax].
Defined.

(** Ties go to the record that comes first: [a] and [c] are equally
    aggressive and [a] was inserted first; [b] and [c] are equally
    diplomatic, and after the sort by aggression [c] stands before
    [b]. *)
Example getReputationSummary_ties :
  let summary := Summary.getReputationSummary DemoSummary.reps in
  map Summary.agentId (Summary.rankings summary) = ["b"; "c"; "a"]
  ∧ (Reputation.agentId <$> Summary.mostAggressive summary) = Some "a"
  ∧ (Reputation.agentId <$> Summary.bestDiplomat summary) = Some "c".
Proof. by vm_compute. Qed.

(** ** The reinforcement round of [PhaseManager] *)

Lemma ownsAll_same_owners (agentId : string) (ts ts' : smap Territory.t)
    (c : Continent.t) :
  (∀ x, Territory.owner <$> sget x ts' = Territory.owner <$> sget x ts) →
  GameState.ownsAll agentId ts' c = GameState.ownsAll agentId ts c.
Proof.
  intros Hown. unfold GameState.ownsAll.
  induction (Continent.territories c) as [|tid tids IH]; simpl; [done|].
  rewrite IH. f_equal. specialize (Hown tid).
  destruct (sget tid ts') as [t'|], (sget tid ts) as [t|];
    simpl in Hown; try discriminate; [|done].
  injection Hown as ->. done.
Qed.

Lemma continentBonuses_same_owners (agentId : string) (ts ts' : smap Territory.t)
    (cs : smap Continent.t) (start : Z) :
  (∀ x, Territory.owner <$> sget x ts' = Territory.owner <$> sget x ts) →
  GameState.continentBonuses agentId ts' cs start
  = GameState.continentBonuses agentId ts cs start.
Proof.
  intros Hown. unfold GameState.continentBonuses. revert start.
  induction cs as [|kc cs IH]; intros start; simpl; [done|].
  rewrite (ownsAll_same_owners agentId ts ts') by done. apply IH.
Qed.

Lemma reinforceTerritories_spec (tids : list string) (perTerritory : Z)
    (c : State.t) :
  NoDup tids →
  (∀ tid, tid ∈ tids → is_Some (sget tid (State.territories c))) →
  ∃ c',
    PhaseManager.reinforceTerritories tids perTerritory c = (Return tt, c')
    ∧ State.setTerritories [] c' = State.setTerritories [] c
    ∧ OMap.keys (State.territories c') = OMap.keys (State.territories c)
    ∧ ∀ tid t, sget tid (State.territories c) = Some t →
        sget tid (State.territories c')
        = Some (if bool_decide (tid ∈ tids)
                then Territory.setArmies
                       (JsNum.add (Territory.armies t) (JsNum.ofZ perTerritory)) t
                else t).
Proof.
  revert c. induction tids as [|tid tids IH]; intros c Hnd Hall.
  - exists c. simpl. repeat split; try done.
  - apply NoDup_cons in Hnd as [Hfresh Hnd].
    destruct (Hall tid) as [t Ht]; [apply elem_of_cons; by left|].
    simpl. rewrite Ht.
    set (c1 := State.setTerritories _ c).
    destruct (IH c1 Hnd) as (c' & Hrun & Hrest & Hkeys & Hget).
    { intros x Hx. simpl.
      destruct (decide (tid = x)) as [->|Hne]; [done|].
      rewrite sget_sset_ne by done. apply Hall, elem_of_cons. by right. }
    exists c'. split; [exact Hrun|]. split; [by rewrite Hrest|].
    split; [rewrite Hkeys; simpl; by apply keys_sset_present|].
    intros x tx Hx. destruct (decide (tid = x)) as [->|Hne].
    + assert (tx = t) as -> by congruence.
      rewrite (Hget x _ (sget_sset_eq _ _ _)).
      rewrite (bool_decide_eq_false_2 _ Hfresh).
      rewrite bool_decide_eq_true_2 by (apply elem_of_cons; by left). done.
    + rewrite (Hget x tx) by (simpl; by rewrite sget_sset_ne).
      f_equal. erewrite bool_decide_ext; [done|].
      rewrite elem_of_cons. split; [by right|].
      intros [Heq|Hin]; [congruence|done].
Qed.

Lemma reinforcedSoFar_start (s : State.t) : reinforcedSoFar s [] s.
Proof.
  split; try done.
  intros tid t Ht. destruct (Territory.owner t) as [o|]; [|done].
  by destruct (sget o (State.agents s)).
Qed.

Lemma reinforcedSoFar_owners (s c : State.t) (served : list string) :
  reinforcedSoFar s served c →
  ∀ x, Territory.owner <$> sget x (State.territories c)
       = Territory.owner <$> sget x (State.territories s).
Proof.
  intros Hinv x.
  destruct (sget x (State.territories s)) as [t|] eqn:Ht.
  - rewrite (sofar_territories _ _ _ Hinv x t Ht). simpl. f_equal.
    destruct (Territory.owner t) as [o|] eqn:Eo; [|done].
    destruct (sget o (State.agents s)); [|done]. by destruct (bool_decide _).
  - apply sget_None_not_elem in Ht.
    rewrite <- (sofar_territory_keys _ _ _ Hinv) in Ht.
    apply sget_None_not_elem in Ht. by rewrite Ht.
Qed.

Lemma reinforcedSoFar_lists (s c : State.t) (served : list string) :
  reinforcedSoFar s served c →
  ∀ k, Agent.territories <$> sget k (State.agents c)
       = Agent.territories <$> sget k (State.agents s).
Proof.
  intros Hinv k.
  destruct (sget k (State.agents s)) as [a|] eqn:Ha.
  - rewrite (sofar_agents _ _ _ Hinv k a Ha). simpl. f_equal.
    by destruct (bool_decide _).
  - apply sget_None_not_elem in Ha.
    rewrite <- (sofar_agent_keys _ _ _ Hinv) in Ha.
    apply sget_None_not_elem in Ha. by rewrite Ha.
Qed.

Lemma reinforceAgent_step (s c : State.t) (cs : smap Continent.t)
    (served : list string) (k : string) (a : Agent.t) :
  partitioned s →
  State.continents s = Some cs →
  reinforcedSoFar s served c →
  k ∉ served →
  sget k (State.agents s) = Some a →
  Agent.id a = k →
  Agent.eliminated a = false →
  ∃ c', PhaseManager.reinforceAgent k c = (Return tt, c')
        ∧ reinforcedSoFar s (k :: served) c'.
Proof.
  intros Hpart Hcs Hinv Hfresh Ha Hid Helim.
  pose proof (sofar_agents _ _ _ Hinv k a Ha) as Hac.
  rewrite (bool_decide_eq_false_2 _ Hfresh) in Hac.
  assert (Hcsc : State.continents c = Some cs).
  { rewrite <- Hcs. exact (f_equal State.continents (sofar_elsewhere _ _ _ Hinv)). }
  assert (Hr : GameState.calculateReinforcements k c
               = (Return (reinforcementsOf k s),
                  State.setAgents
                    (sset k (Agent.setResources (Agent.resources a mod 5) a)
                       (State.agents c)) c)).
  { unfold reinforcementsOf, GameState.calculateReinforcements.
    rewrite Hac, Ha, Helim, Hcs, Hcsc. cbn [fst].
    rewrite (continentBonuses_same_owners k (State.territories s)
               (State.territories c)) by (by eapply reinforcedSoFar_owners).
    rewrite (Z.mod_eq (Agent.resources a) 5) by lia.
    do 4 f_equal. lia. }
  unfold PhaseManager.reinforceAgent. rewrite Hac, Hid, Hr.
  cbn [State.agents State.setAgents]. rewrite sget_sset_eq.
  cbn [Agent.territories Agent.setResources Agent.armies].
  set (c2 := State.setAgents _ _).
  assert (Hagents2 : State.agents c2 = sset k (reinforcedAgent s k a) (State.agents c)).
  { subst c2. cbn [State.agents State.setAgents].
    clear. induction (State.agents c) as [|[k0 a0] m IH]; simpl.
    - by rewrite sameString_refl.
    - destruct (sameString k0 k) eqn:E; simpl; rewrite E; [done|]. by rewrite IH. }
  assert (Hnd : NoDup (Agent.territories a))
    by exact (lists_without_repeats _ Hpart k a Ha).
  assert (Hon : ∀ tid, tid ∈ Agent.territories a →
                       is_Some (sget tid (State.territories c2))).
  { intros tid Hin.
    apply (lists_match_owners _ Hpart k a tid Ha) in Hin as (t & Ht & _).
    change (State.territories c2) with (State.territories c).
    rewrite (sofar_territories _ _ _ Hinv tid t Ht). by eexists. }
  destruct (reinforceTerritories_spec (Agent.territories a)
              (reinforcementsOf k s / Z.of_nat (length (Agent.territories a)))
              c2 Hnd Hon) as (c' & Hrun & Hrest & Hkeys & Hget).
  exists c'. split.
  { destruct (Agent.territories a) eqn:El; [|exact Hrun].
    simpl in Hrun. injection Hrun as <-. done. }
  assert (Hagents' : State.agents c' = State.agents c2)
    by exact (f_equal State.agents Hrest).
  split.
  - unfold sameElsewhere.
    rewrite <- (sofar_elsewhere _ _ _ Hinv).
    change (State.setTerritories [] (State.setAgents [] c'))
      with (State.setAgents [] (State.setTerritories [] c')).
    by rewrite Hrest.
  - rewrite Hagents', Hagents2, <- (sofar_agent_keys _ _ _ Hinv).
    apply keys_sset_present. by rewrite Hac.
  - by rewrite Hkeys, <- (sofar_territory_keys _ _ _ Hinv).
  - intros k0 a0 Ha0. rewrite Hagents', Hagents2.
    destruct (decide (k = k0)) as [<-|Hne].
    + rewrite sget_sset_eq. assert (a0 = a) as -> by congruence.
      by rewrite bool_decide_eq_true_2 by (apply elem_of_cons; by left).
    + rewrite sget_sset_ne by done.
      rewrite (sofar_agents _ _ _ Hinv k0 a0 Ha0). f_equal.
      erewrite bool_decide_ext; [done|].
      rewrite elem_of_cons. split; [by right|].
      intros [Heq|Hin]; [congruence|done].
  - intros tid t Ht.
    rewrite (Hget tid _ (sofar_territories _ _ _ Hinv tid t Ht)). f_equal.
    destruct (decide (Territory.owner t = Some k)) as [Ho|Ho].
    + rewrite bool_decide_eq_true_2
        by (apply (lists_match_owners _ Hpart k a tid Ha); eauto).
      rewrite Ho, Ha, (bool_decide_eq_false_2 _ Hfresh).
      by rewrite bool_decide_eq_true_2 by (apply elem_of_cons; by left).
    + rewrite bool_decide_eq_false_2.
      2:{ intros Hin.
          apply (lists_match_owners _ Hpart k a tid Ha) in Hin as (t0 & Ht0 & Ho0).
          congruence. }
      destruct (Territory.owner t) as [o|]; [|done].
      destruct (sget o (State.agents s)); [|done].
      erewrite bool_decide_ext; [done|].
      rewrite elem_of_cons. split; [by right|].
      intros [Heq|Hin]; [congruence|done].
Qed.

Lemma reinforceEach_spec (s : State.t) (cs : smap Continent.t) :
  partitioned s →
  State.continents s = Some cs →
  ∀ (keys served : list string) (c : State.t),
    NoDup keys →
    (∀ k, k ∈ keys →
       (k ∉ served)
       ∧ ∃ a, sget k (State.agents s) = Some a
              ∧ Agent.id a = k ∧ Agent.eliminated a = false) →
    reinforcedSoFar s served c →
    ∃ c', PhaseManager.reinforceEach keys c = (Return tt, c')
          ∧ reinforcedSoFar s (rev_append keys served) c'.
Proof.
  intros Hpart Hcs keys.
  induction keys as [|k keys IH]; intros served c Hnd Hkeys Hinv.
  - by exists c.
  - apply NoDup_cons in Hnd as [Hfresh Hnd].
    destruct (Hkeys k) as (Hk & a & Ha & Hid & Helim);
      [apply elem_of_cons; by left|].
    destruct (reinforceAgent_step s c cs served k a Hpart Hcs Hinv Hk Ha Hid Helim)
      as (c1 & Hrun1 & Hinv1).
    destruct (IH (k :: served) c1 Hnd) as (c' & Hrun & Hinv'); [|exact Hinv1|].
    { intros k0 Hk0. destruct (Hkeys k0) as [Hk0' Hrest];
        [apply elem_of_cons; by right|].
      split; [|exact Hrest].
      rewrite elem_of_cons. intros [->|Hin]; done. }
    exists c'. simpl. rewrite Hrun1. by split.
Qed.

Lemma keys_filter {V : Type} (f : string * V → bool) (m : smap V) :
  NoDup (OMap.keys m) →
  NoDup (OMap.keys (List.filter f m))
  ∧ ∀ k, k ∈ OMap.keys (List.filter f m) ↔
         ∃ v, sget k m = Some v ∧ f (k, v) = true.
Proof.
  induction m as [|[k0 v0] m IH]; simpl; intros Hnd.
  - split; [constructor|]. intros k. split; [by intros ?%elem_of_nil|].
    by intros (? & ? & ?).
  - apply NoDup_cons in Hnd as [Hfresh Hnd].
    destruct (IH Hnd) as [IHnd IHin].
    assert (Hnot : k0 ∉ OMap.keys (List.filter f m)).
    { intros Hin. apply IHin in Hin as (v & Hv & _).
      apply Hfresh. by eapply sget_Some_elem. }
    split.
    + destruct (f (k0, v0)); simpl; [|done]. by apply NoDup_cons.
    + intros k. destruct (sameString k0 k) eqn:E.
      * apply sameString_true in E as <-.
        destruct (f (k0, v0)) eqn:Ef; simpl.
        -- split; [intros _; by exists v0|]. intros _. apply elem_of_cons. by left.
        -- split; [done|]. intros (v & [= <-] & Hf). congruence.
      * apply sameString_false in E. rewrite <- IHin.
        destruct (f (k0, v0)); simpl; [|done].
        rewrite elem_of_cons. split; [intros [?|?]; [congruence|done]|by right].
Qed.

(** X25.  [distributeReinforcements] on a match whose ownership is
    consistent, whose continents are set and whose agents are stored
    under their ids.  The call returns and changes only agents and
    territories; ownership stays consistent.  Every agent that is not
    eliminated gets on its army count what [calculateReinforcements]
    returns for it on the starting state, and keeps its resources modulo
    five; each of its territories gets that number divided by the number
    of its territories, rounded down.  Eliminated agents, their
    territories and the unowned territories stay as they are. *)
Theorem distributeReinforcements_spec (s : State.t) (cs : smap Continent.t) :
  partitioned s →
  State.continents s = Some cs →
  Forall (λ ka, Agent.id (snd ka) = fst ka) (State.agents s) →
  ∃ s',
    PhaseManager.distributeReinforcements s = (Return tt, s')
    ∧ sameElsewhere s s'
    ∧ partitioned s'
    ∧ (∀ k a, sget k (State.agents s) = Some a →
         sget k (State.agents s')
         = Some (if Agent.eliminated a then a else reinforcedAgent s k a))
    ∧ (∀ tid t, sget tid (State.territories s) = Some t →
         Territory.owner t = None →
         sget tid (State.territories s') = Some t)
    ∧ (∀ tid t o a, sget tid (State.territories s) = Some t →
         Territory.owner t = Some o →
         sget o (State.agents s) = Some a →
         sget tid (State.territories s')
         = Some (if Agent.eliminated a then t else reinforcedTerritory s o a t)).
Proof.
  intros Hpart Hcs Hids.
  destruct (keys_filter (λ ka : string * Agent.t, negb (Agent.eliminated (snd ka)))
              (State.agents s) (agent_ids_unique _ Hpart)) as [Hnd Hactive].
  destruct (reinforceEach_spec s cs Hpart Hcs _ [] s Hnd) as (s' & Hrun & Hinv).
  { intros k Hk. split; [apply not_elem_of_nil|].
    apply Hactive in Hk as (a & Ha & Hf). exists a. split; [done|].
    split; [|simpl in Hf; by destruct (Agent.eliminated a)].
    rewrite Forall_forall in Hids.
    exact (Hids (k, a) (sget_Some_elem_pair _ _ _ Ha)). }
  { apply reinforcedSoFar_start. }
  assert (Hserved : ∀ k a, sget k (State.agents s) = Some a →
            bool_decide (k ∈ rev_append (OMap.keys (List.filter
              (λ ka : string * Agent.t, negb (Agent.eliminated (snd ka)))
              (State.agents s))) []) = negb (Agent.eliminated a)).
  { intros k a Ha. change (rev_append ?l []) with (reverse l).
    destruct (Agent.eliminated a) eqn:E; simpl.
    - apply bool_decide_eq_false_2. rewrite elem_of_reverse, Hactive.
      intros (v & Hv & Hf). assert (v = a) as -> by congruence.
      simpl in Hf. by rewrite E in Hf.
    - apply bool_decide_eq_true_2. rewrite elem_of_reverse, Hactive.
      exists a. split; [done|]. simpl. by rewrite E. }
  exists s'. split; [exact Hrun|]. split; [exact (sofar_elsewhere _ _ _ Hinv)|].
  split.
  { apply (partitioned_ext s); try done.
    - exact (sofar_territory_keys _ _ _ Hinv).
    - exact (sofar_agent_keys _ _ _ Hinv).
    - by eapply reinforcedSoFar_owners.
    - by eapply reinforcedSoFar_lists. }
  split; [|split].
  - intros k a Ha. rewrite (sofar_agents _ _ _ Hinv k a Ha), (Hserved k a Ha).
    by destruct (Agent.eliminated a).
  - intros tid t Ht Ho. rewrite (sofar_territories _ _ _ Hinv tid t Ht).
    by rewrite Ho.
  - intros tid t o a Ht Ho Ha.
    rewrite (sofar_territories _ _ _ Hinv tid t Ht), Ho, Ha, (Hserved o a Ha).
    by destruct (Agent.eliminated a).
Qed.

Lemma distributeReinforcements_spec_witness :
  ∃ s',
    PhaseManager.distributeReinforcements DemoTwice.dealt = (Return tt, s')
    ∧ map (λ ka, (fst ka, Agent.armies (snd ka))) (State.agents s')
      = [("a", JsNum.ofZ 11); ("b", JsNum.ofZ 8); ("c", JsNum.ofZ 8)]
    ∧ map (λ kt, (fst kt, Territory.armies (snd kt))) (State.territories s')
      = [("t1", JsNum.ofZ 5); ("t2", JsNum.ofZ 5);
         ("t3", JsNum.ofZ 8); ("t4", JsNum.ofZ 8)].
Proof.
  destruct (distributeReinforcements_spec DemoTwice.dealt Demo.continents
              DemoTwice_dealt_partitioned eq_refl)
    as (s' & Hrun & _).
  { by vm_compute; repeat constructor. }
  exists s'. split; [exact Hrun|].
  vm_compute in Hrun. injection Hrun as <-. by vm_compute.
Defined.

(** ** The default moves of [PhaseManager] *)

Lemma someForeign_spec (agentId : string) (ts : smap Territory.t)
    (nids : list string) :
  (∀ nid, nid ∈ nids → is_Some (sget nid ts)) →
  PhaseManager.someForeign agentId ts nids
  = Return (existsb (λ nid,
                       match sget nid ts with
                       | Some neighbor =>
                           negb (bool_decide (Territory.owner neighbor = Some agentId))
                       | None => false
                       end) nids).
Proof.
  induction nids as [|nid nids IH]; intros Hall; simpl; [done|].
  destruct (Hall nid) as [n Hn]; [apply elem_of_cons; by left|].
  rewrite Hn. destruct (negb _); simpl; [done|].
  apply IH. intros x Hx. apply Hall, elem_of_cons. by right.
Qed.

Lemma borderTerritories_spec (agentId : string) (ts : smap Territory.t)
    (tids : list string) :
  (∀ tid, tid ∈ tids →
     ∃ t, sget tid ts = Some t
          ∧ ∀ nid, nid ∈ Territory.neighbors t → is_Some (sget nid ts)) →
  PhaseManager.borderTerritories agentId ts tids
  = Return (List.filter (isBorder agentId ts) tids).
Proof.
  induction tids as [|tid tids IH]; intros Hall; simpl; [done|].
  destruct (Hall tid) as (t & Ht & Hn); [apply elem_of_cons; by left|].
  unfold isBorder at 1. rewrite Ht, (someForeign_spec _ _ _ Hn), IH.
  - by destruct (existsb _ _).
  - intros x Hx. apply Hall, elem_of_cons. by right.
Qed.

Lemma borderTerritories_missing (agentId : string) (ts : smap Territory.t)
    (tids : list string) (tid : string) :
  tid ∈ tids → sget tid ts = None →
  ∃ e, PhaseManager.borderTerritories agentId ts tids = Throw e.
Proof.
  intros Hin Hnone. induction tids as [|x tids IH]; [by apply elem_of_nil in Hin|].
  simpl. destruct (decide (x = tid)) as [->|Hne].
  - rewrite Hnone. by eexists.
  - apply elem_of_cons in Hin as [->|Hin]; [done|].
    destruct (sget x ts); [|by eexists].
    destruct (PhaseManager.someForeign _ _ _); [|by eexists].
    destruct (IH Hin) as [e ->]. by eexists.
Qed.

Lemma giveEach_lookup (share : Z) (tids : list string) (tid : string) :
  PhaseManager.giveEach share tids !! tid
  = if bool_decide (tid ∈ tids) then Some share else None.
Proof.
  unfold PhaseManager.giveEach.
  assert (Hgen : ∀ d : gmap string Z,
    foldl (λ distributions x, <[x := share]> distributions) d tids !! tid
    = if bool_decide (tid ∈ tids) then Some share else d !! tid).
  { induction tids as [|x tids IH]; intros d; simpl; [done|].
    rewrite IH. destruct (decide (tid = x)) as [->|Hne].
    - rewrite lookup_insert_eq.
      rewrite (bool_decide_eq_true_2 (x ∈ x :: tids))
        by (apply elem_of_cons; by left).
      by destruct (bool_decide _).
    - rewrite lookup_insert_ne by done.
      erewrite (bool_decide_ext (tid ∈ x :: tids)); [done|].
      rewrite elem_of_cons. split; [intros [?|?]; [congruence|done]|by right]. }
  by rewrite Hgen.
Qed.

Lemma giveEach_size (share : Z) (tids : list string) :
  (size (PhaseManager.giveEach share tids) ≤ length tids)%nat.
Proof.
  unfold PhaseManager.giveEach.
  assert (Hgen : ∀ d : gmap string Z,
    (size (foldl (λ distributions x, <[x := share]> distributions) d tids)
     ≤ size d + length tids)%nat).
  { induction tids as [|x tids IH]; intros d; simpl; [lia|].
    etrans; [apply IH|].
    destruct (d !! x) eqn:E.
    - rewrite map_size_insert_Some by done. lia.
    - rewrite map_size_insert_None by done. lia. }
  specialize (Hgen ∅). by rewrite map_size_empty in Hgen.
Qed.

(** X26.  [calculateDefensiveDistribution] for an agent and a number of
    reinforcements that is not negative.  If a territory of the agent is
    not on the map the call throws.  If the agent's territories and their
    neighbours are all on the map, the call returns a distribution over
    the agent's border territories (those with a neighbour the agent
    does not own), or over all its territories when it has no border
    territory; each of them gets the same share, the reinforcements
    divided by their number and rounded down, so that the distribution
    never hands out more than the reinforcements. *)
Theorem calculateDefensiveDistribution_spec
    (agent : Agent.t) (reinforcements : Z) (s : State.t) :
  0 ≤ reinforcements →
  (∀ tid, tid ∈ Agent.territories agent →
     sget tid (State.territories s) = None →
     ∃ e, PhaseManager.calculateDefensiveDistribution agent reinforcements s
          = Throw e)
  ∧ ((∀ tid, tid ∈ Agent.territories agent →
        ∃ t, sget tid (State.territories s) = Some t
             ∧ ∀ nid, nid ∈ Territory.neighbors t →
                 is_Some (sget nid (State.territories s))) →
     let border :=
       List.filter (isBorder (Agent.id agent) (State.territories s))
                   (Agent.territories agent) in
     let chosen :=
       if bool_decide (border = []) then Agent.territories agent else border in
     let share := reinforcements / Z.of_nat (length chosen) in
     ∃ distributions,
       PhaseManager.calculateDefensiveDistribution agent reinforcements s
       = Return distributions
       ∧ (∀ tid, distributions !! tid
                 = if bool_decide (tid ∈ chosen) then Some share else None)
       ∧ 0 ≤ share * Z.of_nat (size distributions) ≤ reinforcements).
Proof.
  intros Hr. split.
  - intros tid Hin Hnone. unfold PhaseManager.calculateDefensiveDistribution.
    destruct (borderTerritories_missing (Agent.id agent) _ _ _ Hin Hnone)
      as [e ->]. by eexists.
  - intros Hall border chosen share.
    unfold PhaseManager.calculateDefensiveDistribution.
    rewrite (borderTerritories_spec _ _ _ Hall). fold border.
    assert (Hsame : bool_decide (length border = 0%nat) = bool_decide (border = [])).
    { apply bool_decide_ext. by destruct border. }
    rewrite Hsame.
    assert (Hgive :
      (if bool_decide (border = [])
       then Return (PhaseManager.giveEach
                      (reinforcements / Z.of_nat (length (Agent.territories agent)))
                      (Agent.territories agent))
       else Return (PhaseManager.giveEach
                      (reinforcements / Z.of_nat (length border)) border))
      = Return (PhaseManager.giveEach share chosen)).
    { subst share chosen. by destruct (bool_decide (border = [])). }
    cbv zeta. rewrite Hgive. eexists. split; [reflexivity|].
    split; [apply giveEach_lookup|].
    pose proof (giveEach_size share chosen) as Hsize.
    destruct (decide (length chosen = 0%nat)) as [Hz|Hnz].
    + assert (size (PhaseManager.giveEach share chosen) = 0%nat) as -> by lia.
      lia.
    + assert (Hshare : 0 ≤ share) by (apply Z.div_pos; lia).
      assert (share * Z.of_nat (length chosen) ≤ reinforcements).
      { subst share. rewrite Z.mul_comm. apply Z.mul_div_le. lia. }
      split; [lia|]. nia.
Qed.

Lemma calculateDefensiveDistribution_spec_witness :
  ∃ distributions,
    PhaseManager.calculateDefensiveDistribution
      (snd (Demo.agent "a" ["t1"; "t4"] 13 12)) 5 (Demo.midGame "commit")
    = Return distributions
    ∧ distributions !! "t1" = Some 2
    ∧ distributions !! "t4" = Some 2
    ∧ distributions !! "t2" = None.
Proof.
  destruct (calculateDefensiveDistribution_spec
              (snd (Demo.agent "a" ["t1"; "t4"] 13 12)) 5 (Demo.midGame "commit")
              ltac:(lia)) as [_ Hspec].
  destruct Hspec as (d & Hrun & Hget & _).
  { intros tid Hin.
    assert (tid = "t1" ∨ tid = "t4") as [-> | ->].
    { apply elem_of_cons in Hin as [->|Hin]; [by left|].
      apply elem_of_cons in Hin as [->|Hin]; [by right|].
      by apply elem_of_nil in Hin. }
    - eexists. split; [reflexivity|]. intros nid Hn.
      assert (nid = "t2" ∨ nid = "t4") as [-> | ->]; [|by eexists..].
      apply elem_of_cons in Hn as [->|Hn]; [by left|].
      apply elem_of_cons in Hn as [->|Hn]; [by right|].
      by apply elem_of_nil in Hn.
    - eexists. split; [reflexivity|]. intros nid Hn.
      assert (nid = "t3" ∨ nid = "t1") as [-> | ->]; [|by eexists..].
      apply elem_of_cons in Hn as [->|Hn]; [by left|].
      apply elem_of_cons in Hn as [->|Hn]; [by right|].
      by apply elem_of_nil in Hn. }
  exists d. split; [exact Hrun|].
  rewrite !Hget. by vm_compute.
Defined.

(** ** Who still has to commit *)

Lemma shas_elem {V : Type} (k : string) (m : smap V) :
  shas k m = true ↔ k ∈ OMap.keys m.
Proof.
  unfold OMap.has. split.
  - destruct (sget k m) eqn:E; [|done]. intros _. by eapply sget_Some_elem.
  - intros [v Hv]%elem_keys_sget. by rewrite Hv.
Qed.

Lemma active_ids (m : smap Agent.t) :
  Forall (λ ka, Agent.id (snd ka) = fst ka) m →
  map Agent.id (List.filter (λ a, negb (Agent.eliminated a)) (OMap.values m))
  = OMap.keys (List.filter (λ ka : string * Agent.t,
                              negb (Agent.eliminated (snd ka))) m).
Proof.
  induction 1 as [|[k a] m Hid _ IH]; simpl; [done|].
  destruct (negb (Agent.eliminated a)); simpl; [|exact IH].
  simpl in Hid. by rewrite Hid, <- IH.
Qed.

Lemma needing_as_filter (s : State.t) :
  PhaseManager.getAgentsNeedingMoves s
  = List.filter (λ id, negb (shas id (State.moves s)))
      (map Agent.id (GameState.getActiveAgents s)).
Proof.
  unfold PhaseManager.getAgentsNeedingMoves.
  induction (GameState.getActiveAgents s) as [|a l IH]; simpl; [done|].
  destruct (negb _); simpl; by rewrite IH.
Qed.

Lemma filter_nil_iff {A : Type} (f : A → bool) (l : list A) :
  List.filter f l = [] ↔ ∀ x, x ∈ l → f x = false.
Proof.
  induction l as [|y l IH]; simpl.
  - split; [|done]. by intros _ x ?%elem_of_nil.
  - destruct (f y) eqn:E.
    + split; [done|]. intros H. specialize (H y). rewrite E in H.
      discriminate H. apply elem_of_cons. by left.
    + rewrite IH. split.
      * intros H x [->|Hx]%elem_of_cons; [done|by apply H].
      * intros H x Hx. apply H, elem_of_cons. by right.
Qed.

Lemma elem_needing (s : State.t) (id : string) :
  id ∈ PhaseManager.getAgentsNeedingMoves s ↔
  id ∈ map Agent.id (GameState.getActiveAgents s) ∧ id ∉ OMap.keys (State.moves s).
Proof.
  rewrite needing_as_filter, list_elem_of_In, filter_In, <- list_elem_of_In.
  rewrite <- shas_elem.
  destruct (shas id (State.moves s)); simpl; split; intros [? ?]; done.
Qed.

Lemma none_needing_iff_counts (s : State.t) :
  NoDup (OMap.keys (State.agents s)) →
  Forall (λ ka, Agent.id (snd ka) = fst ka) (State.agents s) →
  NoDup (OMap.keys (State.moves s)) →
  (∀ k, k ∈ OMap.keys (State.moves s) →
     ∃ a, sget k (State.agents s) = Some a ∧ Agent.eliminated a = false) →
  PhaseManager.getAgentsNeedingMoves s = [] ↔
  OMap.size (State.moves s) = length (GameState.getActiveAgents s).
Proof.
  intros Hnd Hids Hndm Hactive.
  destruct (keys_filter (λ ka : string * Agent.t, negb (Agent.eliminated (snd ka)))
              (State.agents s) Hnd) as [HndL HinL].
  rewrite <- (active_ids _ Hids) in HndL, HinL.
  fold (GameState.getActiveAgents s) in HndL, HinL.
  rewrite size_keys, <- (length_map Agent.id (GameState.getActiveAgents s)).
  set (L := map Agent.id (GameState.getActiveAgents s)) in *.
  set (M := OMap.keys (State.moves s)) in *.
  assert (Hsub : ∀ k, k ∈ M → k ∈ L).
  { intros k Hk. apply HinL. destruct (Hactive k Hk) as (a & Ha & He).
    exists a. simpl. by rewrite He. }
  rewrite needing_as_filter. fold L. rewrite filter_nil_iff.
  split.
  - intros Hall. apply Permutation_length, NoDup_Permutation; try done.
    intros k. split; [apply Hsub|]. intros Hk. apply shas_elem.
    specialize (Hall k Hk). by destruct (shas k (State.moves s)).
  - intros Hlen k Hk.
    assert (Hperm : M ≡ₚ L).
    { apply submseteq_length_Permutation; [|lia].
      by apply NoDup_submseteq. }
    rewrite <- Hperm in Hk. apply shas_elem in Hk. fold M in Hk.
    by rewrite Hk.
Qed.

(** X27.  [commitMove] and [getAgentsNeedingMoves].  In the commit phase,
    when the agents are stored under their ids and every commitment so
    far is that of an agent still in the game, a valid move committed by
    such an agent takes it off the list of agents needing moves and
    leaves the others on it; and the event [allMovesCommitted] follows
    [moveCommitted] exactly when that list has become empty. *)
Theorem commitMove_signals_when_none_needing
    (sha256Json : Move.t → string) (agentId : string) (m : Move.t)
    (signature : string) (now : Z) (s : State.t) :
  State.phase s = "commit" →
  GameState.validateMove (State.territories s) (MoveObject m) = true →
  NoDup (OMap.keys (State.agents s)) →
  Forall (λ ka, Agent.id (snd ka) = fst ka) (State.agents s) →
  NoDup (OMap.keys (State.moves s)) →
  (∀ k, k ∈ agentId :: OMap.keys (State.moves s) →
     ∃ a, sget k (State.agents s) = Some a ∧ Agent.eliminated a = false) →
  let s' :=
    snd (GameState.commitMove sha256Json agentId (MoveObject m) signature now s) in
  (agentId ∉ PhaseManager.getAgentsNeedingMoves s')
  ∧ (∀ other, other ≠ agentId →
       other ∈ PhaseManager.getAgentsNeedingMoves s' ↔
       other ∈ PhaseManager.getAgentsNeedingMoves s)
  ∧ State.events s'
    = State.events s
      ++ moveCommitted agentId (sha256Json m)
         :: (if bool_decide (PhaseManager.getAgentsNeedingMoves s' = [])
             then [allMovesCommitted] else []).
Proof.
  intros Hphase Hvalid Hnd Hids Hndm Hactive s'.
  set (commitment := Commitment.mk agentId m signature now (sha256Json m)).
  set (s2 := State.emit (moveCommitted agentId (sha256Json m))
               (State.setMoves (sset agentId commitment (State.moves s)) s)).
  assert (Hkeys2 : ∀ k, k ∈ OMap.keys (State.moves s2) ↔
                        k = agentId ∨ k ∈ OMap.keys (State.moves s)).
  { intros k. cbn [s2 State.moves State.emit State.setMoves].
    rewrite <- !shas_elem. unfold OMap.has.
    destruct (decide (agentId = k)) as [->|Hne].
    - rewrite sget_sset_eq. split; [by left|done].
    - rewrite sget_sset_ne by done. split; [by right|].
      intros [->|H]; done. }
  assert (Hiff : PhaseManager.getAgentsNeedingMoves s2 = [] ↔
                 OMap.size (State.moves s2) = length (GameState.getActiveAgents s2)).
  { apply none_needing_iff_counts; try done.
    - apply NoDup_keys_sset, Hndm.
    - intros k Hk. apply Hkeys2 in Hk. apply Hactive, elem_of_cons.
      destruct Hk as [->|Hk]; [by left|by right]. }
  assert (Hs' : s' = if bool_decide (PhaseManager.getAgentsNeedingMoves s2 = [])
                     then State.emit allMovesCommitted s2 else s2).
  { subst s'. unfold GameState.commitMove.
    rewrite (bool_decide_eq_true_2 _ Hphase), Hvalid. cbn [negb snd].
    fold commitment. change (Commitment.hash commitment) with (sha256Json m).
    fold s2. by rewrite (bool_decide_ext _ _ Hiff). }
  assert (Hneed : PhaseManager.getAgentsNeedingMoves s'
                  = PhaseManager.getAgentsNeedingMoves s2).
  { rewrite Hs'. by destruct (bool_decide _). }
  split; [|split].
  - rewrite Hneed, elem_needing, Hkeys2. intros [_ Hnot]. apply Hnot. by left.
  - intros other Hother. rewrite Hneed, !elem_needing, Hkeys2.
    change (GameState.getActiveAgents s2) with (GameState.getActiveAgents s).
    split; intros [Hin Hnot]; (split; [done|]).
    + intros Hk. apply Hnot. by right.
    + intros [->|Hk]; done.
  - rewrite Hneed, Hs'. destruct (bool_decide _); simpl; [|done].
    by rewrite <- app_assoc.
Qed.

Lemma commitMove_signals_when_none_needing_witness :
  "b" ∉ PhaseManager.getAgentsNeedingMoves
          (snd (GameState.commitMove Demo.sha "b" (MoveObject Demo.defend) "sig" 0
                  (Demo.midGame "commit"))).
Proof.
  apply (commitMove_signals_when_none_needing Demo.sha "b" Demo.defend
           "sig" 0 (Demo.midGame "commit") eq_refl eq_refl).
  - apply (bool_decide_unpack _). by vm_compute.
  - by vm_compute; repeat constructor.
  - constructor.
  - intros k Hk. apply elem_of_cons in Hk as [->|Hk].
    + by eexists.
    + by apply elem_of_nil in Hk.
Defined.

(** A commitment under an id that never joined counts like any other:
    with three agents in the game and commitments from [a] and a
    stranger, the commitment of [b] is answered with
    [allMovesCommitted], while [c] still has to commit. *)
Example commitMove_signals_with_stranger :
  State.events DemoCommit.afterB
  = [moveCommitted "b" "hash"; allMovesCommitted]
  ∧ PhaseManager.getAgentsNeedingMoves DemoCommit.afterB = ["c"].
Proof. by vm_compute. Qed.
